(** * Chat edit workflow: a shallow embedding of chat-edit-workflow.service.ts

    The file embeds the workflow service [ChatEditWorkflowService] (the state
    machine, the stream reducer, the numeric selection parser) and, of
    [ParagraphEditsConsolidatedComponent], the highlight renderer, the
    getters and the bulk actions, and proves properties of them.

    Conventions of the embedding:
    - a JavaScript string is the list of its UTF-16 code units ([jsstring]);
    - a property of a JSON object that may be absent or [null] is a [jsopt];
    - the numbers that [parseInt] produces are IEEE doubles; the ones that
      occur (non-negative integers and +Infinity) are written out in
      [jsnum], with the rounding of [i++] made explicit;
    - the service is a state-and-trace monad [M]: every [next] on a subject,
      every request to the backend is recorded in the trace; what the
      backend answers is an argument of the operation that asks, and an
      [await] is taken in one step, except that the events of a
      [nextEditor] reply can also come in one by one, between other calls
      ([NextEditorEvent]);
    - an array is a list: the bound of 2^32 - 1 elements of a JavaScript
      array is not modelled;
    - [new Date()] timestamps and the constant [role: 'assistant'] are left
      out of [Message];
    - the utilities imported from [../utils] are not among the sources; they
      are the fields of the class [External].

    Not embedded: [parseOptOutInput], which nothing calls, the template and
    the styles of the component, its per-feedback toggles
    ([applyEditorialFix], [rejectEditorialFeedback],
    [approveEditorialFeedback]), [paragraphFeedbackData], and [escapeRegex]
    and [isSingleWord] as functions of their own. *)

From Stdlib Require Import ZArith NArith Ascii String DecimalString.
From stdpp Require Import base list numbers option.

Local Open Scope N_scope.

(** ** JavaScript strings *)

Abbreviation jsstring := (list N).

Fixpoint utf8_decode (bs : list N) : list N :=
  match bs with
  | [] => []
  | b0 :: r0 =>
      if b0 <? 0x80 then b0 :: utf8_decode r0
      else if b0 <? 0xE0 then
        match r0 with
        | b1 :: r1 => ((b0 - 0xC0) * 0x40 + (b1 - 0x80)) :: utf8_decode r1
        | _ => []
        end
      else if b0 <? 0xF0 then
        match r0 with
        | b1 :: b2 :: r2 =>
            ((b0 - 0xE0) * 0x1000 + (b1 - 0x80) * 0x40 + (b2 - 0x80))
              :: utf8_decode r2
        | _ => []
        end
      else
        match r0 with
        | b1 :: b2 :: b3 :: r3 =>
            ((b0 - 0xF0) * 0x40000 + (b1 - 0x80) * 0x1000
             + (b2 - 0x80) * 0x40 + (b3 - 0x80)) :: utf8_decode r3
        | _ => []
        end
  end.

Definition utf16_encode (cp : N) : list N :=
  if cp <? 0x10000 then [cp]
  else [0xD800 + (cp - 0x10000) / 0x400; 0xDC00 + (cp - 0x10000) mod 0x400].

(** [lit s] is the JavaScript string written [s] in the source text. *)
Definition lit (s : string) : jsstring :=
  flat_map utf16_encode (utf8_decode (map N_of_ascii (list_ascii_of_string s))).

Definition nl : jsstring := [10].
Definition dquote : jsstring := [34].

Definition jsstring_eqb (a b : jsstring) : bool := bool_decide (a = b).

(** WhiteSpace and LineTerminator code units: what [String.prototype.trim]
    removes and what [\s] matches. *)
Definition isWhiteSpace (c : N) : bool :=
  ((9 <=? c) && (c <=? 13)) || (c =? 32) || (c =? 0xA0) || (c =? 0x1680)
  || ((0x2000 <=? c) && (c <=? 0x200A)) || (c =? 0x2028) || (c =? 0x2029)
  || (c =? 0x202F) || (c =? 0x205F) || (c =? 0x3000) || (c =? 0xFEFF).

(** [\d] *)
Definition isDigit (c : N) : bool := (48 <=? c) && (c <=? 57).

(** [\w] *)
Definition isWordChar (c : N) : bool :=
  ((48 <=? c) && (c <=? 57)) || ((65 <=? c) && (c <=? 90))
  || ((97 <=? c) && (c <=? 122)) || (c =? 95).

(** [.] without the [s] flag excludes the line terminators; [^] and [$] with
    the [m] flag look for them. *)
Definition isLineTerminator (c : N) : bool :=
  (c =? 10) || (c =? 13) || (c =? 0x2028) || (c =? 0x2029).

Fixpoint dropWhile {A} (p : A -> bool) (l : list A) : list A :=
  match l with
  | [] => []
  | x :: l' => if p x then dropWhile p l' else l
  end.

Fixpoint takeWhile {A} (p : A -> bool) (l : list A) : list A :=
  match l with
  | [] => []
  | x :: l' => if p x then x :: takeWhile p l' else []
  end.

Definition trimStart (s : jsstring) : jsstring := dropWhile isWhiteSpace s.
Definition trimEnd (s : jsstring) : jsstring := rev (dropWhile isWhiteSpace (rev s)).
Definition trim (s : jsstring) : jsstring := trimEnd (trimStart s).

(** [text.startsWith(p)] *)
Fixpoint startsWith (p text : jsstring) : bool :=
  match p, text with
  | [], _ => true
  | _ :: _, [] => false
  | a :: p', b :: text' => (a =? b) && startsWith p' text'
  end.

(** [text.includes(p)] *)
Fixpoint includes (p text : jsstring) : bool :=
  startsWith p text ||
  match text with
  | [] => false
  | _ :: text' => includes p text'
  end.

(** Truthiness of a string, and [a || b] on strings. *)
Definition truthy (s : jsstring) : bool :=
  match s with [] => false | _ => true end.

Definition orElse (a b : jsstring) : jsstring := if truthy a then a else b.

(** [xs.join(sep)] *)
Fixpoint join (sep : jsstring) (xs : list jsstring) : jsstring :=
  match xs with
  | [] => []
  | [x] => x
  | x :: rest => x ++ sep ++ join sep rest
  end.

(** ** Properties of JSON objects *)

Inductive jsopt (A : Type) : Type :=
| Undefined
| Null
| Val (a : A).
Arguments Undefined {A}.
Arguments Null {A}.
Arguments Val {A} a.

(** [x || d] for a string-valued property. *)
Definition strOr (x : jsopt jsstring) (d : jsstring) : jsstring :=
  match x with Val s => orElse s d | _ => d end.

(** [x || d] for a number-valued property. *)
Definition numOr (x : jsopt Z) (d : Z) : Z :=
  match x with Val n => if (n =? 0)%Z then d else n | _ => d end.

(** [x || []] for an array-valued property. *)
Definition arrOr {A} (x : jsopt (list A)) : list A :=
  match x with Val l => l | _ => [] end.

(** Truthiness of a string-valued property. *)
Definition truthyOpt (x : jsopt jsstring) : bool :=
  match x with Val s => truthy s | _ => false end.

(** ** Numbers produced by [parseInt]

    [parseInt] of a digit string is the double nearest to its decimal value
    (ties to even), +Infinity from 2^1024 - 2^970 on.  Doubles below 2^53
    are the integers themselves. *)

Inductive jsnum : Type :=
| Finite (z : Z)
| Infinity.

Global Instance jsnum_eq_dec : EqDecision jsnum.
Proof. solve_decision. Defined.

Local Open Scope Z_scope.

Definition roundToDouble (z : Z) : jsnum :=
  if z <? 2 ^ 53 then Finite z
  else
    let e := Z.log2 z - 52 in
    let q := z / 2 ^ e in
    let r := z mod 2 ^ e in
    let half := 2 ^ (e - 1) in
    let q' := if r <? half then q
              else if half <? r then q + 1
              else if Z.even q then q else q + 1 in
    let v := q' * 2 ^ e in
    if 2 ^ 1024 <=? v then Infinity else Finite v.

Definition digitValue (c : N) : Z := Z.of_N c - 48.

Definition decimalValue (ds : jsstring) : Z :=
  fold_left (fun acc c => acc * 10 + digitValue c) ds 0.

(** [parseInt(s)] for [s] a capture of [(\d+)], the only way it is called. *)
Definition parseInt (s : jsstring) : jsnum :=
  roundToDouble (decimalValue (takeWhile isDigit s)).

(** [a <= b] *)
Definition jsle (a b : jsnum) : bool :=
  match a, b with
  | Finite x, Finite y => x <=? y
  | Finite _, Infinity => true
  | Infinity, Finite _ => false
  | Infinity, Infinity => true
  end.

(** [a > b] *)
Definition jsgt (a b : jsnum) : bool :=
  match a, b with
  | Finite x, Finite y => y <? x
  | Finite _, Infinity => false
  | Infinity, Finite _ => true
  | Infinity, Infinity => false
  end.

(** [i++]: the double nearest to [i + 1]. *)
Definition jsincr (i : jsnum) : jsnum :=
  match i with
  | Finite z => roundToDouble (z + 1)
  | Infinity => Infinity
  end.

(** [arr.includes(n)] *)
Definition includesNum (arr : list jsnum) (n : jsnum) : bool :=
  bool_decide (n ∈ arr).

(** [arr.sort(cmp)] is a stable sort; [gt a b] tells that [cmp(a, b) > 0]. *)
Fixpoint insertBy {A} (gt : A -> A -> bool) (x : A) (l : list A) : list A :=
  match l with
  | [] => [x]
  | y :: l' => if gt y x then x :: l else y :: insertBy gt x l'
  end.

Definition stableSort {A} (gt : A -> A -> bool) (l : list A) : list A :=
  fold_right (insertBy gt) [] (rev l).

(** [arr.sort((a, b) => a - b)] *)
Definition sortAscending (l : list jsnum) : list jsnum := stableSort jsgt l.

(** ** parseNumericSelection *)

Record SelectionResult : Type := mkSelectionResult {
  selectedIndices : list jsnum;
  invalidIndices : list jsnum;
  hasInput : bool
}.

Definition selectionKeywords : list jsstring :=
  map lit ["select"; "choose"; "pick"; "use"; "want"; "need"; "editor"; "editors"]%string.

(** Canonicalisation of the [i] flag on the ASCII letters of the keywords:
    without the [u] flag no code unit above 127 folds onto an ASCII letter. *)
Definition asciiLower (c : N) : N :=
  if ((65 <=? c) && (c <=? 90))%N then (c + 32)%N else c.

Fixpoint startsWithIgnoreCase (p text : jsstring) : bool :=
  match p, text with
  | [], _ => true
  | _ :: _, [] => false
  | a :: p', b :: text' => (a =? asciiLower b)%N && startsWithIgnoreCase p' text'
  end.

(** The alternation tries its branches in order; the result is the length
    of the first one that matches at the head of [text]. *)
Fixpoint matchAlternation (alts : list jsstring) (text : jsstring) : option nat :=
  match alts with
  | [] => None
  | k :: alts' =>
      if startsWithIgnoreCase k text then Some (length k)
      else matchAlternation alts' text
  end.

(** [input.replace(/(?:select|...|editors)/gi, '')]; [skip] counts the code
    units of the current match still to be dropped. *)
Fixpoint removeKeywordsFrom (skip : nat) (text : jsstring) : jsstring :=
  match text with
  | [] => []
  | c :: text' =>
      match skip with
      | S k => removeKeywordsFrom k text'
      | O =>
          match matchAlternation selectionKeywords text with
          | Some (S k) => removeKeywordsFrom k text'
          | _ => c :: removeKeywordsFrom O text'
          end
      end
  end.

Definition removeKeywords (input : jsstring) : jsstring :=
  removeKeywordsFrom O input.

(** [[,;\s]] *)
Definition isSeparator (c : N) : bool :=
  ((c =? 44) || (c =? 59))%N || isWhiteSpace c.

(** [text.split(/[,;\s]+/)]; [cur] is the current piece, reversed, and
    [inSep] tells that the previous code unit was a separator. *)
Fixpoint splitFrom (inSep : bool) (cur : jsstring) (text : jsstring) : list jsstring :=
  match text with
  | [] => [rev cur]
  | c :: text' =>
      if isSeparator c then
        if inSep then splitFrom true cur text'
        else rev cur :: splitFrom true [] text'
      else splitFrom false (c :: cur) text'
  end.

Definition splitSeparators (text : jsstring) : list jsstring :=
  splitFrom false [] text.

(** [s.match(/^(\d+)\s*-\s*(\d+)$/)]: the two captures. *)
Definition rangeMatch (s : jsstring) : option (jsstring * jsstring) :=
  let d1 := takeWhile isDigit s in
  match d1, dropWhile isWhiteSpace (dropWhile isDigit s) with
  | _ :: _, c :: r2 =>
      if (c =? 45)%N then
        let r3 := dropWhile isWhiteSpace r2 in
        let d2 := takeWhile isDigit r3 in
        match d2, dropWhile isDigit r3 with
        | _ :: _, [] => Some (d1, d2)
        | _, _ => None
        end
      else None
  | _, _ => None
  end.

(** [s.match(/^(\d+)$/)]: the capture. *)
Definition numberMatch (s : jsstring) : option jsstring :=
  match s, dropWhile isDigit s with
  | _ :: _, [] => Some s
  | _, _ => None
  end.

(** The body shared by the range loop and the single-number branch: push
    [i] onto the list it belongs to unless it is there already. *)
Definition classify (i : jsnum) (acc : list jsnum * list jsnum)
  : list jsnum * list jsnum :=
  let '(sel, inv) := acc in
  if jsle (Finite 1) i && jsle i (Finite 5) then
    if includesNum sel i then acc else (sel ++ [i], inv)
  else
    if includesNum inv i then acc else (sel, inv ++ [i]).

(** [for (let i = start; i <= end; i++) { ... }].  The loop need not end, so
    it runs on [fuel]; [None] is a loop that has not ended within it. *)
Fixpoint rangeLoop (fuel : nat) (i e : jsnum) (acc : list jsnum * list jsnum)
  : option (list jsnum * list jsnum) :=
  if jsle i e then
    match fuel with
    | O => None
    | S fuel' => rangeLoop fuel' (jsincr i) e (classify i acc)
    end
  else Some acc.

Definition processPart (fuel : nat) (part : jsstring) (acc : list jsnum * list jsnum)
  : option (list jsnum * list jsnum) :=
  let trimmedPart := trim part in
  if negb (truthy trimmedPart) then Some acc
  else
    match rangeMatch trimmedPart with
    | Some (d1, d2) =>
        let start := parseInt d1 in
        let end_ := parseInt d2 in
        if jsgt start end_ then Some acc
        else rangeLoop fuel start end_ acc
    | None =>
        match numberMatch trimmedPart with
        | Some d => Some (classify (parseInt d) acc)
        | None => Some acc
        end
    end.

Fixpoint processParts (fuel : nat) (parts : list jsstring) (acc : list jsnum * list jsnum)
  : option (list jsnum * list jsnum) :=
  match parts with
  | [] => Some acc
  | part :: parts' =>
      match processPart fuel part acc with
      | Some acc' => processParts fuel parts' acc'
      | None => None
      end
  end.

Definition cleanInput (input : jsstring) : jsstring := trim (removeKeywords input).

Definition selectionParts (cleanedInput : jsstring) : list jsstring :=
  List.filter (fun part => (0 <? length (trim part))%nat) (splitSeparators cleanedInput).

Definition parseNumericSelection (fuel : nat) (input : jsstring) : option SelectionResult :=
  let cleanedInput := cleanInput input in
  if negb (existsb isDigit cleanedInput) then
    Some (mkSelectionResult [] [] (0 <? length cleanedInput)%nat)
  else
    match processParts fuel (selectionParts cleanedInput) ([], []) with
    | Some (sel, inv) =>
        Some (mkSelectionResult (sortAscending sel) (sortAscending inv) true)
    | None => None
    end.

(** ** Template literals *)

(** [`${n}`] for an integer that a double holds exactly. *)
Definition decimalString (z : Z) : jsstring :=
  lit (NilZero.string_of_int (Z.to_int z)).

(** [`${x}`] for a string-valued property. *)
Definition interpolate (x : jsopt jsstring) : jsstring :=
  match x with
  | Undefined => lit "undefined"
  | Null => lit "null"
  | Val s => s
  end.

(** ** Data model *)

Inductive EditWorkflowStep : Type :=
| idle
| awaiting_editors
| awaiting_content
| processing
| awaiting_approval.

Global Instance EditWorkflowStep_eq_dec : EqDecision EditWorkflowStep.
Proof. solve_decision. Defined.

(** A [File] of the browser: its name, and a handle that stands for its
    contents (read only through [extractFileText]). *)
Record File : Type := mkFile {
  file_name : jsstring;
  file_handle : N
}.

Record EditorialFeedbackItem : Type := mkFeedback {
  issue : jsopt jsstring;
  fix_ : jsopt jsstring;
  fb_approved : jsopt bool;
  priority : jsopt jsstring;
  rule : jsopt jsstring;
  impact : jsopt jsstring
}.

(** An [editorial_feedback] object: its keys in insertion order, each with
    its array of feedback items. *)
Definition EditorialFeedback := list (jsstring * list EditorialFeedbackItem).

(** [approved] is [true], [false] or [null] ([None]); [autoApproved] is a
    boolean or absent/[null] ([None]). *)
Record ParagraphEdit : Type := mkParagraphEdit {
  index : Z;
  original : jsstring;
  edited : jsstring;
  tags : list jsstring;
  autoApproved : option bool;
  approved : option bool;
  editorial_feedback : option EditorialFeedback;
  displayOriginal : option jsstring;
  displayEdited : option jsstring
}.

Record EditWorkflowState : Type := mkState {
  step : EditWorkflowStep;
  uploadedFile : option File;
  selectedEditors : list jsstring;
  originalContent : jsstring;
  paragraphEdits : list ParagraphEdit
}.

Record EditorOption : Type := mkEditorOption {
  opt_id : jsstring;
  opt_name : jsstring;
  icon : jsstring;
  description : jsstring;
  selected : bool;
  disabled : option bool;
  alwaysSelected : option bool
}.

Inductive EditorStatus : Type :=
| st_pending
| st_processing
| st_completed
| st_error.

Global Instance EditorStatus_eq_dec : EqDecision EditorStatus.
Proof. solve_decision. Defined.

Record EditorProgressEntry : Type := mkProgressEntry {
  editorId : jsstring;
  editorName : jsstring;
  status : EditorStatus;
  entry_current : Z;
  entry_total : Z
}.

Record EditorProgress : Type := mkEditorProgress {
  current : Z;
  total : Z;
  currentEditor : jsstring
}.

(** The private fields of the sequential workflow; messages carry a copy. *)
Record SequentialInfo : Type := mkSequential {
  threadId : option jsstring;
  seq_currentEditor : option jsstring;
  isSequentialMode : bool;
  isLastEditor : bool;
  currentEditorIndex : Z;
  totalEditors : Z
}.

Record EditWorkflowMetadata : Type := mkMetadata {
  meta_step : EditWorkflowStep;
  showEditorSelection : option bool;
  showFileUpload : option bool;
  showCancelButton : option bool;
  showSimpleCancelButton : option bool;
  meta_editorOptions : option (list EditorOption);
  meta_paragraphEdits : option (list ParagraphEdit);
  meta_sequential : option SequentialInfo;
  editorProgress : option EditorProgress;
  meta_editorProgressList : option (list EditorProgressEntry)
}.

Record ThoughtLeadership : Type := mkThoughtLeadership {
  topic : jsstring;
  fullContent : jsstring;
  showActions : bool
}.

(** A chat message of the assistant ([role: 'assistant'] throughout). *)
Record Message : Type := mkMessage {
  content : jsstring;
  isHtml : option bool;
  editWorkflow : option EditWorkflowMetadata;
  thoughtLeadership : option ThoughtLeadership
}.

Inductive MessageType : Type :=
| msg_prompt
| msg_result
| msg_update.

Record EditWorkflowMessage : Type := mkWorkflowMessage {
  msg_type : MessageType;
  message : Message
}.

(** ** What arrives from the backend *)

(** An entry of a [paragraph_edits] array, as parsed from JSON. *)
Record RawFeedback : Type := mkRawFeedback {
  raw_development : jsopt (list EditorialFeedbackItem);
  raw_content : jsopt (list EditorialFeedbackItem);
  raw_copy : jsopt (list EditorialFeedbackItem);
  raw_line : jsopt (list EditorialFeedbackItem);
  raw_brand : jsopt (list EditorialFeedbackItem)
}.

Record RawEdit : Type := mkRawEdit {
  raw_index : jsopt Z;
  raw_original : jsopt jsstring;
  raw_edited : jsopt jsstring;
  raw_tags : jsopt (list jsstring);
  raw_autoApproved : jsopt bool;
  raw_approved : jsopt bool;
  raw_editorial_feedback : jsopt RawFeedback
}.

Inductive EventType : Type :=
| editor_progress
| editor_content
| editor_complete
| editor_error
| final_complete
| content_event
| all_complete
| error_event
| other_event.

Record EventData : Type := mkEventData {
  ev_type : EventType;
  ev_current : jsopt Z;
  ev_total : jsopt Z;
  ev_editor : jsopt jsstring;
  ev_content : jsopt jsstring;
  ev_thread_id : jsopt jsstring;
  ev_current_editor : jsopt jsstring;
  ev_editor_index : jsopt Z;
  ev_total_editors : jsopt Z;
  ev_revised_content : jsopt jsstring;
  ev_final_revised : jsopt jsstring;
  ev_original_content : jsopt jsstring;
  ev_paragraph_edits : jsopt (list RawEdit);
  ev_error : jsopt jsstring;
  ev_combined_feedback : jsopt jsstring
}.

(** An item of the edit stream: an object, or a bare string. *)
Inductive StreamItem : Type :=
| ObjectItem (data : EventData)
| StringItem (s : jsstring).

(** The reply of the intent detection endpoint, or its failure. *)
Record IntentResult : Type := mkIntentResult {
  is_edit_intent : bool;
  confidence_at_least_0_7 : bool;
  detected_editors : jsopt (list jsstring)
}.

(** The outcome of [fetch('/api/v1/tl/edit-content/final')]. *)
Inductive FinalReply : Type :=
| FinalNetworkError (msg : jsstring)
| FinalHttpError (status : Z) (text : jsstring)
| FinalJson (final_article : jsopt jsstring).

(** The outcome of [fetch('.../edit-content/next')]: the events parsed
    from the [data:] lines of the body, in order; [next_failure] is the
    error that ends the reading, if one does. *)
Inductive NextReply : Type :=
| NextNetworkError (msg : jsstring)
| NextHttpError (status : Z) (text : jsstring)
| NextNoBody
| NextStream (events : list EventData) (next_failure : option jsstring).

(** ** Collaborators outside the file

    The utilities imported from [utils/edit-content.utils] and
    [utils/paragraph-edit.utils], and two library functions whose tables
    are the platform's. *)
Class External : Type := mkExternal {
  getEditorDisplayName : jsopt jsstring -> jsstring;
  normalizeEditorOrder : list jsstring -> list jsstring;
  normalizeContent : jsstring -> jsstring;
  extractDocumentTitle : jsstring -> option jsstring -> jsstring;
  formatMarkdown : jsstring -> jsstring;
  convertMarkdownToHtml : jsstring -> jsstring;
  (** [None]: the promise is rejected *)
  extractFileText : File -> option jsstring;
  splitIntoParagraphs : jsstring -> list jsstring;
  createParagraphEditsFromComparison :
    jsstring -> jsstring -> list jsstring -> list ParagraphEdit;
  allParagraphsDecided : list ParagraphEdit -> bool;
  validateStringEquality : jsstring -> jsstring -> bool;
  (** [String.prototype.toLowerCase] *)
  toLowerCase : jsstring -> jsstring;
  (** [Number.prototype.toString] on the doubles from 2^53 on *)
  bigNumberToString : Z -> jsstring
}.

(** ** The service as a state-and-trace monad *)

Record Service : Type := mkService {
  state : EditWorkflowState;
  sequential : SequentialInfo;
  isGeneratingFinal : bool
}.

Record NextRequest : Type := mkNextRequest {
  req_thread_id : jsstring;
  req_paragraph_edits : list ParagraphEdit;
  req_decisions : list (Z * bool)
}.

Record FinalRequest : Type := mkFinalRequest {
  req_original_content : jsstring;
  req_edits : list (Z * jsstring * jsstring * list jsstring);
  req_final_decisions : list (Z * bool)
}.

(** What the service does to the outside: [next] on its subjects, and the
    requests it sends to the backend. *)
Inductive Effect : Type :=
| MessageNext (m : EditWorkflowMessage)
| WorkflowStartedNext
| WorkflowCompletedNext
| IsGeneratingFinalNext (b : bool)
| DetectEditIntent (input : jsstring)
| StreamEditContent (text : jsstring) (editorIds : list jsstring)
| FetchNext (req : NextRequest)
| FetchFinal (req : FinalRequest).

Definition isBackendRequest (e : Effect) : bool :=
  match e with
  | DetectEditIntent _ | StreamEditContent _ _ | FetchNext _ | FetchFinal _ => true
  | _ => false
  end.

Definition M (A : Type) : Type := Service -> A * Service * list Effect.

Global Instance M_ret : MRet M := fun A (a : A) svc => (a, svc, []).

Global Instance M_bind : MBind M := fun A B (k : A -> M B) (c : M A) svc =>
  let '(a, svc1, t1) := c svc in
  let '(b, svc2, t2) := k a svc1 in
  (b, svc2, t1 ++ t2).

(** The service after [c], and what [c] did. *)
Definition exec {A} (c : M A) (svc : Service) : Service := (c svc).1.2.
Definition trace {A} (c : M A) (svc : Service) : list Effect := (c svc).2.
Definition value {A} (c : M A) (svc : Service) : A := (c svc).1.1.

(** [this.currentState] *)
Definition currentState : M EditWorkflowState := fun svc => (state svc, svc, []).

(** [this.updateState(newState)] *)
Definition updateState (newState : EditWorkflowState) : M unit :=
  fun svc => (tt, mkService newState (sequential svc) (isGeneratingFinal svc), []).

Definition getSequential : M SequentialInfo := fun svc => (sequential svc, svc, []).

Definition setSequential (q : SequentialInfo) : M unit :=
  fun svc => (tt, mkService (state svc) q (isGeneratingFinal svc), []).

Definition emit (e : Effect) : M unit := fun svc => (tt, svc, [e]).

(** [this.messageSubject.next({ type, message })] *)
Definition messageNext (t : MessageType) (m : Message) : M unit :=
  emit (MessageNext (mkWorkflowMessage t m)).

(** [this.isGeneratingFinalSubject.next(b)] *)
Definition isGeneratingFinalNext (b : bool) : M unit :=
  fun svc => (tt, mkService (state svc) (sequential svc) b, [IsGeneratingFinalNext b]).

(** [{ ...s, field: v }] *)
Definition withStep (v : EditWorkflowStep) (s : EditWorkflowState) : EditWorkflowState :=
  mkState v (uploadedFile s) (selectedEditors s) (originalContent s) (paragraphEdits s).
Definition withUploadedFile (v : option File) (s : EditWorkflowState) : EditWorkflowState :=
  mkState (step s) v (selectedEditors s) (originalContent s) (paragraphEdits s).
Definition withSelectedEditors (v : list jsstring) (s : EditWorkflowState) : EditWorkflowState :=
  mkState (step s) (uploadedFile s) v (originalContent s) (paragraphEdits s).
Definition withOriginalContent (v : jsstring) (s : EditWorkflowState) : EditWorkflowState :=
  mkState (step s) (uploadedFile s) (selectedEditors s) v (paragraphEdits s).
Definition withParagraphEdits (v : list ParagraphEdit) (s : EditWorkflowState) : EditWorkflowState :=
  mkState (step s) (uploadedFile s) (selectedEditors s) (originalContent s) v.

(** [{ ...p, approved: v }] *)
Definition withApproved (v : option bool) (p : ParagraphEdit) : ParagraphEdit :=
  mkParagraphEdit (index p) (original p) (edited p) (tags p) (autoApproved p) v
    (editorial_feedback p) (displayOriginal p) (displayEdited p).

(** ** Constants of the service *)

Definition brand_alignment : jsstring := lit "brand-alignment".

Definition getDefaultState : EditWorkflowState :=
  mkState idle None [brand_alignment] [] [].

Definition initialSequential : SequentialInfo :=
  mkSequential None None false false 0 0.

Definition initialService : Service :=
  mkService getDefaultState initialSequential false.

Definition editorOptions : list EditorOption :=
  [ mkEditorOption (lit "development") (lit "Development Editor") (lit "🚀")
      (lit "Reviews and restructures content for alignment and coherence")
      false None None;
    mkEditorOption (lit "content") (lit "Content Editor") (lit "📄")
      (lit "Refines language to align with the author's objectives")
      false None None;
    mkEditorOption (lit "line") (lit "Line Editor") (lit "📝")
      (lit "Improves sentence flow, readability and style preserving voice")
      false None None;
    mkEditorOption (lit "copy") (lit "Copy Editor") (lit "✏️")
      (lit "Corrects grammar, punctuation and typos")
      false None None;
    mkEditorOption brand_alignment (lit "PwC Brand Alignment Editor") (lit "🎯")
      (lit "Aligns content writing standards with PwC brand")
      true None None ].

(** [ids.includes(x)] on arrays of strings *)
Definition includesStr (ids : list jsstring) (x : jsstring) : bool :=
  bool_decide (x ∈ ids).

(** [const xs = [...ids]; if (!xs.includes('brand-alignment'))
    xs.push('brand-alignment')] *)
Definition ensureBrandAlignment (ids : list jsstring) : list jsstring :=
  if includesStr ids brand_alignment then ids else ids ++ [brand_alignment].

(** Metadata with only [step] set. *)
Definition metadataAt (s : EditWorkflowStep) : EditWorkflowMetadata :=
  mkMetadata s None None None None None None None None None.

Definition plainMessage (text : jsstring) : Message :=
  mkMessage text None None None.

Definition setSelected (b : bool) (e : EditorOption) : EditorOption :=
  mkEditorOption (opt_id e) (opt_name e) (icon e) (description e) b
    (disabled e) (alwaysSelected e).

Definition cloneEditorOptions : list EditorOption := editorOptions.

Definition createEditorSelectionMessage (text : jsstring)
    (options : option (list EditorOption)) : Message :=
  let editors := default cloneEditorOptions options in
  let defaultSelectedIds := [brand_alignment] in
  let editorsWithSelection :=
    map (fun editor =>
           mkEditorOption (opt_id editor) (opt_name editor) (icon editor)
             (description editor)
             (includesStr defaultSelectedIds (opt_id editor))
             (Some (jsstring_eqb (opt_id editor) brand_alignment))
             (Some (jsstring_eqb (opt_id editor) brand_alignment)))
        editors in
  mkMessage text None
    (Some (mkMetadata awaiting_editors (Some true) None (Some false) (Some false)
             (Some editorsWithSelection) None None None None))
    None.

Definition getEditorNamesFromIds (editorIds : list jsstring) : list jsstring :=
  List.filter truthy
    (omap (fun i => opt_name <$> List.find (fun e => jsstring_eqb (opt_id e) i) editorOptions)
          editorIds).

Definition getSelectedEditorNames (editorIds : list jsstring) : jsstring :=
  let names := getEditorNamesFromIds editorIds in
  match names with
  | [] => []
  | [n] => n
  | [_; _] => join (lit " and ") names
  | _ => join (lit ", ") (removelast names) ++ lit ", and " ++ List.last names []
  end.

Definition getNumberedEditorList : M jsstring :=
  s ← currentState;
  let currentSelectedIds := selectedEditors s in
  mret (join nl
    (imap (fun i editor =>
             let num := Z.of_nat i + 1 in
             let isSelected := includesStr currentSelectedIds (opt_id editor) in
             decimalString num ++ lit ". **" ++ opt_name editor ++ lit "** — "
               ++ description editor ++ (if isSelected then lit " ✓" else []))
          editorOptions)).

(** ** Starting the workflow *)

Definition beginWorkflow : M unit :=
  let defaultState := getDefaultState in
  updateState (withStep awaiting_editors defaultState);;
  emit WorkflowStartedNext;;
  messageNext msg_prompt
    (createEditorSelectionMessage
       (lit "I'll help you edit your content! 📝" ++ nl ++ nl
          ++ lit "**Select the editing services you'd like to use:**")
       None).

Definition uploadRequestMessage (editorNamesText : jsstring) : Message :=
  mkMessage
    (lit "✅ **Using " ++ editorNamesText ++ lit " to edit your content**"
       ++ nl ++ nl ++ lit "**Now, please upload your document:**")
    None
    (Some (mkMetadata awaiting_content None (Some true) (Some false) (Some true)
             None None None None None))
    None.

Definition beginWorkflowWithEditors (editorIds : list jsstring) : M unit :=
  match editorIds with
  | [] => beginWorkflow
  | _ =>
      let validEditorIds := map opt_id editorOptions in
      let validatedEditors := List.filter (includesStr validEditorIds) editorIds in
      match validatedEditors with
      | [] => beginWorkflow
      | _ =>
          let editorsWithBrand := ensureBrandAlignment validatedEditors in
          let defaultState := getDefaultState in
          updateState (withSelectedEditors editorsWithBrand
                         (withStep awaiting_content defaultState));;
          emit WorkflowStartedNext;;
          let editorNamesText := getSelectedEditorNames validatedEditors in
          messageNext msg_prompt (uploadRequestMessage editorNamesText)
      end
  end.

Section Workflow.
Context `{External}.

(** [`${n}`] for a number of the selection parser. *)
Definition numberToString (n : jsnum) : jsstring :=
  match n with
  | Infinity => lit "Infinity"
  | Finite z => if z <? 2 ^ 53 then decimalString z else bigNumberToString z
  end.

(** ** Selecting editors *)

Definition showInvalidSelectionError : M unit :=
  editorList ← getNumberedEditorList;
  messageNext msg_prompt
    (createEditorSelectionMessage
       (lit "⚠️ **Please provide valid editor numbers (1-5).**" ++ nl ++ nl
          ++ lit "**Editor List:**" ++ nl ++ nl ++ editorList ++ nl ++ nl
          ++ lit "Or type " ++ dquote ++ lit "proceed" ++ dquote
          ++ lit " to continue with defaults.")
       None).

(** [this.editorOptions.findIndex(opt => opt.id === i) + 1] *)
Definition editorNumber (i : jsstring) : Z :=
  match list_find (fun opt => opt_id opt = i) editorOptions with
  | Some (k, _) => Z.of_nat k + 1
  | None => 0
  end.

Definition handleNumericSelection (r : SelectionResult) : M unit :=
  match invalidIndices r with
  | _ :: _ =>
      editorList ← getNumberedEditorList;
      messageNext msg_prompt
        (createEditorSelectionMessage
           (lit "⚠️ **Invalid editor number(s):** "
              ++ join (lit ", ") (map numberToString (invalidIndices r))
              ++ nl ++ nl ++ lit "**Valid editor numbers are 1-5.**" ++ nl ++ nl
              ++ lit "**Editor List:**" ++ nl ++ nl ++ editorList ++ nl ++ nl
              ++ lit "Please provide valid editor numbers (1-5) or type "
              ++ dquote ++ lit "proceed" ++ dquote
              ++ lit " to continue with defaults.")
           None)
  | [] =>
      match selectedIndices r with
      | [] => if hasInput r then showInvalidSelectionError else mret tt
      | _ :: _ =>
          let updatedEditors :=
            imap (fun i editor =>
                    let editorNum := Z.of_nat i + 1 in
                    setSelected (includesNum (selectedIndices r) (Finite editorNum)) editor)
                 editorOptions in
          let selectedIds :=
            ensureBrandAlignment (map opt_id (List.filter selected updatedEditors)) in
          s ← currentState;
          updateState (withSelectedEditors selectedIds s);;
          let selectedNames :=
            join (lit ", ")
              (map (fun e => decimalString (editorNumber (opt_id e)) ++ lit ". " ++ opt_name e)
                   (List.filter selected updatedEditors)) in
          messageNext msg_prompt
            (createEditorSelectionMessage
               (lit "✅ **Selected editors:** " ++ selectedNames ++ nl ++ nl
                  ++ lit "Type " ++ dquote ++ lit "proceed" ++ dquote
                  ++ lit " to continue or select different editors.")
               (Some updatedEditors))
      end
  end.

(** [result.optedOut.map(num => `${num}. ${this.editorOptions[num - 1].name}`)];
    [None] when some number has no editor, where the source throws a
    [TypeError]. *)
Fixpoint optedOutNames (optedOut : list Z) : option (list jsstring) :=
  match optedOut with
  | [] => Some []
  | num :: rest =>
      match (if 1 <=? num then editorOptions !! Z.to_nat (num - 1) else None) with
      | Some editor =>
          match optedOutNames rest with
          | Some names => Some ((decimalString num ++ lit ". " ++ opt_name editor) :: names)
          | None => None
          end
      | None => None
      end
  end.

(** The result of [parseOptOutInput]: the editor numbers opted out and the
    sections named. *)
Definition handleOptOutAndProceed (optedOut : list Z) (sections : list jsstring) : M unit :=
  let currentEditors := editorOptions in
  let selectedEditorOptions :=
    imap (fun i editor =>
            let editorNum := Z.of_nat i + 1 in
            if jsstring_eqb (opt_id editor) brand_alignment then setSelected true editor
            else setSelected (negb (bool_decide (editorNum ∈ optedOut))) editor)
         currentEditors in
  let selectedIds :=
    ensureBrandAlignment (map opt_id (List.filter selected selectedEditorOptions)) in
  s ← currentState;
  updateState (withSelectedEditors selectedIds s);;
  match optedOutNames optedOut with
  | None => mret tt
  | Some names =>
      let optedOutText :=
        match optedOut with
        | [] => []
        | _ => lit "✅ **Opted out:** " ++ join (lit ", ") names ++ nl ++ nl
        end in
      let sectionText :=
        match sections with
        | [] => []
        | _ => lit "📄 **Sections to edit:** " ++ join (lit ", ") sections ++ nl ++ nl
        end in
      let responseMessage := optedOutText ++ sectionText in
      let remainingEditors := List.filter selected selectedEditorOptions in
      match remainingEditors with
      | [] =>
          messageNext msg_prompt
            (createEditorSelectionMessage
               (responseMessage
                  ++ lit "⚠️ **No editors selected.** Please keep at least one editor active.")
               (Some selectedEditorOptions))
      | _ =>
          messageNext msg_prompt
            (createEditorSelectionMessage
               (responseMessage
                  ++ lit "**Selected " ++ decimalString (Z.of_nat (length remainingEditors))
                  ++ lit " editor"
                  ++ (if (1 <? length remainingEditors)%nat then lit "s" else [])
                  ++ lit ":** " ++ join (lit ", ") (map opt_name remainingEditors)
                  ++ nl ++ nl
                  ++ lit "When you're ready, click " ++ dquote ++ lit "Continue" ++ dquote
                  ++ lit " or type " ++ dquote ++ lit "proceed" ++ dquote
                  ++ lit " to move to the next step.")
               (Some selectedEditorOptions))
      end
  end.

Definition createNoEditorsErrorMessage (options : option (list EditorOption)) : M unit :=
  messageNext msg_prompt
    (createEditorSelectionMessage
       (lit "⚠️ **Please select at least one editing service** before proceeding.")
       options).

Definition proceedToContentStep : M unit :=
  s ← currentState;
  let selectedIds := ensureBrandAlignment (selectedEditors s) in
  match selectedIds with
  | [] => createNoEditorsErrorMessage None
  | _ =>
      s1 ← currentState;
      updateState (withSelectedEditors selectedIds s1);;
      s2 ← currentState;
      updateState (withStep awaiting_content s2);;
      let editorNamesText := getSelectedEditorNames selectedIds in
      messageNext msg_prompt (uploadRequestMessage editorNamesText)
  end.

(** ** Ending the workflow *)

Definition completeWorkflow : M unit :=
  setSequential (mkSequential None None false false 0 0);;
  updateState getDefaultState;;
  emit WorkflowCompletedNext.

Definition cancelWorkflow : M unit :=
  s ← currentState;
  if decide (step s = idle) then mret tt
  else if decide (step s = processing) then mret tt
  else
    updateState getDefaultState;;
    emit WorkflowCompletedNext;;
    messageNext msg_prompt
      (plainMessage (lit "Edit workflow cancelled. How else can I help you?")).

(** ** The stream reducer *)

(** The variables that the subscription of [processContent] closes over. *)
Record Session : Type := mkSession {
  selectedIds : list jsstring;
  selectedNames : jsstring;
  fullResponse : jsstring;
  combinedFeedback : jsstring;
  finalRevisedContent : jsstring;
  currentEditorProgress : option EditorProgress;
  editorErrors : list (jsstring * jsstring);
  editorProgressList : list EditorProgressEntry
}.

Definition withStatus (st : EditorStatus) (e : EditorProgressEntry) : EditorProgressEntry :=
  mkProgressEntry (editorId e) (editorName e) st (entry_current e) (entry_total e).

(** [const e = list.find(p); if (e) e.status = st] *)
Fixpoint setStatusOfFirst (p : EditorProgressEntry -> bool) (st : EditorStatus)
    (l : list EditorProgressEntry) : list EditorProgressEntry :=
  match l with
  | [] => []
  | e :: l' => if p e then withStatus st e :: l' else e :: setStatusOfFirst p st l'
  end.

(** [s === x] for a string [s] and a property [x] *)
Definition strictEq (s : jsstring) (x : jsopt jsstring) : bool :=
  match x with Val t => jsstring_eqb s t | _ => false end.

(** [x && x.trim()], as a string that is empty when the value is falsy *)
Definition trimmedOrEmpty (x : jsopt jsstring) : jsstring :=
  match x with Val s => trim s | _ => [] end.

(** [\s*\(] at the head of [rest] *)
Definition opensParenthesis (rest : jsstring) : bool :=
  match dropWhile isWhiteSpace rest with
  | c :: _ => (c =? 40)%N
  | [] => false
  end.

(** The capture of [/^(.+?)\s*\(/]: the shortest non-empty prefix without
    line terminators that [\s*\(] follows; [pre] is the prefix read so far,
    reversed. *)
Fixpoint lazyPrefix (pre : jsstring) (rest : jsstring) : option jsstring :=
  match rest with
  | [] => None
  | c :: rest' =>
      if isLineTerminator c then None
      else if opensParenthesis rest' then Some (rev (c :: pre))
      else lazyPrefix (c :: pre) rest'
  end.

Definition tagEditorName (tag : jsstring) : jsstring :=
  match lazyPrefix [] tag with
  | Some m => trim m
  | None => tag
  end.

(** [Array.from(new Set(xs))]: first occurrences, in order *)
Definition setOf (xs : list jsstring) : list jsstring :=
  fold_left (fun acc x => if includesStr acc x then acc else acc ++ [x]) xs [].

Definition mergeTags (allEditorNames : list jsstring) (existingTags : list jsstring)
  : list jsstring :=
  let existingEditorNames := setOf (map tagEditorName existingTags) in
  let covered editorName :=
    existsb (fun existing =>
               includes (toLowerCase editorName) (toLowerCase existing)
               || includes (toLowerCase existing) (toLowerCase editorName))
            existingEditorNames in
  existingTags
    ++ map (fun editorName => editorName ++ lit " (Reviewed)")
         (List.filter (fun editorName => negb (covered editorName)) allEditorNames).

Definition normalizeFeedback (x : jsopt RawFeedback) : option EditorialFeedback :=
  match x with
  | Val ef =>
      Some [ (lit "development", arrOr (raw_development ef));
             (lit "content", arrOr (raw_content ef));
             (lit "copy", arrOr (raw_copy ef));
             (lit "line", arrOr (raw_line ef));
             (lit "brand", arrOr (raw_brand ef)) ]
  | _ => None
  end.

(** The callback of [data.paragraph_edits.map((edit, arrayIndex) => ...)];
    the source has it three times over, in the [editor_complete] and
    [final_complete] branches of [processContent] and in [nextEditor]. *)
Definition toParagraphEdit (allEditorNames : list jsstring)
    (originalParagraphs : list jsstring) (arrayIndex : nat) (edit : RawEdit)
  : ParagraphEdit :=
  let existingTags := arrOr (raw_tags edit) in
  let allTags := mergeTags allEditorNames existingTags in
  let paragraphIndex :=
    match raw_index edit with Val i => i | _ => Z.of_nat arrayIndex end in
  let originalText :=
    orElse (trimmedOrEmpty (raw_original edit))
      (if (paragraphIndex <? Z.of_nat (length originalParagraphs)) && (0 <=? paragraphIndex)
       then trim (default [] (originalParagraphs !! Z.to_nat paragraphIndex))
       else []) in
  let editedText := trimmedOrEmpty (raw_edited edit) in
  let isIdentical := validateStringEquality originalText editedText in
  let autoApproved_ :=
    match raw_autoApproved edit with
    | Undefined => Some isIdentical
    | Null => None
    | Val b => Some b
    end in
  let approved_ :=
    if default false autoApproved_ then Some true
    else match raw_approved edit with
         | Val b => Some b
         | _ => None
         end in
  mkParagraphEdit paragraphIndex originalText editedText allTags autoApproved_ approved_
    (normalizeFeedback (raw_editorial_feedback edit))
    (Some originalText) (Some editedText).

(** [data.original_content || this.currentState.originalContent || ''] *)
Definition resolveOriginalContent (data : EventData) (s : EditWorkflowState) : jsstring :=
  strOr (ev_original_content data) (originalContent s).

Definition toParagraphEdits (allEditorNames : list jsstring) (data : EventData)
    (s : EditWorkflowState) (edits : list RawEdit) : list ParagraphEdit :=
  let originalContent_ := resolveOriginalContent data s in
  let originalParagraphs :=
    if truthy originalContent_ then splitIntoParagraphs originalContent_ else [] in
  imap (toParagraphEdit allEditorNames originalParagraphs) edits.

Definition editorDisplayNames (ids : list jsstring) : list jsstring :=
  map (fun editorId_ => getEditorDisplayName (Val editorId_)) ids.

Definition approvalMetadata (edits : list ParagraphEdit) (q : SequentialInfo)
  : EditWorkflowMetadata :=
  mkMetadata awaiting_approval None None (Some false) (Some true) None
    (Some edits) (Some q) None None.

Definition paragraphEditsMessage (edits : list ParagraphEdit) (q : SequentialInfo) : Message :=
  mkMessage [] (Some false) (Some (approvalMetadata edits q)) None.

Definition progressMetadata (progress : option EditorProgress)
    (entries : list EditorProgressEntry) : EditWorkflowMetadata :=
  mkMetadata processing None None (Some false) None None None None
    progress (Some entries).

Definition progressMessage (text : jsstring) (progress : option EditorProgress)
    (entries : list EditorProgressEntry) : Message :=
  mkMessage text None (Some (progressMetadata progress entries)) None.

(** The [forEach] of the [editor_progress] branch. *)
Definition markProgress (currentIndex : Z) (totalOr : Z)
    (entries : list EditorProgressEntry) : list EditorProgressEntry :=
  imap (fun i editor =>
          let editorIndex := Z.of_nat i + 1 in
          if editorIndex <? currentIndex then withStatus st_completed editor
          else if editorIndex =? currentIndex then
            mkProgressEntry (editorId editor) (editorName editor) st_processing
              currentIndex totalOr
          else withStatus st_pending editor)
       entries.

(** The sequential fields after an event that names its editor. *)
Definition recordEditor (setsSequentialMode : bool) (data : EventData)
    (q : SequentialInfo) : SequentialInfo :=
  let q1 :=
    match ev_thread_id data with
    | Val t =>
        if truthy t then
          mkSequential (Some t) (seq_currentEditor q)
            (if setsSequentialMode then true else isSequentialMode q)
            (isLastEditor q) (currentEditorIndex q) (totalEditors q)
        else q
    | _ => q
    end in
  match ev_current_editor data with
  | Val e =>
      if truthy e then
        mkSequential (threadId q1) (Some e) (isSequentialMode q1)
          (numOr (ev_total_editors data) 1 - 1 <=? numOr (ev_editor_index data) 0)
          (numOr (ev_editor_index data) 0)
          (numOr (ev_total_editors data) (totalEditors q1))
      else q1
  | _ => q1
  end.

(** [/^```[\w]*\n?/gm] replaced by nothing: [skip] backticks of a match are
    still to be dropped, [inWord] tells that the match is reading [\w*],
    [lineStart] that the position follows a line terminator or is 0. *)
Definition fence : jsstring := lit "```".

Fixpoint stripOpeningFences (skip : nat) (inWord lineStart : bool) (s : jsstring) : jsstring :=
  match s with
  | [] => []
  | c :: s' =>
      match skip with
      | S k => stripOpeningFences k inWord false s'
      | O =>
          if inWord && isWordChar c then stripOpeningFences O true false s'
          else if inWord && (c =? 10)%N then stripOpeningFences O false true s'
          else if lineStart && startsWith fence s then stripOpeningFences 2 true false s'
          else c :: stripOpeningFences O false (isLineTerminator c) s'
      end
  end.

Definition atLineEnd (s : jsstring) : bool :=
  match s with
  | [] => true
  | c :: _ => isLineTerminator c
  end.

(** [/\n?```$/gm] replaced by nothing. *)
Fixpoint stripClosingFences (skip : nat) (s : jsstring) : jsstring :=
  match s with
  | [] => []
  | c :: s' =>
      match skip with
      | S k => stripClosingFences k s'
      | O =>
          if (c =? 10)%N && startsWith fence s' && atLineEnd (drop 3 s')
          then stripClosingFences 3 s'
          else if startsWith fence s && atLineEnd (drop 3 s)
          then stripClosingFences 2 s'
          else c :: stripClosingFences O s'
      end
  end.

Definition stripCodeFences (s : jsstring) : jsstring :=
  trim (stripClosingFences O (stripOpeningFences O false true s)).

(** [dispatchResultsToChat('', selectedIds, selectedNames, combinedFeedback,
    finalRevisedContent, paragraphEdits)].  Its one call passes the empty
    string as [rawResponse], on which the FEEDBACK pattern finds nothing, and
    no [extractedTitle]. *)
Definition dispatchResultsToChat (selectedEditorNames : jsstring)
    (combinedFeedback_ : jsstring) (finalRevisedContent_ : jsstring)
    (edits : option (list ParagraphEdit)) : M unit :=
  let revisedContent := trim finalRevisedContent_ in
  s ← currentState;
  q ← getSequential;
  let uploadedFileName := file_name <$> uploadedFile s in
  let documentTitle := extractDocumentTitle (originalContent s) uploadedFileName in
  let cleanTopic := orElse (trim documentTitle) (lit "Revised Article") in
  let cleanFullContent :=
    stripCodeFences (orElse revisedContent (lit "No revised article returned.")) in
  let metadata :=
    mkThoughtLeadership cleanTopic cleanFullContent
      (truthy revisedContent && (0 <? length cleanFullContent)%nat) in
  (if truthy combinedFeedback_ then
     let feedbackPlainText := trim combinedFeedback_ in
     messageNext msg_result
       (mkMessage
          (formatMarkdown (lit "**📝 Editorial Feedback**" ++ nl ++ nl ++ feedbackPlainText))
          (Some true) None
          (Some (mkThoughtLeadership (lit "Editorial Feedback") feedbackPlainText true)))
   else mret tt);;
  match edits with
  | Some (p :: ps) => messageNext msg_result (paragraphEditsMessage (p :: ps) q)
  | None =>
      if truthy revisedContent then
        let headerLines :=
          [lit "### Quick Start Thought Leadership – Edit Content"]
            ++ match uploadedFileName with
               | Some n => if truthy n then [lit "_Source: " ++ n ++ lit "_"] else []
               | None => []
               end
            ++ (if truthy selectedEditorNames
                then [lit "_Editors Applied: " ++ selectedEditorNames ++ lit "_"] else [])
            ++ [[]; lit "**Revised Article**"; []] in
        messageNext msg_result
          (mkMessage
             (convertMarkdownToHtml (join nl headerLines) ++ convertMarkdownToHtml revisedContent)
             (Some true) None (Some metadata))
      else
        messageNext msg_result
          (mkMessage
             (convertMarkdownToHtml
                (lit "### Quick Start Thought Leadership – Edit Content" ++ nl ++ nl
                   ++ lit "**Revised Article**" ++ nl ++ nl
                   ++ lit "_No revised article was returned. Please try again._"))
             (Some true) None (Some metadata))
  | Some [] =>
      messageNext msg_result
        (mkMessage
           (convertMarkdownToHtml
              (lit "### Quick Start Thought Leadership – Edit Content" ++ nl ++ nl
                 ++ lit "**Revised Article**" ++ nl ++ nl
                 ++ lit "_No revised article was returned. Please try again._"))
           (Some true) None (Some metadata))
  end.

Definition withProgress (progress : option EditorProgress)
    (entries : list EditorProgressEntry) (sess : Session) : Session :=
  mkSession (selectedIds sess) (selectedNames sess) (fullResponse sess)
    (combinedFeedback sess) (finalRevisedContent sess) progress
    (editorErrors sess) entries.

Definition withFullResponse (r : jsstring) (sess : Session) : Session :=
  mkSession (selectedIds sess) (selectedNames sess) r
    (combinedFeedback sess) (finalRevisedContent sess) (currentEditorProgress sess)
    (editorErrors sess) (editorProgressList sess).

(** The [next] callback of the subscription, on an object. *)
Definition onEvent (data : EventData) (sess : Session) : M Session :=
  match ev_type data with
  | editor_progress =>
      let progress :=
        mkEditorProgress (numOr (ev_current data) 0) (numOr (ev_total data) 0)
          (strOr (ev_editor data) []) in
      let currentIndex := numOr (ev_current data) 0 in
      let entries :=
        markProgress currentIndex
          (numOr (ev_total data) (Z.of_nat (length (selectedIds sess))))
          (editorProgressList sess) in
      messageNext msg_prompt (progressMessage [] (Some progress) entries);;
      mret (withProgress (Some progress) entries sess)
  | editor_content =>
      mret (withFullResponse (fullResponse sess ++ strOr (ev_content data) []) sess)
  | editor_complete =>
      q ← getSequential;
      setSequential (recordEditor true data q);;
      let entries :=
        setStatusOfFirst
          (fun e => strictEq (editorId e) (ev_current_editor data)
                    || strictEq (editorId e) (ev_editor data))
          st_completed (editorProgressList sess) in
      let response :=
        if truthyOpt (ev_revised_content data) || truthyOpt (ev_final_revised data)
        then strOr (ev_revised_content data) (strOr (ev_final_revised data) [])
        else fullResponse sess in
      match ev_paragraph_edits data with
      | Val edits =>
          s ← currentState;
          let paragraphEdits_ :=
            toParagraphEdits (editorDisplayNames (selectedIds sess)) data s edits in
          let preservedOriginalContent := resolveOriginalContent data s in
          updateState (withOriginalContent preservedOriginalContent
                         (withParagraphEdits paragraphEdits_ s));;
          q' ← getSequential;
          messageNext msg_result (paragraphEditsMessage paragraphEdits_ q')
      | _ => mret tt
      end;;
      (if truthyOpt (ev_original_content data) then
         s ← currentState;
         updateState (withOriginalContent (strOr (ev_original_content data) []) s)
       else mret tt);;
      messageNext msg_prompt (progressMessage [] (currentEditorProgress sess) entries);;
      mret (withFullResponse response (withProgress (currentEditorProgress sess) entries sess))
  | editor_error =>
      let entries :=
        setStatusOfFirst (fun e => strictEq (editorId e) (ev_editor data))
          st_error (editorProgressList sess) in
      let errors :=
        editorErrors sess
          ++ [(strOr (ev_editor data) (lit "Unknown"),
               strOr (ev_error data) (lit "Unknown error"))] in
      let editorName_ := getEditorDisplayName (ev_editor data) in
      messageNext msg_prompt
        (progressMessage
           (lit "⚠️ **" ++ editorName_ ++ lit " encountered an error:** "
              ++ interpolate (ev_error data) ++ nl ++ nl
              ++ lit "Continuing with remaining editors...")
           (currentEditorProgress sess) entries);;
      mret (mkSession (selectedIds sess) (selectedNames sess) (fullResponse sess)
              (combinedFeedback sess) (finalRevisedContent sess)
              (currentEditorProgress sess) errors entries)
  | final_complete =>
      let combined := strOr (ev_combined_feedback data) [] in
      let revised := strOr (ev_final_revised data) [] in
      s ← currentState;
      let paragraphEdits_ :=
        match ev_paragraph_edits data with
        | Val edits => toParagraphEdits (editorDisplayNames (selectedIds sess)) data s edits
        | _ =>
            if truthyOpt (ev_final_revised data) && truthyOpt (ev_original_content data)
            then createParagraphEditsFromComparison
                   (strOr (ev_original_content data) [])
                   (strOr (ev_final_revised data) [])
                   (editorDisplayNames (selectedIds sess))
            else []
        end in
      let preservedOriginalContent := resolveOriginalContent data s in
      updateState (withOriginalContent preservedOriginalContent
                     (withParagraphEdits paragraphEdits_ s));;
      let entries :=
        map (fun editor =>
               if decide (status editor = st_error) then editor
               else withStatus st_completed editor)
            (editorProgressList sess) in
      let done_ :=
        match currentEditorProgress sess with
        | Some p => numOr (Val (total p)) (Z.of_nat (length entries))
        | None => Z.of_nat (length entries)
        end in
      messageNext msg_prompt
        (progressMessage [] (Some (mkEditorProgress done_ done_ (lit "completed"))) entries);;
      let errorSummary :=
        join (nl ++ nl)
          (map (fun e : jsstring * jsstring =>
                  lit "⚠️ " ++ getEditorDisplayName (Val e.1)
                    ++ lit " encountered an error: " ++ e.2
                    ++ lit ". Processing continued with previous editor's output.")
               (editorErrors sess)) in
      let combined' :=
        match editorErrors sess with
        | [] => combined
        | _ => if truthy combined then errorSummary ++ nl ++ nl ++ combined else errorSummary
        end in
      dispatchResultsToChat (selectedNames sess) combined' revised (Some paragraphEdits_);;
      mret (mkSession (selectedIds sess) (selectedNames sess) (fullResponse sess)
              combined' revised (currentEditorProgress sess) (editorErrors sess) entries)
  | content_event =>
      mret (withFullResponse (fullResponse sess ++ strOr (ev_content data) []) sess)
  | all_complete | error_event | other_event => mret sess
  end.

Definition onNext (item : StreamItem) (sess : Session) : M Session :=
  match item with
  | ObjectItem data => onEvent data sess
  | StringItem s => mret (withFullResponse (fullResponse sess ++ s) sess)
  end.

(** The [error] callback of the subscription. *)
Definition onError : M unit :=
  messageNext msg_result
    (plainMessage (lit "Sorry, there was an error editing your content. Please try again."));;
  completeWorkflow.

(** The [complete] callback of the subscription. *)
Definition onComplete : M unit := completeWorkflow.

(** [processContent]: sets up the variables of the closure and subscribes. *)
Definition processContent (contentText : jsstring) (selectedIds_ : list jsstring)
    (selectedNames_ : jsstring) : M Session :=
  let normalizedEditorIds := normalizeEditorOrder selectedIds_ in
  let entries :=
    imap (fun i id_ =>
            mkProgressEntry id_ (getEditorDisplayName (Val id_)) st_pending
              (Z.of_nat i + 1) (Z.of_nat (length normalizedEditorIds)))
         normalizedEditorIds in
  emit (StreamEditContent contentText normalizedEditorIds);;
  mret (mkSession selectedIds_ selectedNames_ [] [] [] None [] entries).

(** ** Uploading and processing *)

(** The [catch] of [processWithContent]. *)
Definition processingFailed : M unit :=
  messageNext msg_result
    (plainMessage (lit "Sorry, there was an error processing your content. Please try again."));;
  completeWorkflow.

(** [processWithContent]; the session is the subscription it leaves behind,
    if it gets that far.  The wait for [extractFileText] is taken in one
    step. *)
Definition processWithContent : M (option Session) :=
  s ← currentState;
  let selectedIds_ := ensureBrandAlignment (selectedEditors s) in
  let selectedNames_ := getSelectedEditorNames selectedIds_ in
  extracted ←
    match uploadedFile s with
    | Some f =>
        if negb (truthy (originalContent s)) then
          match extractFileText f with
          | Some text =>
              let contentText := normalizeContent text in
              s1 ← currentState;
              updateState (withOriginalContent contentText s1);;
              mret (Some contentText)
          | None => mret None
          end
        else mret (Some (originalContent s))
    | None => mret (Some (originalContent s))
    end;
  match extracted with
  | None => processingFailed;; mret None
  | Some contentText =>
      if negb (truthy (trim contentText)) then processingFailed;; mret None
      else
        s2 ← currentState;
        updateState (withStep processing s2);;
        messageNext msg_prompt
          (mkMessage
             (lit "Processing your content with: **" ++ selectedNames_ ++ lit "**"
                ++ nl ++ nl ++ lit "Please wait while I analyze and edit your content...")
             None
             (Some (mkMetadata processing None None (Some false) None None None None None None))
             None);;
        sess ← processContent contentText selectedIds_ selectedNames_;
        mret (Some sess)
  end.

Definition handleFileUpload (file : File) : M (option Session) :=
  s ← currentState;
  if decide (step s = awaiting_content) then
    updateState (withUploadedFile (Some file) s);;
    processWithContent
  else mret None.

Definition handleEditorSelection (ids : list jsstring) : M unit :=
  s ← currentState;
  if decide (step s = awaiting_editors) then
    let editorsWithBrand := ensureBrandAlignment ids in
    match editorsWithBrand with
    | [] => createNoEditorsErrorMessage None
    | _ =>
        updateState (withSelectedEditors editorsWithBrand s);;
        proceedToContentStep
    end
  else mret tt.

(** ** Deciding on paragraphs *)

Definition emitParagraphUpdateMessage : M unit :=
  s ← currentState;
  q ← getSequential;
  messageNext msg_update (paragraphEditsMessage (paragraphEdits s) q).

(** [edits.findIndex(p => p.index === i)]; [None] is -1. *)
Definition findParagraph (i : Z) (edits : list ParagraphEdit) : option nat :=
  fst <$> list_find (fun p => index p = i) edits.

(** [edits.map((p, k) => k === paragraphIndex ? { ...p, approved: v } : p)] *)
Definition decideParagraphAt (paragraphIndex : nat) (v : bool) (edits : list ParagraphEdit)
  : list ParagraphEdit :=
  imap (fun k p => if decide (k = paragraphIndex) then withApproved (Some v) p else p) edits.

Definition decideParagraph (v : bool) (i : Z) : M unit :=
  s ← currentState;
  match findParagraph i (paragraphEdits s) with
  | None => mret tt
  | Some paragraphIndex =>
      let updatedParagraphEdits := decideParagraphAt paragraphIndex v (paragraphEdits s) in
      s1 ← currentState;
      updateState (withParagraphEdits updatedParagraphEdits s1);;
      emitParagraphUpdateMessage
  end.

Definition approveParagraph (i : Z) : M unit := decideParagraph true i.
Definition declineParagraph (i : Z) : M unit := decideParagraph false i.

(** [[...edits].sort((a, b) => a.index - b.index)] *)
Definition sortByIndex (edits : list ParagraphEdit) : list ParagraphEdit :=
  stableSort (fun a b => index b <? index a) edits.

Definition reconstructOriginalContent (edits : list ParagraphEdit) : jsstring :=
  match edits with
  | [] => []
  | _ =>
      join (nl ++ nl)
        (List.filter (fun p => truthy (trim p)) (map original (sortByIndex edits)))
  end.

Definition syncParagraphEditsFromMessage (edits : list ParagraphEdit) : M unit :=
  match edits with
  | [] => mret tt
  | _ =>
      s ← currentState;
      let originalContent_ :=
        if negb (truthy (trim (originalContent s))) then reconstructOriginalContent edits
        else originalContent s in
      updateState (withOriginalContent (orElse originalContent_ (originalContent s))
                     (withParagraphEdits edits s))
  end.

(** [get getParagraphsForReview] *)
Definition getParagraphsForReview : M (list ParagraphEdit) :=
  s ← currentState;
  mret (sortByIndex
          (List.filter (fun p => negb (bool_decide (autoApproved p = Some true)))
             (paragraphEdits s))).

(** ** The next editor of a sequential run *)

(** One event of the reply; [true] when the function returns on it. *)
Definition onNextEditorEvent (data : EventData) : M bool :=
  match ev_type data with
  | all_complete =>
      q ← getSequential;
      setSequential (mkSequential (threadId q) (seq_currentEditor q) (isSequentialMode q)
                       true (totalEditors q) (totalEditors q));;
      s ← currentState;
      q' ← getSequential;
      messageNext msg_update (paragraphEditsMessage (paragraphEdits s) q');;
      mret true
  | editor_complete =>
      q ← getSequential;
      setSequential (recordEditor false data q);;
      s ← currentState;
      let newParagraphEdits :=
        match ev_paragraph_edits data with
        | Val edits => toParagraphEdits (editorDisplayNames (selectedEditors s)) data s edits
        | _ => []
        end in
      (if truthyOpt (ev_original_content data) then
         s1 ← currentState;
         updateState (withOriginalContent (strOr (ev_original_content data) []) s1)
       else mret tt);;
      s2 ← currentState;
      updateState (withParagraphEdits newParagraphEdits s2);;
      q' ← getSequential;
      messageNext msg_result (paragraphEditsMessage newParagraphEdits q');;
      mret false
  | _ => mret false
  end.

Fixpoint onNextEditorEvents (events : list EventData) : M bool :=
  match events with
  | [] => mret false
  | data :: rest =>
      returned ← onNextEditorEvent data;
      if (returned : bool) then mret true else onNextEditorEvents rest
  end.

(** The outer [catch] of [nextEditor]. *)
Definition nextEditorFailed (msg : jsstring) : M unit :=
  messageNext msg_prompt
    (plainMessage (lit "⚠️ **Failed to proceed to next editor.** " ++ msg)).

Definition nextEditor (edits : list ParagraphEdit) (reply : NextReply) : M unit :=
  q ← getSequential;
  match threadId q with
  | None =>
      messageNext msg_prompt
        (plainMessage (lit "⚠️ **No thread ID available.** Cannot proceed to next editor."))
  | Some tid =>
      s ← currentState;
      if negb (allParagraphsDecided (paragraphEdits s)) then
        messageNext msg_prompt
          (plainMessage
             (lit "⚠️ **Please approve or reject all paragraph edits** before proceeding to the next editor."))
      else
        let decisions :=
          map (fun para => (index para, bool_decide (approved para = Some true))) edits in
        emit (FetchNext (mkNextRequest tid edits decisions));;
        match reply with
        | NextNetworkError msg => nextEditorFailed msg
        | NextHttpError status_ text =>
            nextEditorFailed
              (lit "Failed to proceed to next editor: " ++ decimalString status_
                 ++ lit " " ++ text)
        | NextNoBody => nextEditorFailed (lit "No response body reader available")
        | NextStream events failure =>
            returned ← onNextEditorEvents events;
            if (returned : bool) then mret tt
            else match failure with
                 | Some msg => nextEditorFailed msg
                 | None => mret tt
                 end
        end
  end.

(** ** The final article *)

Definition generationFailed (msg : jsstring) : M unit :=
  messageNext msg_prompt
    (plainMessage (lit "⚠️ **Failed to generate final article.** " ++ msg));;
  isGeneratingFinalNext false.

Definition generateFinalArticle (reply : FinalReply) : M unit :=
  s ← currentState;
  if negb (allParagraphsDecided (paragraphEdits s)) then
    messageNext msg_prompt
      (plainMessage
         (lit "⚠️ **Please approve or decline all paragraph edits** before generating the final article."))
  else
    isGeneratingFinalNext true;;
    let decisions :=
      map (fun p => (index p, bool_decide (approved p = Some true))) (paragraphEdits s) in
    let originalContent_ :=
      if negb (truthy (trim (originalContent s)))
      then reconstructOriginalContent (paragraphEdits s)
      else originalContent s in
    if negb (truthy (trim originalContent_)) then
      generationFailed
        (lit "Original content cannot be empty. Unable to reconstruct from paragraph edits.")
    else
      emit (FetchFinal
              (mkFinalRequest originalContent_
                 (map (fun p => (index p, original p, edited p, tags p)) (paragraphEdits s))
                 decisions));;
      match reply with
      | FinalNetworkError msg => generationFailed msg
      | FinalHttpError status_ text =>
          generationFailed
            (lit "Failed to generate final article: " ++ decimalString status_
               ++ lit " " ++ text)
      | FinalJson article =>
          let finalArticle := strOr article [] in
          if negb (truthy finalArticle) then
            generationFailed (lit "No final article returned from server")
          else
            s1 ← currentState;
            let uploadedFileName := file_name <$> uploadedFile s1 in
            let selectedEditorNames := getSelectedEditorNames (selectedEditors s1) in
            let headerLines :=
              [lit "### Quick Start Thought Leadership – Edit Content"]
                ++ match uploadedFileName with
                   | Some n => if truthy n then [lit "_Source: " ++ n ++ lit "_"] else []
                   | None => []
                   end
                ++ (if truthy selectedEditorNames
                    then [lit "_Editors Applied: " ++ selectedEditorNames ++ lit "_"] else [])
                ++ [[]] in
            let headerHtml := convertMarkdownToHtml (join nl headerLines) in
            let finalHtml := convertMarkdownToHtml finalArticle in
            let finalArticleHtml :=
              headerHtml ++ lit "<div class=" ++ dquote ++ lit "result-section" ++ dquote
                ++ lit "><h4 class=" ++ dquote ++ lit "result-title" ++ dquote
                ++ lit ">Final Revised Article</h4><div class=" ++ dquote
                ++ lit "assistant-message revised-content-formatted" ++ dquote ++ lit ">"
                ++ finalHtml ++ lit "</div></div>" in
            messageNext msg_result
              (mkMessage finalArticleHtml (Some true) None
                 (Some (mkThoughtLeadership (lit "Final Revised Article") finalArticle true)));;
            completeWorkflow;;
            isGeneratingFinalNext false
      end.

(** ** Chat input *)

(** [detectEditIntent]; [reply] is what the backend answers, [None] when the
    request fails. *)
Definition detectEditIntent (input : jsstring) (reply : option IntentResult)
  : M (bool * option (list jsstring)) :=
  if negb (truthy (trim input)) then mret (false, None)
  else
    emit (DetectEditIntent (trim input));;
    match reply with
    | Some r =>
        mret (is_edit_intent r && confidence_at_least_0_7 r,
              match detected_editors r with
              | Val (e :: es) => Some (e :: es)
              | _ => None
              end)
    | None => mret (false, None)
    end.

(** How a call of [handleChatInput] ends: it returns, perhaps leaving a
    subscription behind, or the selection parser never comes back. *)
Inductive ChatOutcome : Type :=
| ChatReturns (started : option Session)
| ChatHangs.

Definition handleChatInput (fuel : nat) (input : jsstring) (file : option File)
    (reply : option IntentResult) : M ChatOutcome :=
  let trimmedInput := trim input in
  s ← currentState;
  let workflowActive := negb (bool_decide (step s = idle)) in
  if negb workflowActive then
    intentResult ← detectEditIntent trimmedInput reply;
    match intentResult with
    | (true, Some editors) => beginWorkflowWithEditors editors;; mret (ChatReturns None)
    | (true, None) => beginWorkflow;; mret (ChatReturns None)
    | (false, _) => mret (ChatReturns None)
    end
  else if decide (step s = awaiting_editors) then
    if truthy trimmedInput then
      let lowerInput := toLowerCase trimmedInput in
      if includes (lit "proceed") lowerInput || includes (lit "continue") lowerInput
         || includes (lit "yes") lowerInput || jsstring_eqb lowerInput (lit "ok")
         || jsstring_eqb lowerInput (lit "done")
      then proceedToContentStep;; mret (ChatReturns None)
      else if includes (lit "cancel") lowerInput
      then cancelWorkflow;; mret (ChatReturns None)
      else
        match parseNumericSelection fuel trimmedInput with
        | None => mret ChatHangs
        | Some selectionResult =>
            if (0 <? length (selectedIndices selectionResult))%nat || hasInput selectionResult
            then handleNumericSelection selectionResult;; mret (ChatReturns None)
            else if (0 <? length (trim trimmedInput))%nat
            then showInvalidSelectionError;; mret (ChatReturns None)
            else mret (ChatReturns None)
        end
    else mret (ChatReturns None)
  else if decide (step s = awaiting_content) then
    match file with
    | Some f => started ← handleFileUpload f; mret (ChatReturns started)
    | None =>
        if truthy trimmedInput then
          messageNext msg_prompt
            (mkMessage
               (lit "⚠️ **Please upload a document file** (Word, PDF, Text, or Markdown). Text pasting is not available in this workflow.")
               None
               (Some (mkMetadata awaiting_content None None (Some false) (Some true)
                        None None None None None))
               None);;
          mret (ChatReturns None)
        else mret (ChatReturns None)
    end
  else mret (ChatReturns None).

(** ** Everything that can happen to the service

    The public methods, the callbacks of a subscription (with whatever its
    closure holds), the private [handleOptOutAndProceed], and the
    component's writes into the paragraph objects it shares with the state
    ([approveAllFeedback], [rejectAllFeedback], [initializeHighlights]),
    which can leave any list of paragraph edits behind.

    [nextEditor] reads its reply with [await reader.read()], so that other
    calls can run between two events of it: [NextEditorEvent] is one event
    of a reply that is still being read, handled at any later moment.
    [CallNextEditor] with the events in its reply is the call that nothing
    interrupts.  What follows the other awaits of the service is a call of
    this list ([beginWorkflow] or [beginWorkflowWithEditors] after
    [detectEditIntent], [completeWorkflow] after the request of
    [generateFinalArticle]), a message or the flag of
    [generateFinalArticle], or, in [processWithContent] after
    [extractFileText], the write of the original content and of the step:
    these are taken in one step with the call that awaits. *)
Inductive Call : Type :=
| CallDetectEditIntent (input : jsstring) (reply : option IntentResult)
| CallBeginWorkflow
| CallBeginWorkflowWithEditors (editorIds : list jsstring)
| CallHandleFileUpload (file : File)
| CallHandleChatInput (fuel : nat) (input : jsstring) (file : option File)
    (reply : option IntentResult)
| CallHandleEditorSelection (ids : list jsstring)
| CallHandleOptOutAndProceed (optedOut : list Z) (sections : list jsstring)
| CallCancelWorkflow
| CallCompleteWorkflow
| CallApproveParagraph (i : Z)
| CallDeclineParagraph (i : Z)
| CallSyncParagraphEditsFromMessage (edits : list ParagraphEdit)
| CallNextEditor (edits : list ParagraphEdit) (reply : NextReply)
| NextEditorEvent (data : EventData)
| CallGenerateFinalArticle (reply : FinalReply)
| StreamNext (item : StreamItem) (sess : Session)
| StreamError
| StreamComplete
| SharedParagraphWrite (edits : list ParagraphEdit).

Definition perform (c : Call) : M unit :=
  match c with
  | CallDetectEditIntent input reply => detectEditIntent input reply;; mret tt
  | CallBeginWorkflow => beginWorkflow
  | CallBeginWorkflowWithEditors editorIds => beginWorkflowWithEditors editorIds
  | CallHandleFileUpload file => handleFileUpload file;; mret tt
  | CallHandleChatInput fuel input file reply =>
      handleChatInput fuel input file reply;; mret tt
  | CallHandleEditorSelection ids => handleEditorSelection ids
  | CallHandleOptOutAndProceed optedOut sections => handleOptOutAndProceed optedOut sections
  | CallCancelWorkflow => cancelWorkflow
  | CallCompleteWorkflow => completeWorkflow
  | CallApproveParagraph i => approveParagraph i
  | CallDeclineParagraph i => declineParagraph i
  | CallSyncParagraphEditsFromMessage edits => syncParagraphEditsFromMessage edits
  | CallNextEditor edits reply => nextEditor edits reply
  | NextEditorEvent data => onNextEditorEvent data;; mret tt
  | CallGenerateFinalArticle reply => generateFinalArticle reply
  | StreamNext item sess => onNext item sess;; mret tt
  | StreamError => onError
  | StreamComplete => onComplete
  | SharedParagraphWrite edits =>
      s ← currentState; updateState (withParagraphEdits edits s)
  end.

Inductive reachable : Service -> Prop :=
| reach_initial : reachable initialService
| reach_call svc c : reachable svc -> reachable (exec (perform c) svc).

(** The events of one subscription, delivered in order. *)
Fixpoint deliver (items : list StreamItem) (sess : Session) : M Session :=
  match items with
  | [] => mret sess
  | item :: rest => sess' ← onNext item sess; deliver rest sess'
  end.

End Workflow.

(** ** The highlight renderer of the paragraph component *)

Record HighlightItem : Type := mkHighlightItem {
  item_text : jsstring;
  item_approved : option bool;
  item_start : nat;
  item_end : nat
}.

Record Highlighted : Type := mkHighlighted {
  hl_original : jsstring;
  hl_edited : jsstring
}.

(** [html.replace(/<[^>]*>/g, '')]; [inTag] tells that a match is open. *)
Fixpoint stripTagsFrom (inTag : bool) (s : jsstring) : jsstring :=
  match s with
  | [] => []
  | c :: s' =>
      if inTag then
        if (c =? 62)%N then stripTagsFrom false s' else stripTagsFrom true s'
      else if (c =? 60)%N && existsb (fun d => (d =? 62)%N) s' then stripTagsFrom true s'
      else c :: stripTagsFrom false s'
  end.

Definition stripHtmlSpans (html : jsstring) : jsstring := stripTagsFrom false html.

(** The indices at which [new RegExp(escapeRegex(p), 'g').exec(text)]
    matches in turn: the occurrences of the literal [p] from left to right,
    each search starting where the previous match ended. *)
Fixpoint occurrencesFrom (pos skip : nat) (p text : jsstring) : list nat :=
  match text with
  | [] => []
  | _ :: text' =>
      match skip with
      | S k => occurrencesFrom (S pos) k p text'
      | O =>
          if startsWith p text then pos :: occurrencesFrom (S pos) (length p - 1) p text'
          else occurrencesFrom (S pos) O p text'
      end
  end.

Definition occurrences (p text : jsstring) : list nat := occurrencesFrom 0 0 p text.

(** [fb.approved === true ? true : (fb.approved === false ? false : null)] *)
Definition feedbackDecision (fb : EditorialFeedbackItem) : option bool :=
  match fb_approved fb with
  | Val b => Some b
  | _ => None
  end.

(** The items pushed for one text ([issue] against the original, [fix]
    against the edited text), over all keys and all their feedbacks. *)
Definition collectItems (field : EditorialFeedbackItem -> jsopt jsstring)
    (text : jsstring) (editorial : EditorialFeedback) : list HighlightItem :=
  flat_map (fun entry : jsstring * list EditorialFeedbackItem =>
    flat_map (fun fb =>
      let t := trimmedOrEmpty (field fb) in
      if truthy t && includes t text then
        map (fun k => mkHighlightItem t (feedbackDecision fb) k (k + length t))
            (occurrences t text)
      else [])
      entry.2)
    editorial.

Definition span (classes : jsstring) (text : jsstring) : jsstring :=
  lit "<span class=" ++ dquote ++ classes ++ dquote ++ lit ">" ++ text ++ lit "</span>".

Definition highlightOriginal (item : HighlightItem) : jsstring :=
  match item_approved item with
  | Some true => span (lit "strikeout highlight-yellow") (item_text item)
  | Some false => span (lit "highlight-green") (item_text item)
  | None => span (lit "highlight-yellow") (item_text item)
  end.

Definition highlightEdited (item : HighlightItem) : jsstring :=
  match item_approved item with
  | Some true => span (lit "highlight-green") (item_text item)
  | Some false => span (lit "strikeout highlight-yellow") (item_text item)
  | None => span (lit "highlight-yellow") (item_text item)
  end.

(** [items.sort((a, b) => b.start - a.start)] *)
Definition sortByStartDescending (items : list HighlightItem) : list HighlightItem :=
  stableSort (fun a b => (item_start a <? item_start b)%nat) items.

(** [items.forEach(item => { text = text.substring(0, item.start)
    + highlighted + text.substring(item.end) })] *)
Definition applyHighlights (render : HighlightItem -> jsstring)
    (items : list HighlightItem) (text : jsstring) : jsstring :=
  fold_left (fun acc item => take (item_start item) acc ++ render item ++ drop (item_end item) acc)
    items text.

Definition highlightAllFeedbacks (para : option ParagraphEdit) : Highlighted :=
  match para with
  | None => mkHighlighted [] []
  | Some p =>
      let originalText := stripHtmlSpans (original p) in
      let editedText := stripHtmlSpans (edited p) in
      let editorial := default [] (editorial_feedback p) in
      let originalItems := collectItems issue originalText editorial in
      let editedItems := collectItems fix_ editedText editorial in
      mkHighlighted
        (applyHighlights highlightOriginal (sortByStartDescending originalItems) originalText)
        (applyHighlights highlightEdited (sortByStartDescending editedItems) editedText)
  end.

(** ** The getters and the bulk actions of the paragraph component

    The component works on the paragraph objects of its input
    [paragraphEdits].  A getter is a function of that list; a method that
    writes into the objects is the function from the list before to the
    list after; an [EventEmitter] is the list of the values it emits; the
    input [showFinalOutput] is an argument. *)

(** [get allParagraphsApproved] *)
Definition allParagraphsApproved (edits : list ParagraphEdit) : bool :=
  (0 <? length edits)%nat
  && forallb (fun p => bool_decide (approved p = Some true)) edits.

(** [get allParagraphsDeclined] *)
Definition allParagraphsDeclined (edits : list ParagraphEdit) : bool :=
  (0 <? length edits)%nat
  && forallb (fun p => bool_decide (approved p = Some false)) edits.

(** [onApproveAll]: what [paragraphApproved] emits. *)
Definition onApproveAll (edits : list ParagraphEdit) : list Z :=
  match edits with
  | [] => []
  | _ => map index edits
  end.

(** [onDeclineAll]: what [paragraphDeclined] emits. *)
Definition onDeclineAll (edits : list ParagraphEdit) : list Z :=
  match edits with
  | [] => []
  | _ => map index edits
  end.

(** [get autoApprovedCount] *)
Definition autoApprovedCount (edits : list ParagraphEdit) : nat :=
  length (List.filter (fun p => bool_decide (autoApproved p = Some true)) edits).

(** [get paragraphsForReview] *)
Definition paragraphsForReview (edits : list ParagraphEdit) : list ParagraphEdit :=
  stableSort (fun a b => index b <? index a)
    (List.filter (fun p => negb (bool_decide (autoApproved p = Some true))) edits).

(** [initializeHighlights]; an index is never missing from a [ParagraphEdit]
    of the model. *)
Definition initializeHighlights (edits : list ParagraphEdit) : list ParagraphEdit :=
  map (fun p =>
         mkParagraphEdit (index p) (original p) (edited p) (tags p) (autoApproved p)
           (approved p) (editorial_feedback p) None None)
      edits.

(** [x === b] for a property [x] and a boolean [b] *)
Definition strictEqBool (x : jsopt bool) (b : bool) : bool :=
  match x with
  | Val c => Bool.eqb c b
  | _ => false
  end.

(** [get hasEditorialFeedback] *)
Definition hasEditorialFeedback (edits : list ParagraphEdit) : bool :=
  existsb (fun p =>
             match editorial_feedback p with
             | Some ef =>
                 existsb (fun entry : jsstring * list EditorialFeedbackItem =>
                            (0 <? length entry.2)%nat) ef
             | None => false
             end)
          edits.

(** [get allFeedbackApproved] *)
Definition allFeedbackApproved (edits : list ParagraphEdit) : bool :=
  forallb (fun p =>
             match editorial_feedback p with
             | None => true
             | Some ef =>
                 forallb (fun entry : jsstring * list EditorialFeedbackItem =>
                            (length entry.2 =? 0)%nat
                            || forallb (fun fb => strictEqBool (fb_approved fb) true)
                                 entry.2)
                         ef
             end)
          edits.

(** [get allFeedbackRejected] *)
Definition allFeedbackRejected (edits : list ParagraphEdit) : bool :=
  forallb (fun p =>
             match editorial_feedback p with
             | None => true
             | Some ef =>
                 forallb (fun entry : jsstring * list EditorialFeedbackItem =>
                            (0 <? length entry.2)%nat
                            && forallb (fun fb => strictEqBool (fb_approved fb) false)
                                 entry.2)
                         ef
             end)
          edits.

(** [fb.approved = v] *)
Definition setFeedbackApproved (v : jsopt bool) (fb : EditorialFeedbackItem)
  : EditorialFeedbackItem :=
  mkFeedback (issue fb) (fix_ fb) v (priority fb) (rule fb) (impact fb).

(** The body of the [forEach] of [approveAllFeedback] ([v = true]) and of
    [rejectAllFeedback] ([v = false]), on one paragraph. *)
Definition decideAllFeedbackOf (v : bool) (para : ParagraphEdit) : ParagraphEdit :=
  mkParagraphEdit (index para) (original para) (edited para) (tags para)
    (autoApproved para) (Some v)
    (map (fun entry : jsstring * list EditorialFeedbackItem =>
            (entry.1, map (setFeedbackApproved (Val v)) entry.2))
       <$> editorial_feedback para)
    None None.

Definition approveAllFeedback (showFinalOutput : bool) (edits : list ParagraphEdit)
  : list ParagraphEdit :=
  if showFinalOutput then edits else map (decideAllFeedbackOf true) edits.

Definition rejectAllFeedback (showFinalOutput : bool) (edits : list ParagraphEdit)
  : list ParagraphEdit :=
  if showFinalOutput then edits else map (decideAllFeedbackOf false) edits.

(** [approveAll]: the paragraphs afterwards, and what [paragraphApproved]
    emits. *)
Definition approveAll (showFinalOutput : bool) (edits : list ParagraphEdit)
  : list ParagraphEdit * list Z :=
  if showFinalOutput then (edits, [])
  else
    let edits' := approveAllFeedback showFinalOutput edits in
    (edits', map index edits').

(** [declineAll]: the paragraphs afterwards, and what [paragraphDeclined]
    emits. *)
Definition declineAll (showFinalOutput : bool) (edits : list ParagraphEdit)
  : list ParagraphEdit * list Z :=
  if showFinalOutput then (edits, [])
  else
    let edits' := rejectAllFeedback showFinalOutput edits in
    (edits', map index edits').

(** ** A stand-in for the collaborators

    Modelled from the spec: [allParagraphsDecided] of
    [utils/paragraph-edit.utils] is not among the sources; by the spec it
    is false exactly when some paragraph edit has [approved] equal to
    [null]. *)
Definition allParagraphsDecidedSpec (edits : list ParagraphEdit) : bool :=
  forallb (fun p => negb (bool_decide (approved p = None))) edits.

(** [text.split('\n')] *)
Fixpoint splitLinesFrom (cur : jsstring) (text : jsstring) : list jsstring :=
  match text with
  | [] => [rev cur]
  | c :: text' =>
      if (c =? 10)%N then rev cur :: splitLinesFrom [] text'
      else splitLinesFrom (c :: cur) text'
  end.

(** Simple functions in the place of the utilities, to run the model on
    examples: the naive splitting at line feeds stands for
    [splitIntoParagraphs], the file name for the text of a file. *)
Definition sampleExternal : External :=
  mkExternal
    (fun x => strOr x [])
    (fun ids => ids)
    trim
    (fun _ _ => [])
    (fun s => s)
    (fun s => s)
    (fun f => Some (file_name f))
    (splitLinesFrom [])
    (fun o e names => [mkParagraphEdit 0 o e names None None None None None])
    allParagraphsDecidedSpec
    jsstring_eqb
    (map asciiLower)
    decimalString.

(** * Predicates of the properties, and sample inputs *)

(** [keeps I c]: the computation [c] preserves the property [I] of the
    workflow state. *)
Definition keeps (I : EditWorkflowState -> Prop) {A} (c : M A) : Prop :=
  forall svc, I (state svc) -> I (state (exec c svc)).

Definition brandSelected (s : EditWorkflowState) : Prop :=
  brand_alignment ∈ selectedEditors s.

Definition cancelMessage : EditWorkflowMessage :=
  mkWorkflowMessage msg_prompt
    (plainMessage (lit "Edit workflow cancelled. How else can I help you?")).

Definition awaitingEditorsService : Service :=
  mkService (withStep awaiting_editors getDefaultState) initialSequential false.

Definition sampleParagraph (i : Z) (a : option bool) : ParagraphEdit :=
  mkParagraphEdit i (lit "old text") (lit "new text") [] (Some false) a None None None.

Definition reviewService : Service :=
  mkService
    (mkState processing None [brand_alignment] (lit "old text")
       [sampleParagraph 0 None; sampleParagraph 1 None])
    initialSequential false.

(** [stored] is [incoming] with the brand alignment editor appended when
    [incoming] lacks it. *)
Definition appendsBrand (incoming stored : list jsstring) : Prop :=
  (brand_alignment ∈ incoming -> stored = incoming) /\
  (brand_alignment ∉ incoming -> stored = incoming ++ [brand_alignment]).

(** The editor with number [k] and id [i], unless [k] is opted out. *)
Definition keptEditor (optedOut : list Z) (k : Z) (i : string) : list jsstring :=
  if bool_decide (k ∈ optedOut) then [] else [lit i].

Definition draftFile : File := mkFile (lit "draft.txt") 1.

(** The service in the middle of a run: editors chosen, a file uploaded,
    the stream not yet finished. *)
Definition processingService : Service :=
  exec (perform (H := sampleExternal) (CallHandleFileUpload draftFile))
    (exec (perform (H := sampleExternal) (CallBeginWorkflowWithEditors [lit "copy"]))
       initialService).

(** The service waiting for content, with a file whose text is blank. *)
Definition blankFile : File := mkFile (lit "   ") 2.

Definition awaitingContentService : Service :=
  exec (perform (H := sampleExternal) (CallBeginWorkflowWithEditors [lit "copy"]))
    initialService.

(** The service as [handleFileUpload] leaves it to [processWithContent]. *)
Definition blankUploadService : Service :=
  mkService (withUploadedFile (Some blankFile) (state awaitingContentService))
    initialSequential false.

Definition progressEvent (c : Z) : EventData :=
  mkEventData editor_progress (Val c) (Val 3) (Val (lit "line")) Undefined Undefined
    Undefined Undefined Undefined Undefined Undefined Undefined Undefined Undefined Undefined.

Definition sampleSession : Session :=
  value (processContent (H := sampleExternal) (lit "draft text")
           [lit "content"; lit "line"; brand_alignment] (lit "editors"))
    initialService.

(** The paragraph that stands in for a missing [original]: the trimmed
    paragraph at position [i], the empty string when there is none. *)
Definition paragraphAt (paragraphs : list jsstring) (i : Z) : jsstring :=
  if decide (0 <= i) then
    match paragraphs !! Z.to_nat i with
    | Some para => trim para
    | None => []
    end
  else [].

Definition sampleRawEdit : RawEdit :=
  mkRawEdit Undefined (Val (lit "  ")) (Val (lit " A new first paragraph. ")) Undefined
    Undefined Undefined Undefined.

Definition sampleCompleteEvent : EventData :=
  mkEventData editor_complete Undefined Undefined Undefined Undefined
    (Val (lit "thread-1")) (Val (lit "content")) (Val 0) (Val 3) Undefined Undefined
    (Val (lit " The first paragraph. " ++ nl ++ lit "The second paragraph."))
    (Val [sampleRawEdit]) Undefined Undefined.

(** [returns P c]: whatever the service is, [c] returns a value in [P]. *)
Definition returns {A} (P : A -> Prop) (c : M A) : Prop :=
  forall svc, P (value c svc).

(** The reducer touches only the paragraph edits and the original content
    of the state. *)
Definition reducerStable (I : EditWorkflowState -> Prop) : Prop :=
  (forall v s, I s -> I (withOriginalContent v s)) /\
  (forall v s, I s -> I (withParagraphEdits v s)).

(** The session of the run that [handleFileUpload] starts in
    [awaitingContentService]: the run that [processingService] is in. *)
Definition uploadSession : Session :=
  default sampleSession
    (value (handleFileUpload (H := sampleExternal) draftFile) awaitingContentService).

(** [beginWorkflow] called while that run is going on. *)
Definition restartedService : Service :=
  exec (perform (H := sampleExternal) CallBeginWorkflow) processingService.

Definition fallbackEvent : EventData :=
  mkEventData final_complete Undefined Undefined Undefined Undefined Undefined Undefined
    Undefined Undefined Undefined (Val (lit "A revised text."))
    (Val (lit "An original text.")) Undefined Undefined Undefined.

Definition decideBeforeFinalMessage : EditWorkflowMessage :=
  mkWorkflowMessage msg_prompt
    (plainMessage
       (lit "⚠️ **Please approve or decline all paragraph edits** before generating the final article.")).

Definition decideBeforeNextMessage : EditWorkflowMessage :=
  mkWorkflowMessage msg_prompt
    (plainMessage
       (lit "⚠️ **Please approve or reject all paragraph edits** before proceeding to the next editor.")).

Definition noThreadMessage : EditWorkflowMessage :=
  mkWorkflowMessage msg_prompt
    (plainMessage (lit "⚠️ **No thread ID available.** Cannot proceed to next editor.")).

(** The smallest positive integer whose successor is not a double. *)
Definition twoTo53 : Z := 9007199254740992.

(** A range whose two ends are 2^53: the digits are typed in the chat box
    while the workflow waits for the choice of editors. *)
Definition stuckInput : jsstring := lit "9007199254740992-9007199254740992".

Definition inEditorRange (n : jsnum) : bool := jsle (Finite 1) n && jsle n (Finite 5).

(** The two lists while the parts are read: no duplicates, the editor
    numbers on one side, everything else on the other. *)
Definition wellSorted (acc : list jsnum * list jsnum) : Prop :=
  NoDup acc.1 /\ NoDup acc.2 /\
  (forall n, n ∈ acc.1 -> inEditorRange n = true) /\
  (forall n, n ∈ acc.2 -> inEditorRange n = false).

Definition ascending (l : list jsnum) : Prop :=
  forall i a b, l !! i = Some a -> l !! S i = Some b -> jsle a b = true.

(** The fuel that suffices for every range that ends below 2^53. *)
Definition enoughFuel : nat := Z.to_nat twoTo53.

(** Two editors flag the same word of the paragraph. *)
Definition flaggedTwice : ParagraphEdit :=
  mkParagraphEdit 0 (lit "We utilize data.") (lit "We use data.") [] (Some false) None
    (Some [(lit "content",
            [mkFeedback (Val (lit "utilize")) (Val (lit "use")) Undefined
               Undefined Undefined Undefined]);
           (lit "copy",
            [mkFeedback (Val (lit "utilize")) (Val (lit "use")) Undefined
               Undefined Undefined Undefined])])
    None None.

Section Vocabulary.
Context `{External}.

(** The text that [processWithContent] works on: the stored original
    content, or else the normalised text of the uploaded file ([None] when
    its extraction fails). *)
Definition availableContent (s : EditWorkflowState) : option jsstring :=
  match uploadedFile s with
  | Some f =>
      if truthy (originalContent s) then Some (originalContent s)
      else normalizeContent <$> extractFileText f
  | None => Some (originalContent s)
  end.

(** The paragraphs of the original content that an event is read against:
    [splitIntoParagraphs] of the event's [original_content], or of the
    stored original content when the event brings none. *)
Definition eventParagraphs (data : EventData) (s : EditWorkflowState) : list jsstring :=
  let text := match ev_original_content data with
              | Val t => if truthy t then t else originalContent s
              | _ => originalContent s
              end in
  if truthy text then splitIntoParagraphs text else [].

(** What is required of the paragraph edit [p] made from the entry
    [edit] at position [k] of the array. *)
Definition describesEntry (paragraphs : list jsstring) (k : nat) (edit : RawEdit)
    (p : ParagraphEdit) : Prop :=
  index p = match raw_index edit with Val i => i | _ => Z.of_nat k end /\
  original p = match raw_original edit with
               | Val s => if truthy (trim s) then trim s
                          else paragraphAt paragraphs (index p)
               | _ => paragraphAt paragraphs (index p)
               end /\
  edited p = match raw_edited edit with Val s => trim s | _ => [] end /\
  autoApproved p = match raw_autoApproved edit with
                   | Undefined => Some (validateStringEquality (original p) (edited p))
                   | Null => None
                   | Val b => Some b
                   end /\
  approved p = match autoApproved p with
               | Some true => Some true
               | _ => match raw_approved edit with
                      | Val b => Some b
                      | _ => None
                      end
               end.

Definition describesEntries (paragraphs : list jsstring) (edits : list RawEdit)
    (ps : list ParagraphEdit) : Prop :=
  length ps = length edits /\
  forall k edit, edits !! k = Some edit ->
    exists p, ps !! k = Some p /\ describesEntry paragraphs k edit p.

End Vocabulary.

(** [holds I J svc]: the workflow state of the service satisfies [I] and
    its sequential fields satisfy [J]; [preserves I J c]: the computation
    [c] keeps that so. *)
Definition holds (I : EditWorkflowState -> Prop) (J : SequentialInfo -> Prop)
    (svc : Service) : Prop :=
  I (state svc) /\ J (sequential svc).

Definition preserves (I : EditWorkflowState -> Prop) (J : SequentialInfo -> Prop)
    {A} (c : M A) : Prop :=
  forall svc, holds I J svc -> holds I J (exec c svc).

(** The calls that read events of the backend. *)
Definition readsStream (c : Call) : bool :=
  match c with
  | StreamNext _ _ | CallNextEditor _ _ | NextEditorEvent _ => true
  | _ => false
  end.

(** The calls that hand one event of the backend to the service: an item
    of the stream, or an event of a [nextEditor] reply that is still being
    read. *)
Definition deliversEvent (c : Call) : bool :=
  match c with
  | StreamNext _ _ | NextEditorEvent _ => true
  | _ => false
  end.

(** The calls whose code, with the operations it reaches, writes the step
    of the state; the other calls hold no such write. *)
Definition writesStep (c : Call) : bool :=
  match c with
  | CallDetectEditIntent _ _ | CallHandleOptOutAndProceed _ _
  | CallApproveParagraph _ | CallDeclineParagraph _
  | CallSyncParagraphEditsFromMessage _ | CallNextEditor _ _ | NextEditorEvent _
  | StreamNext _ _ | SharedParagraphWrite _ => false
  | _ => true
  end.

(** Items that lie in the text, each on the text it names, from the end of
    the text to its start without overlap: every item ends at or before
    [bound], the next one at or before the start of this one. *)
Fixpoint wellPlaced (text : jsstring) (bound : nat) (items : list HighlightItem) : bool :=
  match items with
  | [] => true
  | item :: rest =>
      (item_start item <=? item_end item)%nat && (item_end item <=? bound)%nat
      && bool_decide (item_text item
                      = take (item_end item - item_start item) (drop (item_start item) text))
      && wellPlaced text (item_start item) rest
  end.

Section Calls.
Context `{External}.

(** Calls made one after the other, each to its end; what a [nextEditor]
    reply brings later is among them as [NextEditorEvent]. *)
Fixpoint performAll (calls : list Call) : M unit :=
  match calls with
  | [] => mret tt
  | c :: rest => perform c;; performAll rest
  end.

End Calls.

(** The requests that [c] sends to the backend, and a bound on their
    number. *)
Definition requests {A} (c : M A) (svc : Service) : list Effect :=
  List.filter isBackendRequest (trace c svc).

Definition sendsAtMost (n : nat) {A} (c : M A) : Prop :=
  forall svc, (length (requests c svc) <= n)%nat.

(** The calls that talk to the backend. *)
Definition contactsBackend (c : Call) : bool :=
  match c with
  | CallDetectEditIntent _ _ | CallHandleFileUpload _ | CallHandleChatInput _ _ _ _
  | CallNextEditor _ _ | CallGenerateFinalArticle _ => true
  | _ => false
  end.

(** The content that [generateFinalArticle] sends: the stored original
    content, or, when that is blank, the one put together from the
    paragraph edits. *)
Definition contentToSend (s : EditWorkflowState) : jsstring :=
  if truthy (trim (originalContent s)) then originalContent s
  else reconstructOriginalContent (paragraphEdits s).

Definition finalRequest (s : EditWorkflowState) : FinalRequest :=
  mkFinalRequest (contentToSend s)
    (map (fun p => (index p, original p, edited p, tags p)) (paragraphEdits s))
    (map (fun p => (index p, bool_decide (approved p = Some true))) (paragraphEdits s)).

(** The article of a reply, when the request went through and brought a
    non-empty one. *)
Definition articleOf (reply : FinalReply) : option jsstring :=
  match reply with
  | FinalJson (Val article) => if truthy article then Some article else None
  | _ => None
  end.

Definition nextRequest (tid : jsstring) (edits : list ParagraphEdit) : NextRequest :=
  mkNextRequest tid edits
    (map (fun para => (index para, bool_decide (approved para = Some true))) edits).

(** The editor with number [k] and id [i], if the selection names [k]. *)
Definition chosenEditor (r : SelectionResult) (k : Z) (i : string) : list jsstring :=
  if includesNum (selectedIndices r) (Finite k) then [lit i] else [].

(** [approveParagraph] ([true]) or [declineParagraph] ([false]) called for
    one index after the other. *)
Fixpoint decideAll (decisions : list (bool * Z)) : M unit :=
  match decisions with
  | [] => mret tt
  | (v, i) :: rest => decideParagraph v i;; decideAll rest
  end.

(** The items of the stream that the [next] callback reads: progress,
    completion and error of an editor, and the final completion.  Text
    chunks, bare strings, and events of any other type are not among
    them. *)
Definition isHeard (item : StreamItem) : bool :=
  match item with
  | ObjectItem data =>
      match ev_type data with
      | editor_progress | editor_complete | editor_error | final_complete => true
      | _ => false
      end
  | StringItem _ => false
  end.

(** The paragraph edits and the sequential fields that a message brings to
    the paragraph component, if it brings any. *)
Definition carriedEdits (e : Effect) : option (list ParagraphEdit) :=
  match e with
  | MessageNext m => editWorkflow (message m) ≫= meta_paragraphEdits
  | _ => None
  end.

Definition carriedSequential (e : Effect) : option SequentialInfo :=
  match e with
  | MessageNext m => editWorkflow (message m) ≫= meta_sequential
  | _ => None
  end.

(** [c] tells the component what the service holds when it is done. *)
Definition mirrorsState {A} (c : M A) : Prop :=
  forall svc e,
    e ∈ trace c svc ->
    (forall edits, carriedEdits e = Some edits ->
                   edits = paragraphEdits (state (exec c svc))) /\
    (forall q, carriedSequential e = Some q -> q = sequential (exec c svc)).

(** The text shown when no revised article is there to show. *)
Definition noArticleText : jsstring :=
  lit "### Quick Start Thought Leadership – Edit Content" ++ nl ++ nl
    ++ lit "**Revised Article**" ++ nl ++ nl
    ++ lit "_No revised article was returned. Please try again._".

Definition processingFailedMessage : EditWorkflowMessage :=
  mkWorkflowMessage msg_result
    (plainMessage (lit "Sorry, there was an error processing your content. Please try again.")).

(** ** Sample inputs of the further properties *)

(** A review under way in a sequential run: every paragraph decided. *)
Definition decidedService : Service :=
  mkService
    (mkState processing None [brand_alignment] (lit "old text")
       [sampleParagraph 0 (Some true); sampleParagraph 1 (Some false)])
    (mkSequential (Some (lit "thread-1")) (Some (lit "content")) true false 0 3)
    false.

(** A paragraph whose original text is blank, and a service whose stored
    content is blank. *)
Definition blankParagraph : ParagraphEdit :=
  mkParagraphEdit 0 (lit " ") (lit "new text") [] (Some false) (Some true) None None None.

Definition blankContentService : Service :=
  mkService (mkState processing None [brand_alignment] (lit "  ") []) initialSequential
    false.

(** Two paragraph edits that bear the same index. *)
Definition sameIndexService : Service :=
  mkService
    (mkState processing None [brand_alignment] (lit "old text")
       [sampleParagraph 0 None; sampleParagraph 0 None])
    initialSequential false.

Definition eventOfType (t : EventType) : EventData :=
  mkEventData t Undefined Undefined Undefined Undefined Undefined Undefined Undefined
    Undefined Undefined Undefined Undefined Undefined Undefined Undefined.

(** The line editor fails. *)
Definition failedEvent : EventData :=
  mkEventData editor_error Undefined Undefined (Val (lit "line")) Undefined Undefined
    Undefined Undefined Undefined Undefined Undefined Undefined Undefined
    (Val (lit "timeout")) Undefined.

(** A final event that brings a revised text and nothing to compare it
    with. *)
Definition revisedOnlyEvent : EventData :=
  mkEventData final_complete Undefined Undefined Undefined Undefined Undefined Undefined
    Undefined Undefined Undefined (Val (lit "A revised text.")) Undefined Undefined
    Undefined Undefined.

(** Two issues that lie apart in the paragraph. *)
Definition flaggedApart : ParagraphEdit :=
  mkParagraphEdit 0 (lit "We utilize data in order to win.") (lit "We use data to win.") []
    (Some false) None
    (Some [(lit "content",
            [mkFeedback (Val (lit "utilize")) (Val (lit "use")) (Val true)
               Undefined Undefined Undefined]);
           (lit "line",
            [mkFeedback (Val (lit "in order to")) (Val (lit "to win")) Null
               Undefined Undefined Undefined])])
    None None.

(** A paragraph as the stream delivers it when the entry has feedback of
    the copy editor only. *)
Definition copyFeedbackOnly : ParagraphEdit :=
  mkParagraphEdit 0 (lit "old text") (lit "new text") [] (Some false) None
    (normalizeFeedback
       (Val (mkRawFeedback Undefined Undefined
               (Val [mkFeedback (Val (lit "old")) (Val (lit "new")) Undefined
                       Undefined Undefined Undefined])
               Undefined Undefined)))
    None None.

(** * Properties *)

Arguments lit : simpl never.
Arguments decimalString : simpl never.

(** ** Reasoning about the monad *)

Lemma exec_bind {A B} (c : M A) (k : A -> M B) svc :
  exec (c ≫= k) svc = exec (k (value c svc)) (exec c svc).
Proof.
  unfold exec, value, mbind, M_bind.
  destruct (c svc) as [[a svc1] t1]; simpl.
  destruct (k a svc1) as [[b svc2] t2]; reflexivity.
Qed.

Lemma trace_bind {A B} (c : M A) (k : A -> M B) svc :
  trace (c ≫= k) svc = trace c svc ++ trace (k (value c svc)) (exec c svc).
Proof.
  unfold trace, exec, value, mbind, M_bind.
  destruct (c svc) as [[a svc1] t1]; simpl.
  destruct (k a svc1) as [[b svc2] t2]; reflexivity.
Qed.

Lemma value_bind {A B} (c : M A) (k : A -> M B) svc :
  value (c ≫= k) svc = value (k (value c svc)) (exec c svc).
Proof.
  unfold exec, value, mbind, M_bind.
  destruct (c svc) as [[a svc1] t1]; simpl.
  destruct (k a svc1) as [[b svc2] t2]; reflexivity.
Qed.

(** ** Running the primitives *)

Lemma exec_ret {A} (a : A) svc : exec (mret a) svc = svc.
Proof. reflexivity. Qed.
Lemma value_ret {A} (a : A) svc : value (mret a) svc = a.
Proof. reflexivity. Qed.
Lemma trace_ret {A} (a : A) svc : trace (mret a) svc = [].
Proof. reflexivity. Qed.

Lemma exec_currentState svc : exec currentState svc = svc.
Proof. reflexivity. Qed.
Lemma value_currentState svc : value currentState svc = state svc.
Proof. reflexivity. Qed.
Lemma trace_currentState svc : trace currentState svc = [].
Proof. reflexivity. Qed.

Lemma exec_getSequential svc : exec getSequential svc = svc.
Proof. reflexivity. Qed.
Lemma value_getSequential svc : value getSequential svc = sequential svc.
Proof. reflexivity. Qed.
Lemma trace_getSequential svc : trace getSequential svc = [].
Proof. reflexivity. Qed.

Lemma exec_updateState s svc :
  exec (updateState s) svc = mkService s (sequential svc) (isGeneratingFinal svc).
Proof. reflexivity. Qed.
Lemma trace_updateState s svc : trace (updateState s) svc = [].
Proof. reflexivity. Qed.

Lemma exec_setSequential q svc :
  exec (setSequential q) svc = mkService (state svc) q (isGeneratingFinal svc).
Proof. reflexivity. Qed.
Lemma trace_setSequential q svc : trace (setSequential q) svc = [].
Proof. reflexivity. Qed.

Lemma exec_emit e svc : exec (emit e) svc = svc.
Proof. reflexivity. Qed.
Lemma trace_emit e svc : trace (emit e) svc = [e].
Proof. reflexivity. Qed.

Lemma exec_messageNext t m svc : exec (messageNext t m) svc = svc.
Proof. reflexivity. Qed.
Lemma trace_messageNext t m svc :
  trace (messageNext t m) svc = [MessageNext (mkWorkflowMessage t m)].
Proof. reflexivity. Qed.

Lemma exec_isGeneratingFinalNext b svc :
  exec (isGeneratingFinalNext b) svc = mkService (state svc) (sequential svc) b.
Proof. reflexivity. Qed.
Lemma trace_isGeneratingFinalNext b svc :
  trace (isGeneratingFinalNext b) svc = [IsGeneratingFinalNext b].
Proof. reflexivity. Qed.

Lemma exec_getNumberedEditorList svc : exec getNumberedEditorList svc = svc.
Proof. reflexivity. Qed.
Lemma trace_getNumberedEditorList svc : trace getNumberedEditorList svc = [].
Proof. reflexivity. Qed.

Lemma service_eta svc :
  mkService (state svc) (sequential svc) (isGeneratingFinal svc) = svc.
Proof. destruct svc; reflexivity. Qed.

Lemma state_eta s :
  mkState (step s) (uploadedFile s) (selectedEditors s) (originalContent s) (paragraphEdits s) = s.
Proof. destruct s; reflexivity. Qed.

(** One step of symbolic execution: the lemma of the outermost primitive
    or bind, at the instance found in the goal. *)
Ltac run_step :=
  match goal with
  | |- context [exec (mbind ?k ?c) ?s] => rewrite (exec_bind c k s)
  | |- context [value (mbind ?k ?c) ?s] => rewrite (value_bind c k s)
  | |- context [trace (mbind ?k ?c) ?s] => rewrite (trace_bind c k s)
  | |- context [exec (mret ?a) ?s] => rewrite (exec_ret a s)
  | |- context [value (mret ?a) ?s] => rewrite (value_ret a s)
  | |- context [trace (mret ?a) ?s] => rewrite (trace_ret a s)
  | |- context [exec currentState ?s] => rewrite (exec_currentState s)
  | |- context [value currentState ?s] => rewrite (value_currentState s)
  | |- context [trace currentState ?s] => rewrite (trace_currentState s)
  | |- context [exec getSequential ?s] => rewrite (exec_getSequential s)
  | |- context [value getSequential ?s] => rewrite (value_getSequential s)
  | |- context [trace getSequential ?s] => rewrite (trace_getSequential s)
  | |- context [exec (updateState ?x) ?s] => rewrite (exec_updateState x s)
  | |- context [trace (updateState ?x) ?s] => rewrite (trace_updateState x s)
  | |- context [exec (setSequential ?x) ?s] => rewrite (exec_setSequential x s)
  | |- context [trace (setSequential ?x) ?s] => rewrite (trace_setSequential x s)
  | |- context [exec (emit ?x) ?s] => rewrite (exec_emit x s)
  | |- context [trace (emit ?x) ?s] => rewrite (trace_emit x s)
  | |- context [exec (messageNext ?t ?m) ?s] => rewrite (exec_messageNext t m s)
  | |- context [trace (messageNext ?t ?m) ?s] => rewrite (trace_messageNext t m s)
  | |- context [exec (isGeneratingFinalNext ?x) ?s] =>
      rewrite (exec_isGeneratingFinalNext x s)
  | |- context [trace (isGeneratingFinalNext ?x) ?s] =>
      rewrite (trace_isGeneratingFinalNext x s)
  | |- context [exec getNumberedEditorList ?s] => rewrite (exec_getNumberedEditorList s)
  | |- context [trace getNumberedEditorList ?s] => rewrite (trace_getNumberedEditorList s)
  end.

(** Run a computation symbolically, then read the fields of the records
    that result. *)
Ltac run :=
  repeat run_step;
  cbn [state sequential isGeneratingFinal step uploadedFile selectedEditors
       originalContent paragraphEdits withStep withUploadedFile withSelectedEditors
       withOriginalContent withParagraphEdits app].

Section Keeps.
Variable I : EditWorkflowState -> Prop.

Lemma keeps_ret {A} (a : A) : keeps I (mret a).
Proof. intros svc HI. exact HI. Qed.

Lemma keeps_bind {A B} (c : M A) (k : A -> M B) :
  keeps I c -> (forall a, keeps I (k a)) -> keeps I (c ≫= k).
Proof.
  intros Hc Hk svc HI. rewrite exec_bind. apply Hk, Hc, HI.
Qed.

Lemma keeps_read {B} (k : EditWorkflowState -> M B) :
  (forall s, I s -> keeps I (k s)) -> keeps I (currentState ≫= k).
Proof.
  intros Hk svc HI. rewrite exec_bind. apply (Hk (state svc) HI), HI.
Qed.

Lemma keeps_updateState s : I s -> keeps I (updateState s).
Proof. intros Hs svc _. exact Hs. Qed.

Lemma keeps_emit e : keeps I (emit e).
Proof. intros svc HI. exact HI. Qed.

Lemma keeps_messageNext t m : keeps I (messageNext t m).
Proof. intros svc HI. exact HI. Qed.

Lemma keeps_getSequential : keeps I getSequential.
Proof. intros svc HI. exact HI. Qed.

Lemma keeps_setSequential q : keeps I (setSequential q).
Proof. intros svc HI. exact HI. Qed.

Lemma keeps_isGeneratingFinalNext b : keeps I (isGeneratingFinalNext b).
Proof. intros svc HI. exact HI. Qed.

Lemma keeps_getNumberedEditorList : keeps I getNumberedEditorList.
Proof. intros svc HI. exact HI. Qed.

End Keeps.

(** From here on the primitives of the monad are used through their
    lemmas only. *)
Opaque M_ret M_bind currentState updateState getSequential setSequential emit
  messageNext isGeneratingFinalNext getNumberedEditorList exec value trace.

(** One step of a [keeps] proof: split a bind, read the state, close a
    primitive, or follow a branch of the source. *)
Ltac keeps_step :=
  lazymatch goal with
  | |- keeps _ (mret _) => apply keeps_ret
  | |- keeps _ (emit _) => apply keeps_emit
  | |- keeps _ (messageNext _ _) => apply keeps_messageNext
  | |- keeps _ getSequential => apply keeps_getSequential
  | |- keeps _ (setSequential _) => apply keeps_setSequential
  | |- keeps _ (isGeneratingFinalNext _) => apply keeps_isGeneratingFinalNext
  | |- keeps _ getNumberedEditorList => apply keeps_getNumberedEditorList
  | |- keeps _ (mbind _ currentState) => apply keeps_read; intros ? ?
  | |- keeps _ (mbind _ _) => apply keeps_bind; [| intros ?]
  | |- keeps _ (match ?x with _ => _ end) => destruct x eqn:?
  end.

(** ** The selection always holds the brand alignment editor *)

Lemma ensureBrandAlignment_elem ids : brand_alignment ∈ ensureBrandAlignment ids.
Proof.
  unfold ensureBrandAlignment, includesStr.
  case_bool_decide; [assumption|].
  apply elem_of_app; right. apply list_elem_of_singleton. reflexivity.
Qed.

Lemma ensureBrandAlignment_id ids :
  brand_alignment ∈ ids -> ensureBrandAlignment ids = ids.
Proof.
  intros Hin. unfold ensureBrandAlignment, includesStr.
  case_bool_decide; [reflexivity | contradiction].
Qed.

Lemma brandSelected_default : brandSelected getDefaultState.
Proof. apply list_elem_of_singleton. reflexivity. Qed.

Lemma brandSelected_withStep v s : brandSelected s -> brandSelected (withStep v s).
Proof. intros Hs; exact Hs. Qed.

Lemma brandSelected_withUploadedFile v s :
  brandSelected s -> brandSelected (withUploadedFile v s).
Proof. intros Hs; exact Hs. Qed.

Lemma brandSelected_withOriginalContent v s :
  brandSelected s -> brandSelected (withOriginalContent v s).
Proof. intros Hs; exact Hs. Qed.

Lemma brandSelected_withParagraphEdits v s :
  brandSelected s -> brandSelected (withParagraphEdits v s).
Proof. intros Hs; exact Hs. Qed.

Lemma brandSelected_withSelectedEditors ids s :
  brand_alignment ∈ ids -> brandSelected (withSelectedEditors ids s).
Proof. intros Hs; exact Hs. Qed.

Create HintDb brand discriminated.
#[local] Hint Resolve ensureBrandAlignment_elem brandSelected_default
  brandSelected_withStep brandSelected_withUploadedFile brandSelected_withOriginalContent
  brandSelected_withParagraphEdits brandSelected_withSelectedEditors : brand.

Create HintDb keeps discriminated.

Ltac head_of c :=
  lazymatch c with
  | ?f _ => head_of f
  | _ => c
  end.

(** Use the lemma [lem] when the computation is a call of [op]. *)
Ltac keeps_known c op lem :=
  let h := head_of c in
  lazymatch h with
  | op => apply lem
  end.

Ltac keeps_brand :=
  repeat first
    [ solve [auto 2 with keeps nocore]
    | keeps_step
    | apply keeps_updateState;
      solve [ eauto 6 with brand nocore
            | match goal with
              | Heq : _ = ?ids |- brandSelected (withSelectedEditors ?ids _) =>
                  rewrite <- Heq; eauto 6 with brand nocore
              end ] ].

Section BrandInvariant.
Context `{External}.

Lemma keeps_brand_beginWorkflow : keeps brandSelected beginWorkflow.
Proof. unfold beginWorkflow. keeps_brand. Qed.

Lemma keeps_brand_beginWorkflowWithEditors ids :
  keeps brandSelected (beginWorkflowWithEditors ids).
Proof.
  unfold beginWorkflowWithEditors.
  destruct ids; [apply keeps_brand_beginWorkflow|].
  destruct (List.filter _ _); [apply keeps_brand_beginWorkflow|].
  keeps_brand.
Qed.
#[local] Hint Extern 0 (keeps _ ?c) =>
  keeps_known c beginWorkflow keeps_brand_beginWorkflow : keeps.
#[local] Hint Extern 0 (keeps _ ?c) =>
  keeps_known c beginWorkflowWithEditors keeps_brand_beginWorkflowWithEditors : keeps.

Lemma keeps_brand_showInvalidSelectionError : keeps brandSelected showInvalidSelectionError.
Proof. unfold showInvalidSelectionError. keeps_brand. Qed.
#[local] Hint Extern 0 (keeps _ ?c) =>
  keeps_known c showInvalidSelectionError keeps_brand_showInvalidSelectionError : keeps.

Lemma keeps_brand_handleNumericSelection r : keeps brandSelected (handleNumericSelection r).
Proof. unfold handleNumericSelection. keeps_brand. Qed.

Lemma keeps_brand_handleOptOutAndProceed optedOut sections :
  keeps brandSelected (handleOptOutAndProceed optedOut sections).
Proof. unfold handleOptOutAndProceed. keeps_brand. Qed.

Lemma keeps_brand_createNoEditorsErrorMessage o :
  keeps brandSelected (createNoEditorsErrorMessage o).
Proof. unfold createNoEditorsErrorMessage. keeps_brand. Qed.
#[local] Hint Extern 0 (keeps _ ?c) =>
  keeps_known c handleNumericSelection keeps_brand_handleNumericSelection : keeps.
#[local] Hint Extern 0 (keeps _ ?c) =>
  keeps_known c handleOptOutAndProceed keeps_brand_handleOptOutAndProceed : keeps.
#[local] Hint Extern 0 (keeps _ ?c) =>
  keeps_known c createNoEditorsErrorMessage keeps_brand_createNoEditorsErrorMessage : keeps.

Lemma keeps_brand_proceedToContentStep : keeps brandSelected proceedToContentStep.
Proof. unfold proceedToContentStep. keeps_brand. Qed.

Lemma keeps_brand_completeWorkflow : keeps brandSelected completeWorkflow.
Proof. unfold completeWorkflow. keeps_brand. Qed.

Lemma keeps_brand_cancelWorkflow : keeps brandSelected cancelWorkflow.
Proof. unfold cancelWorkflow. keeps_brand. Qed.
#[local] Hint Extern 0 (keeps _ ?c) =>
  keeps_known c proceedToContentStep keeps_brand_proceedToContentStep : keeps.
#[local] Hint Extern 0 (keeps _ ?c) =>
  keeps_known c completeWorkflow keeps_brand_completeWorkflow : keeps.
#[local] Hint Extern 0 (keeps _ ?c) =>
  keeps_known c cancelWorkflow keeps_brand_cancelWorkflow : keeps.

Lemma keeps_dispatchResultsToChat I names fb rev edits :
  keeps I (dispatchResultsToChat names fb rev edits).
Proof. unfold dispatchResultsToChat. repeat keeps_step. Qed.

Lemma keeps_brand_dispatchResultsToChat names fb rev edits :
  keeps brandSelected (dispatchResultsToChat names fb rev edits).
Proof. apply keeps_dispatchResultsToChat. Qed.
#[local] Hint Extern 0 (keeps _ ?c) =>
  keeps_known c dispatchResultsToChat keeps_brand_dispatchResultsToChat : keeps.

Lemma keeps_brand_onEvent data sess : keeps brandSelected (onEvent data sess).
Proof. unfold onEvent. keeps_brand. Qed.
#[local] Hint Extern 0 (keeps _ ?c) =>
  keeps_known c onEvent keeps_brand_onEvent : keeps.

Lemma keeps_brand_onNext item sess : keeps brandSelected (onNext item sess).
Proof. unfold onNext. keeps_brand. Qed.

Lemma keeps_brand_onError : keeps brandSelected onError.
Proof. unfold onError. keeps_brand. Qed.

Lemma keeps_brand_onComplete : keeps brandSelected onComplete.
Proof. unfold onComplete. keeps_brand. Qed.

Lemma keeps_brand_processContent text ids names :
  keeps brandSelected (processContent text ids names).
Proof. unfold processContent. keeps_brand. Qed.

Lemma keeps_brand_processingFailed : keeps brandSelected processingFailed.
Proof. unfold processingFailed. keeps_brand. Qed.
#[local] Hint Extern 0 (keeps _ ?c) =>
  keeps_known c onNext keeps_brand_onNext : keeps.
#[local] Hint Extern 0 (keeps _ ?c) =>
  keeps_known c onError keeps_brand_onError : keeps.
#[local] Hint Extern 0 (keeps _ ?c) =>
  keeps_known c onComplete keeps_brand_onComplete : keeps.
#[local] Hint Extern 0 (keeps _ ?c) =>
  keeps_known c processContent keeps_brand_processContent : keeps.
#[local] Hint Extern 0 (keeps _ ?c) =>
  keeps_known c processingFailed keeps_brand_processingFailed : keeps.

Lemma keeps_brand_processWithContent : keeps brandSelected processWithContent.
Proof. unfold processWithContent. keeps_brand. Qed.
#[local] Hint Extern 0 (keeps _ ?c) =>
  keeps_known c processWithContent keeps_brand_processWithContent : keeps.

Lemma keeps_brand_handleFileUpload file : keeps brandSelected (handleFileUpload file).
Proof. unfold handleFileUpload. keeps_brand. Qed.

Lemma keeps_brand_handleEditorSelection ids : keeps brandSelected (handleEditorSelection ids).
Proof. unfold handleEditorSelection. keeps_brand. Qed.

Lemma keeps_brand_emitParagraphUpdateMessage : keeps brandSelected emitParagraphUpdateMessage.
Proof. unfold emitParagraphUpdateMessage. keeps_brand. Qed.
#[local] Hint Extern 0 (keeps _ ?c) =>
  keeps_known c handleFileUpload keeps_brand_handleFileUpload : keeps.
#[local] Hint Extern 0 (keeps _ ?c) =>
  keeps_known c handleEditorSelection keeps_brand_handleEditorSelection : keeps.
#[local] Hint Extern 0 (keeps _ ?c) =>
  keeps_known c emitParagraphUpdateMessage keeps_brand_emitParagraphUpdateMessage : keeps.

Lemma keeps_brand_decideParagraph v i : keeps brandSelected (decideParagraph v i).
Proof. unfold decideParagraph. keeps_brand. Qed.

Lemma keeps_brand_syncParagraphEditsFromMessage edits :
  keeps brandSelected (syncParagraphEditsFromMessage edits).
Proof. unfold syncParagraphEditsFromMessage. keeps_brand. Qed.

Lemma keeps_brand_onNextEditorEvent data : keeps brandSelected (onNextEditorEvent data).
Proof. unfold onNextEditorEvent. keeps_brand. Qed.
#[local] Hint Extern 0 (keeps _ ?c) =>
  keeps_known c decideParagraph keeps_brand_decideParagraph : keeps.
#[local] Hint Extern 0 (keeps _ ?c) =>
  keeps_known c syncParagraphEditsFromMessage keeps_brand_syncParagraphEditsFromMessage : keeps.
#[local] Hint Extern 0 (keeps _ ?c) =>
  keeps_known c onNextEditorEvent keeps_brand_onNextEditorEvent : keeps.

Lemma keeps_brand_onNextEditorEvents events : keeps brandSelected (onNextEditorEvents events).
Proof. induction events as [|data rest IH]; simpl; keeps_brand. Qed.

Lemma keeps_brand_nextEditorFailed msg : keeps brandSelected (nextEditorFailed msg).
Proof. unfold nextEditorFailed. keeps_brand. Qed.
#[local] Hint Extern 0 (keeps _ ?c) =>
  keeps_known c onNextEditorEvents keeps_brand_onNextEditorEvents : keeps.
#[local] Hint Extern 0 (keeps _ ?c) =>
  keeps_known c nextEditorFailed keeps_brand_nextEditorFailed : keeps.

Lemma keeps_brand_nextEditor edits reply : keeps brandSelected (nextEditor edits reply).
Proof. unfold nextEditor. keeps_brand. Qed.

Lemma keeps_brand_generationFailed msg : keeps brandSelected (generationFailed msg).
Proof. unfold generationFailed. keeps_brand. Qed.
#[local] Hint Extern 0 (keeps _ ?c) =>
  keeps_known c generationFailed keeps_brand_generationFailed : keeps.

Lemma keeps_brand_generateFinalArticle reply : keeps brandSelected (generateFinalArticle reply).
Proof. unfold generateFinalArticle. keeps_brand. Qed.

Lemma keeps_brand_detectEditIntent input reply :
  keeps brandSelected (detectEditIntent input reply).
Proof. unfold detectEditIntent. keeps_brand. Qed.
#[local] Hint Extern 0 (keeps _ ?c) =>
  keeps_known c nextEditor keeps_brand_nextEditor : keeps.
#[local] Hint Extern 0 (keeps _ ?c) =>
  keeps_known c generateFinalArticle keeps_brand_generateFinalArticle : keeps.
#[local] Hint Extern 0 (keeps _ ?c) =>
  keeps_known c detectEditIntent keeps_brand_detectEditIntent : keeps.

Lemma keeps_brand_handleChatInput fuel input file reply :
  keeps brandSelected (handleChatInput fuel input file reply).
Proof. unfold handleChatInput. keeps_brand. Qed.
#[local] Hint Extern 0 (keeps _ ?c) =>
  keeps_known c handleChatInput keeps_brand_handleChatInput : keeps.

Lemma keeps_brand_perform c : keeps brandSelected (perform c).
Proof.
  destruct c; cbn [perform]; unfold approveParagraph, declineParagraph; keeps_brand.
Qed.

Lemma keeps_brand_deliver items : forall sess, keeps brandSelected (deliver items sess).
Proof. induction items as [|item rest IH]; intros sess; simpl; keeps_brand. Qed.

End BrandInvariant.

(** ** cancelWorkflow *)

Lemma cancelWorkflow_noop svc :
  step (state svc) = idle \/ step (state svc) = processing ->
  exec cancelWorkflow svc = svc /\ trace cancelWorkflow svc = [].
Proof.
  intros Hstep. unfold cancelWorkflow. run.
  destruct (decide (step (state svc) = idle)); [run; auto|].
  destruct (decide (step (state svc) = processing)); [run; auto|].
  destruct Hstep; contradiction.
Qed.

Lemma cancelWorkflow_resets svc :
  step (state svc) <> idle -> step (state svc) <> processing ->
  state (exec cancelWorkflow svc) = getDefaultState /\
  sequential (exec cancelWorkflow svc) = sequential svc /\
  isGeneratingFinal (exec cancelWorkflow svc) = isGeneratingFinal svc /\
  trace cancelWorkflow svc = [WorkflowCompletedNext; MessageNext cancelMessage].
Proof.
  intros Hidle Hproc. unfold cancelWorkflow. run.
  destruct (decide (step (state svc) = idle)); [contradiction|].
  destruct (decide (step (state svc) = processing)); [contradiction|].
  run. auto.
Qed.

(** C10: [cancelWorkflow] does nothing when the step is [idle] or
    [processing] (same service, nothing emitted); in every other step it
    sets the state to the default state, fires [workflowCompleted] and
    emits the cancellation prompt. *)
Theorem cancelWorkflow_spec (svc : Service) :
  (step (state svc) = idle \/ step (state svc) = processing ->
   exec cancelWorkflow svc = svc /\ trace cancelWorkflow svc = []) /\
  (step (state svc) <> idle -> step (state svc) <> processing ->
   state (exec cancelWorkflow svc) = getDefaultState /\
   sequential (exec cancelWorkflow svc) = sequential svc /\
   isGeneratingFinal (exec cancelWorkflow svc) = isGeneratingFinal svc /\
   trace cancelWorkflow svc = [WorkflowCompletedNext; MessageNext cancelMessage]).
Proof.
  split; [apply cancelWorkflow_noop | apply cancelWorkflow_resets].
Qed.

Lemma cancelWorkflow_spec_witness :
  (step (state initialService) = idle \/ step (state initialService) = processing) /\
  (step (state awaitingEditorsService) <> idle /\
   step (state awaitingEditorsService) <> processing) /\
  exec cancelWorkflow initialService = initialService /\
  state (exec cancelWorkflow awaitingEditorsService) = getDefaultState.
Proof.
  split; [left; reflexivity|].
  split; [split; discriminate|].
  split.
  - apply (proj1 (cancelWorkflow_spec initialService)). left; reflexivity.
  - apply (proj2 (cancelWorkflow_spec awaitingEditorsService)); discriminate.
Defined.

(** ** approveParagraph and declineParagraph *)

Lemma decideParagraphAt_insert k v edits p :
  edits !! k = Some p ->
  decideParagraphAt k v edits = <[k := withApproved (Some v) p]> edits.
Proof.
  intros Hk. unfold decideParagraphAt. apply list_eq. intros j.
  rewrite list_lookup_imap.
  destruct (decide (j = k)) as [->|Hne].
  - rewrite list_lookup_insert_eq by (eapply lookup_lt_Some; eassumption).
    rewrite Hk. simpl. destruct (decide (k = k)); [reflexivity|contradiction].
  - rewrite list_lookup_insert_ne by auto.
    destruct (edits !! j) as [q|]; simpl; [|reflexivity].
    destruct (decide (j = k)); [contradiction|reflexivity].
Qed.

Lemma findParagraph_None i edits :
  (forall p, p ∈ edits -> index p <> i) -> findParagraph i edits = None.
Proof.
  intros Hall. unfold findParagraph.
  destruct (list_find _ edits) as [[k p]|] eqn:Hfind; [|reflexivity].
  apply list_find_Some in Hfind as (Hk & Hp & _).
  exfalso. apply (Hall p); [|exact Hp].
  apply list_elem_of_lookup. eauto.
Qed.

Lemma findParagraph_first i edits k p :
  edits !! k = Some p -> index p = i ->
  (forall j q, (j < k)%nat -> edits !! j = Some q -> index q <> i) ->
  findParagraph i edits = Some k.
Proof.
  intros Hk Hp Hfirst. unfold findParagraph.
  assert (list_find (fun p => index p = i) edits = Some (k, p)) as ->; [|reflexivity].
  apply list_find_Some. split; [exact Hk|]. split; [exact Hp|].
  intros j q Hj Hlt. eapply Hfirst; eassumption.
Qed.

(** C9: [approveParagraph i] ([v = true]) and [declineParagraph i]
    ([v = false]) set [approved] of the first paragraph edit whose index is
    [i] to [v] and change nothing else: the other fields of that paragraph,
    the other paragraph edits, the other fields of the state and of the
    service stay as they were, and one update message is emitted; when no
    paragraph edit has index [i] the service is unchanged and nothing is
    emitted. *)
Theorem decideParagraph_frame (v : bool) (i : Z) (svc : Service) :
  let edits := paragraphEdits (state svc) in
  let c := if v then approveParagraph i else declineParagraph i in
  ((forall p, p ∈ edits -> index p <> i) ->
   exec c svc = svc /\ trace c svc = []) /\
  (forall k p,
     edits !! k = Some p -> index p = i ->
     (forall j q, (j < k)%nat -> edits !! j = Some q -> index q <> i) ->
     let p' := withApproved (Some v) p in
     let svc' := exec c svc in
     paragraphEdits (state svc') = <[k := p']> edits /\
     approved p' = Some v /\
     index p' = index p /\ original p' = original p /\ edited p' = edited p /\
     tags p' = tags p /\ autoApproved p' = autoApproved p /\
     editorial_feedback p' = editorial_feedback p /\
     displayOriginal p' = displayOriginal p /\ displayEdited p' = displayEdited p /\
     (forall j, j <> k -> paragraphEdits (state svc') !! j = edits !! j) /\
     step (state svc') = step (state svc) /\
     uploadedFile (state svc') = uploadedFile (state svc) /\
     selectedEditors (state svc') = selectedEditors (state svc) /\
     originalContent (state svc') = originalContent (state svc) /\
     sequential svc' = sequential svc /\
     isGeneratingFinal svc' = isGeneratingFinal svc /\
     trace c svc =
       [MessageNext (mkWorkflowMessage msg_update
          (paragraphEditsMessage (<[k := p']> edits) (sequential svc)))]).
Proof.
  intros edits c.
  assert (c = decideParagraph v i) as Hc by (destruct v; reflexivity).
  rewrite Hc. clear Hc c.
  unfold decideParagraph. split.
  - intros Hnone. run. fold edits. rewrite (findParagraph_None _ _ Hnone). run. auto.
  - intros k p Hk Hp Hfirst. cbv zeta. unfold emitParagraphUpdateMessage. run.
    fold edits. rewrite (findParagraph_first _ _ _ _ Hk Hp Hfirst). run.
    rewrite (decideParagraphAt_insert _ _ _ _ Hk).
    repeat split; try reflexivity.
    intros j Hne. apply list_lookup_insert_ne. auto.
Qed.

Lemma decideParagraph_frame_witness :
  (forall p, p ∈ paragraphEdits (state reviewService) -> index p <> 7) /\
  exec (approveParagraph 7) reviewService = reviewService /\
  paragraphEdits (state reviewService) !! 1%nat = Some (sampleParagraph 1 None) /\
  paragraphEdits (state (exec (declineParagraph 1) reviewService))
  = [sampleParagraph 0 None; sampleParagraph 1 (Some false)].
Proof.
  assert (forall p, p ∈ paragraphEdits (state reviewService) -> index p <> 7) as Hnone.
  { intros p Hp. simpl in Hp.
    apply elem_of_cons in Hp as [->|Hp]; [discriminate|].
    apply elem_of_cons in Hp as [->|Hp]; [discriminate|].
    apply elem_of_nil in Hp. contradiction. }
  split; [exact Hnone|].
  split; [apply (proj1 (decideParagraph_frame true 7 reviewService) Hnone)|].
  split; [reflexivity|].
  apply (proj2 (decideParagraph_frame false 1 reviewService) 1%nat (sampleParagraph 1 None)).
  - reflexivity.
  - reflexivity.
  - intros j q Hj Hq. destruct j as [|j]; [|lia].
    simpl in Hq. injection Hq as <-. discriminate.
Defined.

(** ** The brand alignment editor stays selected *)

Lemma ensureBrandAlignment_appends ids : appendsBrand ids (ensureBrandAlignment ids).
Proof.
  unfold appendsBrand, ensureBrandAlignment, includesStr.
  case_bool_decide; split; intros Hin; try reflexivity; contradiction.
Qed.

Lemma marked_editor_ids (b : Z -> bool) :
  map opt_id
    (List.filter selected
       (imap (fun i editor => setSelected (b (Z.of_nat i + 1)) editor) editorOptions))
  = (if b 1 then [lit "development"] else []) ++ (if b 2 then [lit "content"] else [])
      ++ (if b 3 then [lit "line"] else []) ++ (if b 4 then [lit "copy"] else [])
      ++ (if b 5 then [brand_alignment] else []).
Proof.
  unfold editorOptions. cbn [imap]. unfold compose.
  change (Z.of_nat 0 + 1) with 1. change (Z.of_nat 1 + 1) with 2.
  change (Z.of_nat 2 + 1) with 3. change (Z.of_nat 3 + 1) with 4.
  change (Z.of_nat 4 + 1) with 5.
  cbn [List.filter setSelected selected].
  destruct (b 1), (b 2), (b 3), (b 4), (b 5); vm_compute; reflexivity.
Qed.

Lemma kept_editor_ids (optedOut : list Z) :
  map opt_id
    (List.filter selected
       (imap (fun i editor =>
                let editorNum := Z.of_nat i + 1 in
                if jsstring_eqb (opt_id editor) brand_alignment then setSelected true editor
                else setSelected (negb (bool_decide (editorNum ∈ optedOut))) editor)
          editorOptions))
  = keptEditor optedOut 1 "development" ++ keptEditor optedOut 2 "content"
      ++ keptEditor optedOut 3 "line" ++ keptEditor optedOut 4 "copy"
      ++ [brand_alignment].
Proof.
  unfold editorOptions, keptEditor. cbn [imap]. unfold compose. cbv zeta.
  change (Z.of_nat 0 + 1) with 1. change (Z.of_nat 1 + 1) with 2.
  change (Z.of_nat 2 + 1) with 3. change (Z.of_nat 3 + 1) with 4.
  change (Z.of_nat 4 + 1) with 5.
  cbn [opt_id].
  repeat match goal with
         | |- context [jsstring_eqb ?a ?b] =>
             let v := eval vm_compute in (jsstring_eqb a b) in
             change (jsstring_eqb a b) with v
         end.
  cbn [List.filter setSelected selected].
  destruct (bool_decide (1 ∈ optedOut)), (bool_decide (2 ∈ optedOut)),
    (bool_decide (3 ∈ optedOut)), (bool_decide (4 ∈ optedOut)); vm_compute; reflexivity.
Qed.

Section BrandTheorem.
Context `{External}.

Lemma reachable_brandSelected svc : reachable svc -> brandSelected (state svc).
Proof.
  induction 1 as [|svc c _ IH].
  - apply brandSelected_default.
  - apply keeps_brand_perform, IH.
Qed.

Lemma selection_beginWorkflowWithEditors ids svc :
  let known := List.filter (includesStr (map opt_id editorOptions)) ids in
  let stored := selectedEditors (state (exec (beginWorkflowWithEditors ids) svc)) in
  (known <> [] -> appendsBrand known stored) /\
  (known = [] -> stored = selectedEditors getDefaultState).
Proof.
  intros known stored. subst known stored. unfold beginWorkflowWithEditors, beginWorkflow.
  destruct ids as [|i ids]; [run; split; [intros Hc; contradiction | reflexivity]|].
  destruct (List.filter _ (i :: ids)) as [|k known] eqn:Hknown; run.
  - split; [intros Hc; contradiction | reflexivity].
  - split; [|discriminate]. intros _. apply ensureBrandAlignment_appends.
Qed.

Lemma selection_handleNumericSelection r svc :
  let incoming :=
    chosenEditor r 1 "development" ++ chosenEditor r 2 "content"
      ++ chosenEditor r 3 "line" ++ chosenEditor r 4 "copy"
      ++ chosenEditor r 5 "brand-alignment" in
  let after := exec (handleNumericSelection r) svc in
  (invalidIndices r = [] -> selectedIndices r <> [] ->
   appendsBrand incoming (selectedEditors (state after))) /\
  (invalidIndices r <> [] \/ selectedIndices r = [] -> after = svc).
Proof.
  intros incoming after. subst incoming after.
  unfold handleNumericSelection, showInvalidSelectionError. split.
  - intros Hinv Hsel. rewrite Hinv.
    destruct (selectedIndices r) as [|n sel] eqn:Hsels; [contradiction|]. run.
    cbn [selectedEditors withSelectedEditors]. unfold chosenEditor. rewrite Hsels.
    rewrite (marked_editor_ids (fun k => includesNum (n :: sel) (Finite k))).
    apply ensureBrandAlignment_appends.
  - intros Hcase. destruct (invalidIndices r) as [|n inv] eqn:Hinv.
    + destruct Hcase as [Hc|Hsel]; [contradiction|]. rewrite Hsel.
      destruct (hasInput r); run; reflexivity.
    + run. reflexivity.
Qed.

Lemma selection_handleOptOutAndProceed optedOut sections svc :
  let incoming :=
    keptEditor optedOut 1 "development" ++ keptEditor optedOut 2 "content"
      ++ keptEditor optedOut 3 "line" ++ keptEditor optedOut 4 "copy"
      ++ [brand_alignment] in
  appendsBrand incoming
    (selectedEditors (state (exec (handleOptOutAndProceed optedOut sections) svc))).
Proof.
  intros incoming. subst incoming. unfold handleOptOutAndProceed. run.
  rewrite kept_editor_ids.
  destruct (optedOutNames optedOut); [|run; apply ensureBrandAlignment_appends].
  destruct (List.filter _ _); run; apply ensureBrandAlignment_appends.
Qed.

Lemma selection_proceedToContentStep svc :
  appendsBrand (selectedEditors (state svc))
    (selectedEditors (state (exec proceedToContentStep svc))).
Proof.
  unfold proceedToContentStep. run.
  pose proof (ensureBrandAlignment_elem (selectedEditors (state svc))) as Hin.
  pose proof (ensureBrandAlignment_appends (selectedEditors (state svc))) as Happ.
  destruct (ensureBrandAlignment _); [apply elem_of_nil in Hin; contradiction|].
  run. exact Happ.
Qed.

Lemma selection_handleEditorSelection ids svc :
  (step (state svc) = awaiting_editors ->
   appendsBrand ids (selectedEditors (state (exec (handleEditorSelection ids) svc)))) /\
  (step (state svc) <> awaiting_editors -> exec (handleEditorSelection ids) svc = svc).
Proof.
  split.
  - intros Hstep. unfold handleEditorSelection. run.
    destruct (decide _); [|contradiction].
    pose proof (ensureBrandAlignment_elem ids) as Hin.
    pose proof (ensureBrandAlignment_appends ids) as Happ.
    destruct (ensureBrandAlignment ids) as [|x xs] eqn:He;
      [apply elem_of_nil in Hin; contradiction|].
    run.
    destruct (selection_proceedToContentStep
                (mkService (withSelectedEditors (x :: xs) (state svc)) (sequential svc)
                   (isGeneratingFinal svc))) as [Hsame _].
    cbn [state selectedEditors withSelectedEditors] in Hsame.
    unfold withSelectedEditors in *. rewrite (Hsame Hin). exact Happ.
  - intros Hstep. unfold handleEditorSelection. run.
    destruct (decide _); [contradiction|]. run. reflexivity.
Qed.

(** C8: in every reachable state of the service the selection holds
    ['brand-alignment']: the default state has it, and each operation that
    replaces the selection stores the incoming one with ['brand-alignment']
    appended when the incoming one lacks it.  The incoming selection of
    [beginWorkflowWithEditors] is the ids that name an editor (with none it
    stores the default selection); that of [handleNumericSelection] the
    editors whose numbers are chosen (an input that is rejected changes
    nothing); that of [handleOptOutAndProceed] the editors not opted out,
    where the brand alignment editor cannot be opted out; that of
    [proceedToContentStep] the selection of the state; that of
    [handleEditorSelection] the ids given (outside [awaiting_editors] it
    changes nothing). *)
Theorem brand_alignment_always_selected :
  brand_alignment ∈ selectedEditors getDefaultState /\
  (forall svc, reachable svc -> brand_alignment ∈ selectedEditors (state svc)) /\
  (forall ids svc,
     let known := List.filter (includesStr (map opt_id editorOptions)) ids in
     let stored := selectedEditors (state (exec (beginWorkflowWithEditors ids) svc)) in
     (known <> [] -> appendsBrand known stored) /\
     (known = [] -> stored = selectedEditors getDefaultState)) /\
  (forall r svc,
     let incoming :=
       chosenEditor r 1 "development" ++ chosenEditor r 2 "content"
         ++ chosenEditor r 3 "line" ++ chosenEditor r 4 "copy"
         ++ chosenEditor r 5 "brand-alignment" in
     let after := exec (handleNumericSelection r) svc in
     (invalidIndices r = [] -> selectedIndices r <> [] ->
      appendsBrand incoming (selectedEditors (state after))) /\
     (invalidIndices r <> [] \/ selectedIndices r = [] -> after = svc)) /\
  (forall optedOut sections svc,
     let incoming :=
       keptEditor optedOut 1 "development" ++ keptEditor optedOut 2 "content"
         ++ keptEditor optedOut 3 "line" ++ keptEditor optedOut 4 "copy"
         ++ [brand_alignment] in
     appendsBrand incoming
       (selectedEditors (state (exec (handleOptOutAndProceed optedOut sections) svc)))) /\
  (forall svc,
     appendsBrand (selectedEditors (state svc))
       (selectedEditors (state (exec proceedToContentStep svc)))) /\
  (forall ids svc,
     (step (state svc) = awaiting_editors ->
      appendsBrand ids (selectedEditors (state (exec (handleEditorSelection ids) svc)))) /\
     (step (state svc) <> awaiting_editors -> exec (handleEditorSelection ids) svc = svc)).
Proof.
  split; [apply brandSelected_default|].
  split; [apply reachable_brandSelected|].
  split; [apply selection_beginWorkflowWithEditors|].
  split; [apply selection_handleNumericSelection|].
  split; [apply selection_handleOptOutAndProceed|].
  split; [apply selection_proceedToContentStep|].
  apply selection_handleEditorSelection.
Qed.

End BrandTheorem.

Lemma brand_alignment_always_selected_witness :
  let svc := exec (perform (H := sampleExternal)
                     (CallHandleEditorSelection [lit "copy"]))
               (exec (perform (H := sampleExternal) CallBeginWorkflow) initialService) in
  reachable (H := sampleExternal) svc /\ brand_alignment ∈ selectedEditors (state svc) /\
  selectedEditors (state svc) = [lit "copy"] ++ [brand_alignment].
Proof.
  intros svc.
  assert (reachable (H := sampleExternal) svc) as Hreach.
  { subst svc. apply reach_call, reach_call, reach_initial. }
  destruct (brand_alignment_always_selected (H := sampleExternal))
    as (_ & Hkept & _ & _ & _ & _ & Hselection).
  split; [exact Hreach|]. split; [exact (Hkept svc Hreach)|].
  destruct (Hselection [lit "copy"]
              (exec (perform (H := sampleExternal) CallBeginWorkflow) initialService))
    as [Hstored _].
  apply (Hstored eq_refl).
  intros Hin. apply list_elem_of_singleton in Hin. vm_compute in Hin. discriminate Hin.
Defined.

(** ** The steps of the workflow *)

Section Steps.
Context `{External}.

Lemma step_beginWorkflow svc : step (state (exec beginWorkflow svc)) = awaiting_editors.
Proof. unfold beginWorkflow. run. reflexivity. Qed.

Lemma step_beginWorkflowWithEditors svc ids i :
  i ∈ ids -> i ∈ map opt_id editorOptions ->
  step (state (exec (beginWorkflowWithEditors ids) svc)) = awaiting_content.
Proof.
  intros Hi Hvalid. unfold beginWorkflowWithEditors.
  destruct ids as [|x xs]; [apply elem_of_nil in Hi; contradiction|].
  assert (i ∈ List.filter (includesStr (map opt_id editorOptions)) (x :: xs)) as Hin.
  { apply list_elem_of_In, filter_In. split; [apply list_elem_of_In, Hi|].
    unfold includesStr. apply bool_decide_eq_true. exact Hvalid. }
  destruct (List.filter _ (x :: xs)); [apply elem_of_nil in Hin; contradiction|].
  run. reflexivity.
Qed.

Lemma step_proceedToContentStep svc :
  step (state (exec proceedToContentStep svc)) = awaiting_content.
Proof.
  unfold proceedToContentStep. run.
  pose proof (ensureBrandAlignment_elem (selectedEditors (state svc))) as Hin.
  destruct (ensureBrandAlignment _); [apply elem_of_nil in Hin; contradiction|].
  run. reflexivity.
Qed.

Lemma state_completeWorkflow svc : state (exec completeWorkflow svc) = getDefaultState.
Proof. unfold completeWorkflow. run. reflexivity. Qed.

Lemma state_processingFailed svc : state (exec processingFailed svc) = getDefaultState.
Proof. unfold processingFailed. run. apply state_completeWorkflow. Qed.

Lemma step_processContent text ids names svc :
  state (exec (processContent text ids names) svc) = state svc.
Proof. unfold processContent. run. reflexivity. Qed.

Lemma processWithContent_steps svc :
  match availableContent (state svc) with
  | Some text =>
      if truthy (trim text)
      then step (state (exec processWithContent svc)) = processing
      else state (exec processWithContent svc) = getDefaultState
  | None => state (exec processWithContent svc) = getDefaultState
  end.
Proof.
  unfold processWithContent, availableContent. run.
  destruct (uploadedFile (state svc)) as [f|].
  - destruct (truthy (originalContent (state svc))); cbn [negb fmap option_fmap option_map].
    + run. destruct (truthy (trim _)); cbn [negb]; run.
      * rewrite step_processContent. reflexivity.
      * apply state_processingFailed.
    + destruct (extractFileText f) as [text|]; cbn [fmap option_fmap option_map]; run.
      * destruct (truthy (trim _)); cbn [negb]; run.
        -- rewrite step_processContent. reflexivity.
        -- apply state_processingFailed.
      * apply state_processingFailed.
  - run. destruct (truthy (trim _)); cbn [negb]; run.
    + rewrite step_processContent. reflexivity.
    + apply state_processingFailed.
Qed.

Lemma handleFileUpload_elsewhere svc file :
  step (state svc) <> awaiting_content ->
  exec (handleFileUpload file) svc = svc /\ trace (handleFileUpload file) svc = [].
Proof.
  intros Hstep. unfold handleFileUpload. run.
  destruct (decide _); [contradiction|]. run. auto.
Qed.

Lemma handleEditorSelection_elsewhere svc ids :
  step (state svc) <> awaiting_editors ->
  exec (handleEditorSelection ids) svc = svc /\ trace (handleEditorSelection ids) svc = [].
Proof.
  intros Hstep. unfold handleEditorSelection. run.
  destruct (decide _); [contradiction|]. run. auto.
Qed.

End Steps.

(** ** The stream reducer: progress *)

Section Progress.
Context `{External}.

Lemma numOr_zero c : numOr (Val c) 0 = c.
Proof. unfold numOr. destruct (Z.eqb_spec c 0); congruence. Qed.

Lemma markProgress_lookup c t entries k e0 :
  entries !! k = Some e0 ->
  exists e,
    markProgress c t entries !! k = Some e /\
    editorId e = editorId e0 /\ editorName e = editorName e0 /\
    (Z.of_nat k + 1 < c -> status e = st_completed) /\
    (Z.of_nat k + 1 = c -> status e = st_processing) /\
    (c < Z.of_nat k + 1 -> status e = st_pending).
Proof.
  intros Hk. unfold markProgress. rewrite list_lookup_imap, Hk. simpl.
  eexists; split; [reflexivity|].
  destruct (Z.ltb_spec (Z.of_nat k + 1) c); [simpl; repeat split; intros; try reflexivity; lia|].
  destruct (Z.eqb_spec (Z.of_nat k + 1) c); simpl; repeat split; intros; try reflexivity; lia.
Qed.

(** C7: on an [editor_progress] event whose [current] is [c], the progress
    message that is emitted lists one entry per editor of the run, in the
    same order: [completed] at the 1-based positions below [c],
    [processing] at position [c], [pending] above. *)
Theorem editor_progress_marks (data : EventData) (c : Z) (sess : Session) (svc : Service) :
  ev_type data = editor_progress ->
  ev_current data = Val c ->
  exists m entries,
    trace (onNext (ObjectItem data) sess) svc
    = [MessageNext (mkWorkflowMessage msg_prompt m)] /\
    (meta_editorProgressList <$> editWorkflow m) = Some (Some entries) /\
    length entries = length (editorProgressList sess) /\
    forall k e0, editorProgressList sess !! k = Some e0 ->
      exists e,
        entries !! k = Some e /\ editorId e = editorId e0 /\
        (Z.of_nat k + 1 < c -> status e = st_completed) /\
        (Z.of_nat k + 1 = c -> status e = st_processing) /\
        (c < Z.of_nat k + 1 -> status e = st_pending).
Proof.
  intros Htype Hcur. unfold onNext, onEvent. rewrite Htype, Hcur, numOr_zero. run.
  eexists _, _. split; [reflexivity|]. split; [reflexivity|].
  split; [apply length_imap|].
  intros k e0 Hk.
  destruct (markProgress_lookup c
              (numOr (ev_total data) (Z.of_nat (length (selectedIds sess))))
              _ k e0 Hk) as (e & He & Hid & _ & Hlt & Heq & Hgt).
  exists e. auto.
Qed.

End Progress.

Lemma editor_progress_marks_witness :
  ev_type (progressEvent 2) = editor_progress /\
  ev_current (progressEvent 2) = Val 2 /\
  exists m entries,
    trace (onNext (H := sampleExternal) (ObjectItem (progressEvent 2)) sampleSession)
      initialService
    = [MessageNext (mkWorkflowMessage msg_prompt m)] /\
    (meta_editorProgressList <$> editWorkflow m) = Some (Some entries) /\
    length entries = length (editorProgressList sampleSession).
Proof.
  split; [reflexivity|]. split; [reflexivity|].
  destruct (editor_progress_marks (H := sampleExternal) (progressEvent 2) 2 sampleSession
              initialService eq_refl eq_refl) as (m & entries & Ht & Hm & Hlen & _).
  exists m, entries. auto.
Defined.

(** ** The stream reducer: paragraph edits *)

Section ParagraphEdits.
Context `{External}.

Lemma paragraphAt_guard paragraphs i :
  (if (i <? Z.of_nat (length paragraphs)) && (0 <=? i)
   then trim (default [] (paragraphs !! Z.to_nat i)) else [])
  = paragraphAt paragraphs i.
Proof.
  unfold paragraphAt.
  destruct (Z.leb_spec 0 i) as [Hle|Hlt].
  - rewrite andb_true_r. destruct (decide (0 <= i)); [|lia].
    destruct (Z.ltb_spec i (Z.of_nat (length paragraphs))) as [Hin|Hout].
    + destruct (paragraphs !! Z.to_nat i) eqn:Hl; [reflexivity|].
      apply lookup_ge_None in Hl. exfalso. lia.
    + rewrite (proj2 (lookup_ge_None paragraphs (Z.to_nat i))) by lia. reflexivity.
  - rewrite andb_false_r. destruct (decide (0 <= i)); [lia|reflexivity].
Qed.

Lemma toParagraphEdit_describes names paragraphs k edit :
  describesEntry paragraphs k edit (toParagraphEdit names paragraphs k edit).
Proof.
  unfold describesEntry, toParagraphEdit.
  cbn [index original edited autoApproved approved].
  rewrite paragraphAt_guard.
  split; [reflexivity|]. split.
  { unfold orElse, trimmedOrEmpty. destruct (raw_original edit); reflexivity. }
  split; [reflexivity|]. split; [reflexivity|].
  destruct (raw_autoApproved edit) as [| |[|]]; reflexivity.
Qed.

Lemma resolveOriginalContent_paragraphs data s :
  (if truthy (resolveOriginalContent data s)
   then splitIntoParagraphs (resolveOriginalContent data s) else [])
  = eventParagraphs data s.
Proof.
  unfold eventParagraphs, resolveOriginalContent, strOr, orElse.
  destruct (ev_original_content data); reflexivity.
Qed.

Lemma toParagraphEdits_describes names data s edits :
  describesEntries (eventParagraphs data s) edits (toParagraphEdits names data s edits).
Proof.
  unfold toParagraphEdits. cbv zeta. rewrite resolveOriginalContent_paragraphs.
  split; [apply length_imap|].
  intros k edit Hk. rewrite list_lookup_imap, Hk. simpl.
  eexists; split; [reflexivity|]. apply toParagraphEdit_describes.
Qed.

(** What the three places that read a [paragraph_edits] array store. *)
Lemma onEvent_editor_complete_edits data sess svc edits :
  ev_type data = editor_complete -> ev_paragraph_edits data = Val edits ->
  paragraphEdits (state (exec (onEvent data sess) svc))
  = toParagraphEdits (editorDisplayNames (selectedIds sess)) data (state svc) edits.
Proof.
  intros Htype Hedits. unfold onEvent. rewrite Htype, Hedits. run.
  destruct (truthyOpt (ev_original_content data)); run; reflexivity.
Qed.

Lemma onEvent_final_complete_edits data sess svc edits :
  ev_type data = final_complete -> ev_paragraph_edits data = Val edits ->
  paragraphEdits (state (exec (onEvent data sess) svc))
  = toParagraphEdits (editorDisplayNames (selectedIds sess)) data (state svc) edits.
Proof.
  intros Htype Hedits. unfold onEvent. rewrite Htype, Hedits. run.
  match goal with
  | |- context [exec (dispatchResultsToChat ?a ?b ?c ?d) ?s] =>
      rewrite <- (keeps_dispatchResultsToChat (eq (state s)) a b c d s eq_refl)
  end.
  reflexivity.
Qed.

Lemma onNextEditorEvent_editor_complete_edits data svc edits :
  ev_type data = editor_complete -> ev_paragraph_edits data = Val edits ->
  paragraphEdits (state (exec (onNextEditorEvent data) svc))
  = toParagraphEdits (editorDisplayNames (selectedEditors (state svc))) data (state svc) edits.
Proof.
  intros Htype Hedits. unfold onNextEditorEvent. rewrite Htype, Hedits. run.
  destruct (truthyOpt (ev_original_content data)); run; reflexivity.
Qed.

(** C1: an [editor_complete] or [final_complete] event with a
    [paragraph_edits] array leaves in the state one paragraph edit per
    entry, in the order of the array, and so does an [editor_complete]
    event read by [nextEditor]; each has the index of its entry, or the
    entry's position when the entry has none; as original the trimmed
    original of the entry when that is not empty, otherwise the trimmed
    paragraph at that index of [splitIntoParagraphs] of the event's (or the
    stored) original content, empty when there is no such paragraph;
    [autoApproved] as the entry has it, otherwise whether
    [validateStringEquality] holds of original and edited; [approved] true
    when [autoApproved] is true, otherwise as the entry has it, otherwise
    [null]. *)
Theorem paragraph_edits_of_event (data : EventData) (edits : list RawEdit)
    (sess : Session) (svc : Service) :
  ev_paragraph_edits data = Val edits ->
  (ev_type data = editor_complete \/ ev_type data = final_complete ->
   describesEntries (eventParagraphs data (state svc)) edits
     (paragraphEdits (state (exec (onNext (ObjectItem data) sess) svc)))) /\
  (ev_type data = editor_complete ->
   describesEntries (eventParagraphs data (state svc)) edits
     (paragraphEdits (state (exec (onNextEditorEvent data) svc)))).
Proof.
  intros Hedits. split.
  - intros [Htype|Htype]; cbn [onNext].
    + rewrite (onEvent_editor_complete_edits _ _ _ _ Htype Hedits).
      apply toParagraphEdits_describes.
    + rewrite (onEvent_final_complete_edits _ _ _ _ Htype Hedits).
      apply toParagraphEdits_describes.
  - intros Htype. rewrite (onNextEditorEvent_editor_complete_edits _ _ _ Htype Hedits).
    apply toParagraphEdits_describes.
Qed.

End ParagraphEdits.

Lemma paragraph_edits_of_event_witness :
  ev_paragraph_edits sampleCompleteEvent = Val [sampleRawEdit] /\
  ev_type sampleCompleteEvent = editor_complete /\
  describesEntries (H := sampleExternal)
    (eventParagraphs (H := sampleExternal) sampleCompleteEvent (state initialService))
    [sampleRawEdit]
    (paragraphEdits
       (state (exec (onNext (H := sampleExternal) (ObjectItem sampleCompleteEvent)
                       sampleSession) initialService))) /\
  original <$> paragraphEdits
       (state (exec (onNext (H := sampleExternal) (ObjectItem sampleCompleteEvent)
                       sampleSession) initialService))
  = [lit "The first paragraph."].
Proof.
  split; [reflexivity|]. split; [reflexivity|]. split.
  - apply (proj1 (paragraph_edits_of_event (H := sampleExternal) sampleCompleteEvent
                    [sampleRawEdit] sampleSession initialService eq_refl)).
    left. reflexivity.
  - vm_compute. reflexivity.
Defined.

(** ** The stream reducer: the comparison fallback *)

Lemma returns_ret {A} (P : A -> Prop) a : P a -> returns P (mret a).
Proof. intros Ha svc. rewrite value_ret. exact Ha. Qed.

Lemma returns_bind {A B} (P : B -> Prop) (c : M A) (k : A -> M B) :
  (forall a, returns P (k a)) -> returns P (c ≫= k).
Proof. intros Hk svc. rewrite value_bind. apply Hk. Qed.

Ltac returns_step :=
  lazymatch goal with
  | |- returns _ (mret _) => apply returns_ret
  | |- returns _ (mbind _ _) => apply returns_bind; intros ?
  | |- returns _ (match ?x with _ => _ end) => destruct x
  end.

Section Comparison.
Context `{External}.

Lemma returns_onNext_selectedIds item sess :
  returns (fun sess' => selectedIds sess' = selectedIds sess) (onNext item sess).
Proof.
  destruct item as [data|s]; cbn [onNext]; [unfold onEvent|];
    repeat returns_step; reflexivity.
Qed.

Lemma deliver_selectedIds items : forall sess svc,
  selectedIds (value (deliver items sess) svc) = selectedIds sess.
Proof.
  induction items as [|item rest IH]; intros sess svc; cbn [deliver].
  - rewrite value_ret. reflexivity.
  - rewrite value_bind, IH. apply returns_onNext_selectedIds.
Qed.

Lemma keeps_onNext_stable I item sess : reducerStable I -> keeps I (onNext item sess).
Proof.
  intros [Hcontent Hedits].
  destruct item as [data|s]; cbn [onNext]; [unfold onEvent|];
    repeat first
      [ apply keeps_dispatchResultsToChat
      | keeps_step
      | apply keeps_updateState; auto ].
Qed.

Lemma keeps_deliver_stable I items : reducerStable I ->
  forall sess, keeps I (deliver items sess).
Proof.
  intros HI. induction items as [|item rest IH]; intros sess; cbn [deliver].
  - apply keeps_ret.
  - apply keeps_bind; [apply keeps_onNext_stable, HI | intros sess'; apply IH].
Qed.

Lemma deliver_selectedEditors items sess svc :
  selectedEditors (state (exec (deliver items sess) svc)) = selectedEditors (state svc).
Proof.
  apply (keeps_deliver_stable (fun s => selectedEditors s = selectedEditors (state svc))).
  - split; intros v s Hs; exact Hs.
  - reflexivity.
Qed.

(** A run that [processWithContent] starts keeps the selection of the
    state and closes over it, with the brand alignment editor ensured. *)
Lemma processWithContent_started svc sess :
  value processWithContent svc = Some sess ->
  selectedIds sess = ensureBrandAlignment (selectedEditors (state svc)) /\
  selectedEditors (state (exec processWithContent svc)) = selectedEditors (state svc).
Proof.
  unfold processWithContent, processingFailed, processContent. run.
  destruct (uploadedFile (state svc)) as [f|].
  - destruct (truthy (originalContent (state svc))); cbn [negb].
    + run. destruct (truthy (trim _)); cbn [negb]; run; [|discriminate].
      intros [= <-]. split; reflexivity.
    + destruct (extractFileText f) as [text|]; run; [|discriminate].
      destruct (truthy (trim _)); cbn [negb]; run; [|discriminate].
      intros [= <-]. split; reflexivity.
  - run. destruct (truthy (trim _)); cbn [negb]; run; [|discriminate].
    intros [= <-]. split; reflexivity.
Qed.

Lemma onEvent_final_complete_comparison data sess svc orig rev :
  ev_type data = final_complete ->
  (forall edits, ev_paragraph_edits data <> Val edits) ->
  ev_final_revised data = Val rev -> truthy rev = true ->
  ev_original_content data = Val orig -> truthy orig = true ->
  paragraphEdits (state (exec (onEvent data sess) svc))
  = createParagraphEditsFromComparison orig rev (editorDisplayNames (selectedIds sess)).
Proof.
  intros Htype Hnone Hrev Hrevt Horig Horigt. unfold onEvent. rewrite Htype. run.
  match goal with
  | |- context [exec (dispatchResultsToChat ?a ?b ?c ?d) ?s] =>
      rewrite <- (keeps_dispatchResultsToChat (eq (state s)) a b c d s eq_refl)
  end.
  cbn [state paragraphEdits withOriginalContent withParagraphEdits].
  destruct (ev_paragraph_edits data) as [| |edits]; [| |destruct (Hnone edits); reflexivity];
    rewrite Hrev, Horig; cbn [truthyOpt strOr]; unfold orElse;
    rewrite Hrevt, Horigt; reflexivity.
Qed.

(** C6, as the code has it: a [final_complete] event that brings no
    [paragraph_edits] array but a non-empty [final_revised] and
    [original_content] stores exactly [createParagraphEditsFromComparison]
    of that original content, that revised content and the display names
    of the editor ids of the run: the [selectedIds] that the callbacks of
    the subscription close over, whatever the selection of the state is
    when the event arrives.  No event changes these ids, and
    [processWithContent] takes them from the selection of the state it is
    called in, with the brand alignment editor appended when missing. *)
Theorem final_complete_comparison (sess : Session) (svc : Service) (data : EventData)
    (orig rev : jsstring) :
  ev_type data = final_complete ->
  (forall edits, ev_paragraph_edits data <> Val edits) ->
  ev_final_revised data = Val rev -> truthy rev = true ->
  ev_original_content data = Val orig -> truthy orig = true ->
  paragraphEdits (state (exec (onNext (ObjectItem data) sess) svc))
  = createParagraphEditsFromComparison orig rev
      (map (fun editorId_ => getEditorDisplayName (Val editorId_)) (selectedIds sess)) /\
  (forall item svc', selectedIds (value (onNext item sess) svc') = selectedIds sess) /\
  (forall svc0, value processWithContent svc0 = Some sess ->
                appendsBrand (selectedEditors (state svc0)) (selectedIds sess)).
Proof.
  intros Htype Hnone Hrev Hrevt Horig Horigt.
  split; [|split].
  - cbn [onNext].
    exact (onEvent_final_complete_comparison _ _ _ _ _ Htype Hnone Hrev Hrevt Horig Horigt).
  - intros item svc'. apply returns_onNext_selectedIds.
  - intros svc0 Hstart. rewrite (proj1 (processWithContent_started _ _ Hstart)).
    apply ensureBrandAlignment_appends.
Qed.

End Comparison.

(** The editors of the run are not always the editors selected in the
    state: [beginWorkflow] during the run of [processingService] resets the
    selection to the brand alignment editor alone, and the [final_complete]
    event of the run still stores the comparison made with the editors the
    run was started with. *)
Lemma final_complete_comparison_counterexample :
  reachable (H := sampleExternal) restartedService /\
  value (handleFileUpload (H := sampleExternal) draftFile) awaitingContentService
  = Some uploadSession /\
  selectedIds uploadSession = [lit "copy"; brand_alignment] /\
  selectedEditors (state restartedService) = [brand_alignment] /\
  reachable (H := sampleExternal)
    (exec (perform (H := sampleExternal) (StreamNext (ObjectItem fallbackEvent) uploadSession))
       restartedService) /\
  paragraphEdits
    (state (exec (onNext (H := sampleExternal) (ObjectItem fallbackEvent) uploadSession)
              restartedService))
  <> createParagraphEditsFromComparison (External := sampleExternal)
       (lit "An original text.") (lit "A revised text.")
       (map (fun editorId_ => getEditorDisplayName (External := sampleExternal) (Val editorId_))
          (selectedEditors (state restartedService))).
Proof.
  assert (reachable (H := sampleExternal) restartedService) as Hreach.
  { unfold restartedService, processingService.
    apply reach_call, reach_call, reach_call, reach_initial. }
  split; [exact Hreach|].
  split; [vm_compute; reflexivity|].
  split; [vm_compute; reflexivity|].
  split; [vm_compute; reflexivity|].
  split; [apply reach_call, Hreach|].
  vm_compute. discriminate.
Qed.

Lemma final_complete_comparison_witness :
  (forall edits, ev_paragraph_edits fallbackEvent <> Val edits) /\
  paragraphEdits
    (state (exec (onNext (H := sampleExternal) (ObjectItem fallbackEvent) uploadSession)
              restartedService))
  = createParagraphEditsFromComparison (External := sampleExternal)
      (lit "An original text.") (lit "A revised text.") [lit "copy"; brand_alignment].
Proof.
  assert (forall edits, ev_paragraph_edits fallbackEvent <> Val edits) as Hnone
    by (intros edits; discriminate).
  split; [exact Hnone|].
  rewrite (proj1 (final_complete_comparison (H := sampleExternal) uploadSession
                    restartedService fallbackEvent (lit "An original text.")
                    (lit "A revised text.") eq_refl Hnone eq_refl eq_refl eq_refl eq_refl)).
  vm_compute. reflexivity.
Defined.

(** ** Undecided paragraphs block the next editor and the final article *)

Lemma allParagraphsDecidedSpec_undecided ps p :
  p ∈ ps -> approved p = None -> allParagraphsDecidedSpec ps = false.
Proof.
  intros Hin Hp. unfold allParagraphsDecidedSpec.
  apply not_true_is_false. intros Hall.
  rewrite forallb_forall in Hall.
  specialize (Hall p (proj1 (list_elem_of_In _ _) Hin)).
  rewrite Hp in Hall. discriminate.
Qed.

Section Undecided.
Context `{External}.

Lemma generateFinalArticle_undecided svc reply :
  allParagraphsDecided (paragraphEdits (state svc)) = false ->
  exec (generateFinalArticle reply) svc = svc /\
  trace (generateFinalArticle reply) svc = [MessageNext decideBeforeFinalMessage].
Proof.
  intros Hno. unfold generateFinalArticle. run. rewrite Hno. cbn [negb]. run. auto.
Qed.

Lemma nextEditor_undecided svc edits reply :
  allParagraphsDecided (paragraphEdits (state svc)) = false ->
  exec (nextEditor edits reply) svc = svc /\
  trace (nextEditor edits reply) svc
  = [MessageNext (match threadId (sequential svc) with
                  | None => noThreadMessage
                  | Some _ => decideBeforeNextMessage
                  end)].
Proof.
  intros Hno. unfold nextEditor. run.
  destruct (threadId (sequential svc)); run; [rewrite Hno; cbn [negb]; run|]; auto.
Qed.

(** C2: when some paragraph edit of the state has [approved] equal to
    [null] (so that [allParagraphsDecided] is false), [generateFinalArticle]
    and [nextEditor] emit one error prompt and nothing else (no request to
    the backend), and leave the service, with its workflow state, as it
    was. *)
Theorem undecided_paragraphs_block (svc : Service) (p : ParagraphEdit)
    (reply : FinalReply) (edits : list ParagraphEdit) (nextReply : NextReply) :
  (forall ps q, q ∈ ps -> approved q = None -> allParagraphsDecided ps = false) ->
  p ∈ paragraphEdits (state svc) -> approved p = None ->
  (exec (generateFinalArticle reply) svc = svc /\
   trace (generateFinalArticle reply) svc = [MessageNext decideBeforeFinalMessage]) /\
  (exec (nextEditor edits nextReply) svc = svc /\
   exists m, trace (nextEditor edits nextReply) svc = [MessageNext m] /\
             msg_type m = msg_prompt /\
             (m = decideBeforeNextMessage \/ m = noThreadMessage)) /\
  existsb isBackendRequest (trace (generateFinalArticle reply) svc) = false /\
  existsb isBackendRequest (trace (nextEditor edits nextReply) svc) = false.
Proof.
  intros Hspec Hin Hp.
  pose proof (Hspec _ _ Hin Hp) as Hno.
  destruct (generateFinalArticle_undecided svc reply Hno) as [Hg1 Hg2].
  destruct (nextEditor_undecided svc edits nextReply Hno) as [Hn1 Hn2].
  rewrite Hg2, Hn2.
  split; [split; [exact Hg1 | reflexivity]|].
  split; [|split; reflexivity].
  split; [exact Hn1|].
  destruct (threadId (sequential svc)).
  - exists decideBeforeNextMessage. split; [reflexivity|]. split; [reflexivity|].
    left. reflexivity.
  - exists noThreadMessage. split; [reflexivity|]. split; [reflexivity|].
    right. reflexivity.
Qed.

End Undecided.

Lemma undecided_paragraphs_block_witness :
  (forall ps q, q ∈ ps -> approved q = None ->
     allParagraphsDecided (External := sampleExternal) ps = false) /\
  sampleParagraph 1 None ∈ paragraphEdits (state reviewService) /\
  approved (sampleParagraph 1 None) = None /\
  exec (generateFinalArticle (H := sampleExternal) (FinalJson (Val (lit "text"))))
    reviewService = reviewService /\
  exec (nextEditor (H := sampleExternal) [] NextNoBody) reviewService = reviewService.
Proof.
  assert (sampleParagraph 1 None ∈ paragraphEdits (state reviewService)) as Hin.
  { simpl. apply elem_of_cons. right. apply elem_of_cons. left. reflexivity. }
  pose proof (undecided_paragraphs_block (H := sampleExternal) reviewService
                (sampleParagraph 1 None) (FinalJson (Val (lit "text"))) [] NextNoBody
                allParagraphsDecidedSpec_undecided Hin eq_refl) as (Hg & Hn & _).
  split; [exact allParagraphsDecidedSpec_undecided|].
  split; [exact Hin|]. split; [reflexivity|].
  split; [exact (proj1 Hg) | exact (proj1 Hn)].
Defined.

(** ** The selection parser *)

Lemma jsincr_stuck : jsincr (Finite twoTo53) = Finite twoTo53.
Proof. vm_compute. reflexivity. Qed.

Lemma rangeLoop_stuck fuel : forall acc,
  rangeLoop fuel (Finite twoTo53) (Finite twoTo53) acc = None.
Proof.
  induction fuel as [|fuel IH]; intros acc.
  - reflexivity.
  - cbn [rangeLoop].
    replace (jsle (Finite twoTo53) (Finite twoTo53)) with true by reflexivity.
    rewrite jsincr_stuck. apply IH.
Qed.

Lemma parseNumericSelection_never_returns_aux fuel :
  parseNumericSelection fuel stuckInput = None.
Proof.
  unfold parseNumericSelection.
  replace (cleanInput stuckInput) with stuckInput by (vm_compute; reflexivity).
  replace (existsb isDigit stuckInput) with true by (vm_compute; reflexivity).
  replace (selectionParts stuckInput) with [stuckInput] by (vm_compute; reflexivity).
  cbn [negb processParts]. unfold processPart.
  replace (trim stuckInput) with stuckInput by (vm_compute; reflexivity).
  replace (truthy stuckInput) with true by (vm_compute; reflexivity).
  replace (rangeMatch stuckInput)
    with (Some (lit "9007199254740992", lit "9007199254740992"))
    by (vm_compute; reflexivity).
  replace (parseInt (lit "9007199254740992")) with (Finite twoTo53)
    by (vm_compute; reflexivity).
  replace (jsgt (Finite twoTo53) (Finite twoTo53)) with false by reflexivity.
  cbn [negb]. rewrite rangeLoop_stuck. reflexivity.
Qed.

(** C4 at [stuckInput]: the loop [for (let i = start; i <= end; i++)] of
    the range branch starts at 2^53, where [i++] yields 2^53 again, so that
    no amount of fuel lets [parseNumericSelection] return. *)
Theorem parseNumericSelection_never_returns (fuel : nat) :
  parseNumericSelection fuel stuckInput = None.
Proof. apply parseNumericSelection_never_returns_aux. Qed.

(** Below 2^53 the same range is read as expected. *)
Example parseNumericSelection_below_2_53 :
  parseNumericSelection 2 (lit "9007199254740991-9007199254740991")
  = Some (mkSelectionResult [] [Finite 9007199254740991] true).
Proof. vm_compute. reflexivity. Qed.

Example parseNumericSelection_example :
  parseNumericSelection 10 (lit "select editors 3, 1-2; 7 9-8 0 5-6 x 1-2-3")
  = Some (mkSelectionResult [Finite 1; Finite 2; Finite 3; Finite 5]
            [Finite 0; Finite 6; Finite 7] true).
Proof. vm_compute. reflexivity. Qed.

(** The chat input never returns on [stuckInput] either. *)
Lemma handleChatInput_hangs fuel :
  value (handleChatInput (H := sampleExternal) fuel stuckInput None None)
    awaitingEditorsService = ChatHangs.
Proof.
  unfold handleChatInput.
  replace (trim stuckInput) with stuckInput by (vm_compute; reflexivity).
  run. cbn [step state awaitingEditorsService withStep getDefaultState].
  replace (bool_decide (awaiting_editors = idle)) with false by reflexivity.
  cbn [negb].
  destruct (decide (awaiting_editors = awaiting_editors)); [|contradiction].
  replace (truthy stuckInput) with true by (vm_compute; reflexivity).
  replace (toLowerCase (External := sampleExternal) stuckInput) with stuckInput
    by (vm_compute; reflexivity).
  replace (includes (lit "proceed") stuckInput) with false by (vm_compute; reflexivity).
  replace (includes (lit "continue") stuckInput) with false by (vm_compute; reflexivity).
  replace (includes (lit "yes") stuckInput) with false by (vm_compute; reflexivity).
  replace (jsstring_eqb stuckInput (lit "ok")) with false by (vm_compute; reflexivity).
  replace (jsstring_eqb stuckInput (lit "done")) with false by (vm_compute; reflexivity).
  replace (includes (lit "cancel") stuckInput) with false by (vm_compute; reflexivity).
  cbn [orb]. rewrite parseNumericSelection_never_returns_aux. run. reflexivity.
Qed.

(** *** What the parser returns when it returns *)

Lemma inEditorRange_spec n :
  inEditorRange n = true <-> exists z, n = Finite z /\ 1 <= z <= 5.
Proof.
  unfold inEditorRange. destruct n as [z|]; simpl.
  - rewrite andb_true_iff, !Z.leb_le. split.
    + intros [H1 H5]. exists z. auto.
    + intros (z' & [= <-] & Hz). exact Hz.
  - split; [discriminate|]. intros (z & Hz & _). discriminate.
Qed.

Lemma classify_wellSorted i acc : wellSorted acc -> wellSorted (classify i acc).
Proof.
  destruct acc as [sel inv]. intros (Hsel & Hinv & Hin & Hout).
  unfold classify, includesNum. fold (inEditorRange i).
  destruct (inEditorRange i) eqn:Hi; case_bool_decide as Hmem;
    try (split; [|split; [|split]]; assumption); simpl in *.
  - split; [|split; [|split]]; simpl; try assumption.
    + apply list.NoDup_app. split; [exact Hsel|].
      split; [|apply NoDup_singleton].
      intros n Hn Hn'. apply list_elem_of_singleton in Hn' as ->. contradiction.
    + intros n Hn. apply elem_of_app in Hn as [Hn|Hn]; [apply Hin, Hn|].
      apply list_elem_of_singleton in Hn as ->. exact Hi.
  - split; [|split; [|split]]; simpl; try assumption.
    + apply list.NoDup_app. split; [exact Hinv|].
      split; [|apply NoDup_singleton].
      intros n Hn Hn'. apply list_elem_of_singleton in Hn' as ->. contradiction.
    + intros n Hn. apply elem_of_app in Hn as [Hn|Hn]; [apply Hout, Hn|].
      apply list_elem_of_singleton in Hn as ->. exact Hi.
Qed.

Lemma rangeLoop_wellSorted fuel : forall i e acc acc',
  wellSorted acc -> rangeLoop fuel i e acc = Some acc' -> wellSorted acc'.
Proof.
  induction fuel as [|fuel IH]; intros i e acc acc' Hacc; cbn [rangeLoop];
    destruct (jsle i e); try discriminate; try (intros [= <-]; exact Hacc).
  apply IH, classify_wellSorted, Hacc.
Qed.

Lemma processPart_wellSorted fuel part acc acc' :
  wellSorted acc -> processPart fuel part acc = Some acc' -> wellSorted acc'.
Proof.
  intros Hacc. unfold processPart.
  destruct (truthy (trim part)); cbn [negb]; [|intros [= <-]; exact Hacc].
  destruct (rangeMatch (trim part)) as [[d1 d2]|].
  - destruct (jsgt _ _); [intros [= <-]; exact Hacc|].
    apply rangeLoop_wellSorted, Hacc.
  - destruct (numberMatch (trim part)); intros [= <-];
      [apply classify_wellSorted|]; exact Hacc.
Qed.

Lemma processParts_wellSorted fuel parts : forall acc acc',
  wellSorted acc -> processParts fuel parts acc = Some acc' -> wellSorted acc'.
Proof.
  induction parts as [|part parts IH]; intros acc acc' Hacc; cbn [processParts].
  - intros [= <-]. exact Hacc.
  - destruct (processPart fuel part acc) as [acc1|] eqn:Hpart; [|discriminate].
    apply IH. eapply processPart_wellSorted; eassumption.
Qed.

Lemma insertBy_Permutation {A} (gt : A -> A -> bool) x l : insertBy gt x l ≡ₚ x :: l.
Proof.
  induction l as [|y l IH]; cbn [insertBy]; [reflexivity|].
  destruct (gt y x); [reflexivity|]. rewrite IH. apply Permutation_swap.
Qed.

Lemma stableSort_Permutation {A} (gt : A -> A -> bool) l : stableSort gt l ≡ₚ l.
Proof.
  unfold stableSort.
  transitivity (rev l); [|symmetry; apply Permutation_rev].
  induction (rev l) as [|x l' IH]; cbn [fold_right]; [reflexivity|].
  rewrite insertBy_Permutation, IH. reflexivity.
Qed.

Lemma jsgt_false_jsle a b : jsgt a b = false -> jsle a b = true.
Proof.
  destruct a as [x|], b as [y|]; simpl; try reflexivity; try discriminate.
  rewrite Z.ltb_ge, Z.leb_le. auto.
Qed.

Lemma jsgt_true_jsle a b : jsgt a b = true -> jsle b a = true.
Proof.
  destruct a as [x|], b as [y|]; simpl; try reflexivity; try discriminate.
  rewrite Z.ltb_lt, Z.leb_le. lia.
Qed.

Lemma ascending_cons a l :
  ascending (a :: l) <->
  (match l with [] => True | b :: _ => jsle a b = true end) /\ ascending l.
Proof.
  unfold ascending. split.
  - intros Hasc. split.
    + destruct l as [|b l]; [exact Logic.I|]. apply (Hasc 0%nat); reflexivity.
    + intros i x y Hx Hy. apply (Hasc (S i)); assumption.
  - intros [Hhead Htail] [|i] x y Hx Hy.
    + destruct l as [|b l]; [discriminate|]. simpl in Hx, Hy. congruence.
    + apply (Htail i); assumption.
Qed.

Lemma insertBy_ascending x l : ascending l -> ascending (insertBy jsgt x l).
Proof.
  induction l as [|y l IH]; intros Hl; cbn [insertBy].
  - intros [|i] a b Ha Hb; discriminate.
  - destruct (jsgt y x) eqn:Hyx.
    + apply ascending_cons. split; [apply jsgt_true_jsle, Hyx | exact Hl].
    + apply ascending_cons in Hl as [Hhead Htail].
      apply ascending_cons. split; [|apply IH, Htail].
      destruct l as [|z l]; cbn [insertBy]; [apply jsgt_false_jsle, Hyx|].
      destruct (jsgt z x); [apply jsgt_false_jsle, Hyx | exact Hhead].
Qed.

Lemma sortAscending_ascending l : ascending (sortAscending l).
Proof.
  unfold sortAscending, stableSort.
  induction (rev l) as [|x l' IH]; cbn [fold_right].
  - intros i a b Ha. discriminate.
  - apply insertBy_ascending, IH.
Qed.

(** Whenever [parseNumericSelection] returns, its lists are as they should be:
    without duplicates, ascending, the selected ones integers from 1 to 5,
    the invalid ones anything else; and without a digit in the cleaned
    input both are empty and [hasInput] tells whether the cleaned input is
    non-empty. *)
Lemma parseNumericSelection_sound fuel input r :
  parseNumericSelection fuel input = Some r ->
  (NoDup (selectedIndices r) /\ ascending (selectedIndices r) /\
   forall n, n ∈ selectedIndices r -> exists z, n = Finite z /\ 1 <= z <= 5) /\
  (NoDup (invalidIndices r) /\ ascending (invalidIndices r) /\
   forall n, n ∈ invalidIndices r -> ~ exists z, n = Finite z /\ 1 <= z <= 5) /\
  (existsb isDigit (cleanInput input) = false ->
   selectedIndices r = [] /\ invalidIndices r = [] /\
   hasInput r = (0 <? length (cleanInput input))%nat).
Proof.
  unfold parseNumericSelection.
  destruct (existsb isDigit (cleanInput input)) eqn:Hdigit; cbn [negb].
  - destruct (processParts _ _ _) as [[sel inv]|] eqn:Hparts; [|discriminate].
    intros [= <-]. cbn [selectedIndices invalidIndices hasInput].
    assert (wellSorted (sel, inv)) as (Hsel & Hinv & Hin & Hout).
    { eapply processParts_wellSorted; [|exact Hparts].
      split; [constructor|]. split; [constructor|].
      split; intros n Hn; apply elem_of_nil in Hn; contradiction. }
    simpl in *. unfold sortAscending.
    split; [|split; [|discriminate]].
    + split; [rewrite stableSort_Permutation; exact Hsel|].
      split; [apply sortAscending_ascending|].
      intros n Hn. rewrite stableSort_Permutation in Hn.
      apply inEditorRange_spec, Hin, Hn.
    + split; [rewrite stableSort_Permutation; exact Hinv|].
      split; [apply sortAscending_ascending|].
      intros n Hn Hz. rewrite stableSort_Permutation in Hn.
      apply inEditorRange_spec in Hz. rewrite (Hout n Hn) in Hz. discriminate.
  - intros [= <-]. cbn [selectedIndices invalidIndices hasInput].
    split; [|split; [|auto]].
    + split; [constructor|]. split; [intros i a b Ha; discriminate|].
      intros n Hn. apply elem_of_nil in Hn. contradiction.
    + split; [constructor|]. split; [intros i a b Ha; discriminate|].
      intros n Hn. apply elem_of_nil in Hn. contradiction.
Qed.

(** A range whose start exceeds its end adds nothing to either list. *)
Lemma reversed_range_contributes_nothing fuel part d1 d2 acc :
  truthy (trim part) = true ->
  rangeMatch (trim part) = Some (d1, d2) ->
  jsgt (parseInt d1) (parseInt d2) = true ->
  processPart fuel part acc = Some acc.
Proof.
  intros Hpart Hmatch Hgt. unfold processPart.
  rewrite Hpart, Hmatch, Hgt. reflexivity.
Qed.

(** *** When the parser returns *)

Lemma twoTo53_pow : 2 ^ 53 = twoTo53.
Proof. reflexivity. Qed.

Lemma roundToDouble_exact z : z < twoTo53 -> roundToDouble z = Finite z.
Proof.
  intros Hz. unfold roundToDouble. rewrite twoTo53_pow.
  destruct (Z.ltb_spec z twoTo53); [reflexivity|lia].
Qed.

Lemma roundToDouble_nonneg z a : 0 <= z -> roundToDouble z = Finite a -> 0 <= a.
Proof.
  intros Hz. unfold roundToDouble.
  destruct (z <? 2 ^ 53); [intros [= <-]; exact Hz|].
  cbv zeta.
  destruct (2 ^ 1024 <=? _); [discriminate|]. intros [= <-].
  apply Z.mul_nonneg_nonneg; [|apply Z.pow_nonneg; lia].
  assert (0 <= z / 2 ^ (Z.log2 z - 52)) as Hq.
  { apply Z_div_nonneg_nonneg; [exact Hz|]. apply Z.pow_nonneg. lia. }
  repeat match goal with |- context [if ?b then _ else _] => destruct b end; lia.
Qed.

Lemma jsincr_exact a : a < twoTo53 -> jsincr (Finite a) = Finite (a + 1).
Proof.
  intros Ha. cbn [jsincr].
  destruct (Z.eq_dec (a + 1) twoTo53) as [->|Hne]; [reflexivity|].
  apply roundToDouble_exact. lia.
Qed.

Lemma rangeLoop_returns fuel : forall a b acc,
  b < twoTo53 -> b - a < Z.of_nat fuel ->
  exists acc', rangeLoop fuel (Finite a) (Finite b) acc = Some acc'.
Proof.
  induction fuel as [|fuel IH]; intros a b acc Hb Hfuel; cbn [rangeLoop jsle].
  - destruct (Z.leb_spec a b); [lia|]. eexists; reflexivity.
  - destruct (Z.leb_spec a b); [|eexists; reflexivity].
    rewrite jsincr_exact by lia. apply IH; lia.
Qed.

Lemma decimalValue_nonneg ds : 0 <= decimalValue (takeWhile isDigit ds).
Proof.
  unfold decimalValue.
  assert (forall l acc, 0 <= acc ->
            0 <= fold_left (fun acc c => acc * 10 + digitValue c) (takeWhile isDigit l) acc)
    as Hfold.
  { induction l as [|c l IH]; intros acc Hacc; cbn [takeWhile]; [exact Hacc|].
    destruct (isDigit c) eqn:Hc; [|exact Hacc].
    cbn [fold_left]. apply IH. unfold isDigit in Hc. unfold digitValue.
    apply andb_true_iff in Hc as [Hlo _]. apply N.leb_le in Hlo. lia. }
  apply Hfold. lia.
Qed.

Lemma processPart_returns part acc :
  (forall d1 d2, rangeMatch (trim part) = Some (d1, d2) ->
                 decimalValue (takeWhile isDigit d2) < twoTo53) ->
  exists acc', processPart enoughFuel part acc = Some acc'.
Proof.
  intros Hend. unfold processPart.
  destruct (truthy (trim part)); cbn [negb]; [|eexists; reflexivity].
  destruct (rangeMatch (trim part)) as [[d1 d2]|].
  - specialize (Hend d1 d2 eq_refl).
    destruct (jsgt (parseInt d1) (parseInt d2)) eqn:Hgt; [eexists; reflexivity|].
    unfold parseInt in *. rewrite (roundToDouble_exact _ Hend) in *.
    destruct (roundToDouble (decimalValue (takeWhile isDigit d1))) as [a|] eqn:Ha;
      [|discriminate].
    apply rangeLoop_returns; [exact Hend|].
    pose proof (roundToDouble_nonneg _ _ (decimalValue_nonneg d1) Ha).
    unfold enoughFuel. rewrite Z2Nat.id by (unfold twoTo53; lia). lia.
  - destruct (numberMatch (trim part)); eexists; reflexivity.
Qed.

Lemma processParts_returns parts : forall acc,
  (forall part d1 d2, part ∈ parts -> rangeMatch (trim part) = Some (d1, d2) ->
                      decimalValue (takeWhile isDigit d2) < twoTo53) ->
  exists acc', processParts enoughFuel parts acc = Some acc'.
Proof.
  induction parts as [|part parts IH]; intros acc Hend; cbn [processParts].
  - eexists; reflexivity.
  - destruct (processPart_returns part acc) as [acc1 ->].
    { intros d1 d2. apply Hend. apply elem_of_cons. left. reflexivity. }
    apply IH. intros p d1 d2 Hp. apply Hend. apply elem_of_cons. right. exact Hp.
Qed.

(** With every range ending below 2^53 the parser does return (the model
    puts no bound on the length of an array). *)
Lemma parseNumericSelection_returns input :
  (forall part d1 d2,
     part ∈ selectionParts (cleanInput input) ->
     rangeMatch (trim part) = Some (d1, d2) ->
     decimalValue (takeWhile isDigit d2) < twoTo53) ->
  exists r, parseNumericSelection enoughFuel input = Some r.
Proof.
  intros Hend. unfold parseNumericSelection.
  destruct (existsb isDigit (cleanInput input)); cbn [negb]; [|eexists; reflexivity].
  destruct (processParts_returns _ ([], []) Hend) as [[sel inv] ->].
  eexists; reflexivity.
Qed.

(** ** The highlight renderer *)

Lemma stripTagsFrom_plain s :
  existsb (fun c => (c =? 60)%N) s = false -> stripTagsFrom false s = s.
Proof.
  induction s as [|c s IH]; cbn [existsb stripTagsFrom]; [reflexivity|].
  intros Hno. apply orb_false_iff in Hno as [Hc Hs].
  rewrite Hc. cbn [andb]. rewrite (IH Hs). reflexivity.
Qed.

(** Without editorial feedback, or when no issue and no fix of the feedback
    occurs in the texts, the stripped texts come back unchanged. *)
Lemma highlightAllFeedbacks_nothing_to_mark p :
  collectItems issue (stripHtmlSpans (original p)) (default [] (editorial_feedback p)) = [] ->
  collectItems fix_ (stripHtmlSpans (edited p)) (default [] (editorial_feedback p)) = [] ->
  highlightAllFeedbacks (Some p)
  = mkHighlighted (stripHtmlSpans (original p)) (stripHtmlSpans (edited p)).
Proof.
  intros Ho He. unfold highlightAllFeedbacks. cbv zeta. rewrite Ho, He. reflexivity.
Qed.

Lemma highlightAllFeedbacks_no_feedback p :
  editorial_feedback p = None ->
  highlightAllFeedbacks (Some p)
  = mkHighlighted (stripHtmlSpans (original p)) (stripHtmlSpans (edited p)).
Proof.
  intros Hnone. apply highlightAllFeedbacks_nothing_to_mark; rewrite Hnone; reflexivity.
Qed.

(** One occurrence of one undecided issue is wrapped in its span. *)
Example highlightAllFeedbacks_one_issue :
  hl_original
    (highlightAllFeedbacks
       (Some (mkParagraphEdit 0 (lit "We <b>utilize</b> data.") (lit "We use data.") []
                (Some false) None
                (Some [(lit "copy",
                        [mkFeedback (Val (lit "utilize")) (Val (lit "use")) Null
                           Undefined Undefined Undefined])])
                None None)))
  = lit "We " ++ span (lit "highlight-yellow") (lit "utilize") ++ lit " data.".
Proof. vm_compute. reflexivity. Qed.

(** C5 at [flaggedTwice]: both feedbacks give an item at position 3; the
    second replacement cuts the text at the positions of the first match
    although the first replacement has moved them, so that it leaves the
    tail of the first opening tag in the text: the occurrence is not
    wrapped once in a well-formed span, and the text between the tags is no
    longer the text of the paragraph. *)
Theorem highlightAllFeedbacks_overlapping_items :
  hl_original (highlightAllFeedbacks (Some flaggedTwice))
  = lit "We " ++ span (lit "highlight-yellow") (lit "utilize")
      ++ lit "lass=" ++ dquote ++ lit "highlight-yellow" ++ dquote
      ++ lit ">utilize</span> data." /\
  stripHtmlSpans (hl_original (highlightAllFeedbacks (Some flaggedTwice)))
  <> stripHtmlSpans (original flaggedTwice).
Proof.
  split.
  - vm_compute. reflexivity.
  - vm_compute. discriminate.
Qed.

(** *** Where the order of the replacements does what it is meant to *)

(** Replacing from the end leaves the text before the replaced items as it
    is: the positions of the items still to come are not shifted. *)
Lemma applyHighlights_prefix render items : forall text k,
  (forall item, item ∈ items -> (k <= item_start item)%nat) ->
  (k <= length text)%nat ->
  take k (applyHighlights render items text) = take k text.
Proof.
  unfold applyHighlights.
  induction items as [|item items IH]; intros text k Hstart Hk; cbn [fold_left];
    [reflexivity|].
  assert (k <= item_start item)%nat as Hitem.
  { apply Hstart. apply elem_of_cons. left. reflexivity. }
  rewrite IH.
  - rewrite take_app_le by (rewrite length_take; lia).
    rewrite take_take. f_equal. lia.
  - intros it Hit. apply Hstart. apply elem_of_cons. right. exact Hit.
  - rewrite length_app, length_take. lia.
Qed.

(** Two items that do not overlap, the later one first: both are replaced
    in place. *)
Lemma applyHighlights_disjoint_pair render first second text :
  (item_start first <= item_end first)%nat ->
  (item_end first <= item_start second)%nat ->
  (item_start second <= length text)%nat ->
  applyHighlights render [second; first] text
  = take (item_start first) text ++ render first
      ++ take (item_start second - item_end first) (drop (item_end first) text)
      ++ render second ++ drop (item_end second) text.
Proof.
  intros Hfirst Hgap Hlen. unfold applyHighlights. cbn [fold_left].
  rewrite take_app_le by (rewrite length_take; lia).
  rewrite take_take, Nat.min_l by lia.
  rewrite drop_app_le by (rewrite length_take; lia).
  assert (drop (item_end first) (take (item_start second) text)
          = take (item_start second - item_end first) (drop (item_end first) text)) as ->.
  { rewrite take_drop_commute. do 2 f_equal. lia. }
  rewrite <- ?app_assoc. reflexivity.
Qed.

(** ** The pattern matchers at work *)

Example removeKeywords_example :
  cleanInput (lit "  select Editors 2 and 4 ") = lit "s 2 and 4".
Proof. vm_compute. reflexivity. Qed.

Example splitSeparators_example :
  splitSeparators (lit ",1, 2;;3-4 ") = [[]; lit "1"; lit "2"; lit "3-4"; []].
Proof. vm_compute. reflexivity. Qed.

Example rangeMatch_example :
  rangeMatch (lit "12-345") = Some (lit "12", lit "345") /\
  rangeMatch (lit "1-2-3") = None /\ rangeMatch (lit "-3") = None /\
  numberMatch (lit "007") = Some (lit "007") /\ numberMatch (lit "1.5") = None.
Proof. vm_compute. repeat split; reflexivity. Qed.

Example parseInt_rounds :
  parseInt (lit "9007199254740993") = Finite 9007199254740992 /\
  parseInt (lit "9007199254740995") = Finite 9007199254740996.
Proof. vm_compute. split; reflexivity. Qed.

Example tagEditorName_example :
  tagEditorName (lit "Copy Editor  (Grammar)") = lit "Copy Editor" /\
  tagEditorName (lit "Reviewed") = lit "Reviewed".
Proof. vm_compute. split; reflexivity. Qed.

Example stripHtmlSpans_example :
  stripHtmlSpans (lit "<p>1 < 2 and <b>bold</b></p> a < b") = lit "1 bold a < b".
Proof. vm_compute. reflexivity. Qed.

Example stripCodeFences_example :
  stripCodeFences (lit "```markdown" ++ nl ++ lit "Title" ++ nl ++ lit "```")
  = lit "Title".
Proof. vm_compute. reflexivity. Qed.

(** ** The paragraph component: what is shown for review *)

Lemma insertBy_index_sorted (x : ParagraphEdit) l :
  (forall i a b, l !! i = Some a -> l !! S i = Some b -> index a <= index b) ->
  forall i a b,
    insertBy (fun a b => index b <? index a) x l !! i = Some a ->
    insertBy (fun a b => index b <? index a) x l !! S i = Some b ->
    index a <= index b.
Proof.
  induction l as [|y l IH]; intros Hl; cbn [insertBy].
  - intros [|i] a b Ha Hb; discriminate.
  - destruct (Z.ltb_spec (index x) (index y)) as [Hlt|Hge].
    + intros [|i] a b Ha Hb.
      * simpl in Ha, Hb. injection Ha as <-. injection Hb as <-. lia.
      * apply (Hl i); assumption.
    + intros [|i] a b Ha Hb.
      * simpl in Ha, Hb. injection Ha as <-.
        destruct l as [|z l]; cbn [insertBy] in Hb.
        -- simpl in Hb. injection Hb as <-. exact Hge.
        -- destruct (index x <? index z); simpl in Hb; injection Hb as <-;
             [exact Hge|]. apply (Hl 0%nat); reflexivity.
      * apply (IH (fun j => Hl (S j)) i); assumption.
Qed.

Lemma stableSort_index_sorted (l : list ParagraphEdit) :
  forall i a b,
    stableSort (fun a b => index b <? index a) l !! i = Some a ->
    stableSort (fun a b => index b <? index a) l !! S i = Some b ->
    index a <= index b.
Proof.
  unfold stableSort.
  induction (rev l) as [|x l' IH]; cbn [fold_right].
  - intros i a b Ha. discriminate.
  - apply insertBy_index_sorted, IH.
Qed.

(** X1: the paragraphs counted as auto-approved and the paragraphs
    listed for review make up the paragraph edits: the count and the length
    of the list add up to the number of edits; the list holds exactly the
    edits that are not auto-approved, by ascending index; the getter
    [getParagraphsForReview] of the service returns the same list for the
    edits of the state. *)
Theorem review_list_partition (edits : list ParagraphEdit) :
  (autoApprovedCount edits + length (paragraphsForReview edits) = length edits)%nat /\
  (forall p, p ∈ paragraphsForReview edits <-> p ∈ edits /\ autoApproved p <> Some true) /\
  (forall i a b,
     paragraphsForReview edits !! i = Some a ->
     paragraphsForReview edits !! S i = Some b -> index a <= index b) /\
  (forall svc,
     value getParagraphsForReview svc = paragraphsForReview (paragraphEdits (state svc))).
Proof.
  unfold autoApprovedCount, paragraphsForReview.
  split; [|split; [|split]].
  - rewrite (Permutation_length (stableSort_Permutation _ _)). apply filter_length.
  - intros p. rewrite stableSort_Permutation.
    rewrite list_elem_of_In, filter_In, <- list_elem_of_In.
    rewrite negb_true_iff, bool_decide_eq_false. reflexivity.
  - apply stableSort_index_sorted.
  - intros svc. unfold getParagraphsForReview. run. reflexivity.
Qed.

(** ** The paragraph component: approve all, reject all *)

Lemma forallb_map {A B} (f : B -> bool) (g : A -> B) l :
  forallb f (map g l) = forallb (fun x => f (g x)) l.
Proof. induction l as [|x l IH]; simpl; [reflexivity|]. rewrite IH. reflexivity. Qed.

Lemma forallb_true {A} (f : A -> bool) l :
  (forall x, f x = true) -> forallb f l = true.
Proof.
  intros Hf. induction l as [|x l IH]; simpl; [reflexivity|]. rewrite Hf, IH. reflexivity.
Qed.

Lemma forallb_pointwise {A} (f g : A -> bool) l :
  (forall x, f x = g x) -> forallb f l = forallb g l.
Proof.
  intros Hf. induction l as [|x l IH]; simpl; [reflexivity|]. rewrite Hf, IH. reflexivity.
Qed.

Lemma allFeedback_decided v fbs :
  forallb (fun fb => strictEqBool (fb_approved fb) v) (map (setFeedbackApproved (Val v)) fbs)
  = true.
Proof.
  rewrite forallb_map. apply forallb_true. intros fb. simpl. destruct v; reflexivity.
Qed.

(** X2: [approveAll], before the final output is shown, leaves
    every feedback item and every paragraph approved, so that its button
    ([allParagraphsApproved && allFeedbackApproved]) is disabled whenever
    there is a paragraph; it emits the index of every paragraph, in order,
    and changes neither the indices nor the texts, the tags and the
    auto-approval of the paragraphs; once the final output is shown it
    changes nothing and emits nothing. *)
Theorem approveAll_approves_everything (edits : list ParagraphEdit) :
  let after := (approveAll false edits).1 in
  allFeedbackApproved after = true /\
  allParagraphsApproved after = (0 <? length edits)%nat /\
  (approveAll false edits).2 = map index edits /\
  map index after = map index edits /\
  map original after = map original edits /\
  map edited after = map edited edits /\
  map tags after = map tags edits /\
  map autoApproved after = map autoApproved edits /\
  approveAll true edits = (edits, []).
Proof.
  cbv zeta. unfold approveAll, approveAllFeedback. cbn [fst snd].
  rewrite !map_map. cbn [decideAllFeedbackOf index original edited tags autoApproved].
  repeat split.
  - unfold allFeedbackApproved. rewrite forallb_map. apply forallb_true. intros p.
    cbn [decideAllFeedbackOf editorial_feedback].
    destruct (editorial_feedback p) as [ef|]; [|reflexivity].
    cbn [fmap option_fmap option_map]. rewrite forallb_map. apply forallb_true.
    intros [key fbs]. cbn [snd]. rewrite allFeedback_decided. apply orb_true_r.
  - unfold allParagraphsApproved. rewrite length_map, forallb_map.
    rewrite forallb_true; [apply andb_true_r|]. intros p. reflexivity.
Qed.

(** X3: [declineAll], before the final output is shown, leaves
    every paragraph declined and every feedback item rejected, but
    [allFeedbackRejected] holds afterwards only if no paragraph has an empty
    feedback array: the getter asks for [length > 0] where
    [allFeedbackApproved] accepts [length === 0].  So for a paragraph whose
    feedback was normalised from an object that lacks one of the five
    categories, the button of [declineAll]
    ([allParagraphsDeclined && allFeedbackRejected]) is never disabled. *)
Theorem declineAll_rejected_unless_empty (edits : list ParagraphEdit) :
  let after := (declineAll false edits).1 in
  allParagraphsDeclined after = (0 <? length edits)%nat /\
  allFeedbackRejected after
  = forallb (fun p =>
               match editorial_feedback p with
               | None => true
               | Some ef =>
                   forallb (fun entry : jsstring * list EditorialFeedbackItem =>
                              (0 <? length entry.2)%nat) ef
               end)
            edits /\
  (forall p raw,
     p ∈ edits -> editorial_feedback p = normalizeFeedback (Val raw) ->
     arrOr (raw_development raw) = [] \/ arrOr (raw_content raw) = [] \/
     arrOr (raw_copy raw) = [] \/ arrOr (raw_line raw) = [] \/ arrOr (raw_brand raw) = [] ->
     allParagraphsDeclined after && allFeedbackRejected after = false) /\
  (declineAll false edits).2 = map index edits /\
  declineAll true edits = (edits, []).
Proof.
  cbv zeta. unfold declineAll, rejectAllFeedback. cbn [fst snd].
  assert (allFeedbackRejected (map (decideAllFeedbackOf false) edits)
          = forallb (fun p =>
               match editorial_feedback p with
               | None => true
               | Some ef =>
                   forallb (fun entry : jsstring * list EditorialFeedbackItem =>
                              (0 <? length entry.2)%nat) ef
               end) edits) as Hrej.
  { unfold allFeedbackRejected. rewrite forallb_map. apply forallb_pointwise. intros p.
    cbn [decideAllFeedbackOf editorial_feedback].
    destruct (editorial_feedback p) as [ef|]; [|reflexivity].
    cbn [fmap option_fmap option_map]. rewrite forallb_map. apply forallb_pointwise.
    intros [key fbs]. cbn [snd]. rewrite allFeedback_decided, length_map.
    apply andb_true_r. }
  split; [|split; [exact Hrej|split; [|split]]].
  - unfold allParagraphsDeclined. rewrite length_map, forallb_map.
    rewrite forallb_true; [apply andb_true_r|]. intros p. reflexivity.
  - intros p raw Hin Hef Hempty. rewrite Hrej. apply andb_false_iff. right.
    apply not_true_is_false. intros Hall. rewrite forallb_forall in Hall.
    specialize (Hall p (proj1 (list_elem_of_In _ _) Hin)).
    rewrite Hef in Hall. cbn [normalizeFeedback forallb snd] in Hall.
    destruct Hempty as [He|[He|[He|[He|He]]]]; rewrite He in Hall; simpl in Hall;
      rewrite ?andb_false_r in Hall; discriminate.
  - rewrite map_map. reflexivity.
  - reflexivity.
Qed.

Lemma declineAll_rejected_unless_empty_witness :
  copyFeedbackOnly ∈ [copyFeedbackOnly] /\
  allParagraphsDeclined (declineAll false [copyFeedbackOnly]).1 = true /\
  allFeedbackRejected (declineAll false [copyFeedbackOnly]).1 = false /\
  allFeedbackApproved (approveAll false [copyFeedbackOnly]).1 = true.
Proof.
  assert (copyFeedbackOnly ∈ [copyFeedbackOnly]) as Hin
    by (apply list_elem_of_singleton; reflexivity).
  destruct (declineAll_rejected_unless_empty [copyFeedbackOnly])
    as (Hdeclined & _ & Hbutton & _).
  split; [exact Hin|]. split; [exact Hdeclined|]. split; [|vm_compute; reflexivity].
  specialize (Hbutton copyFeedbackOnly _ Hin eq_refl (or_introl eq_refl)).
  rewrite Hdeclined in Hbutton. exact Hbutton.
Defined.

(** ** Invariants of the state and of the sequential fields

    A property [I] of the workflow state and a property [J] of the
    sequential fields that the writes of the service respect hold in every
    reachable state. *)

Section Preserves.
Variable I : EditWorkflowState -> Prop.
Variable J : SequentialInfo -> Prop.

Lemma preserves_ret {A} (a : A) : preserves I J (mret a).
Proof. intros svc Hsvc. rewrite exec_ret. exact Hsvc. Qed.

Lemma preserves_bind {A B} (c : M A) (k : A -> M B) :
  preserves I J c -> (forall a, preserves I J (k a)) -> preserves I J (c ≫= k).
Proof. intros Hc Hk svc Hsvc. rewrite exec_bind. apply Hk, Hc, Hsvc. Qed.

Lemma preserves_read {B} (k : EditWorkflowState -> M B) :
  (forall s, I s -> preserves I J (k s)) -> preserves I J (currentState ≫= k).
Proof.
  intros Hk svc Hsvc. rewrite exec_bind, value_currentState, exec_currentState.
  apply (Hk (state svc) (proj1 Hsvc)), Hsvc.
Qed.

Lemma preserves_readSequential {B} (k : SequentialInfo -> M B) :
  (forall q, J q -> preserves I J (k q)) -> preserves I J (getSequential ≫= k).
Proof.
  intros Hk svc Hsvc. rewrite exec_bind, value_getSequential, exec_getSequential.
  apply (Hk (sequential svc) (proj2 Hsvc)), Hsvc.
Qed.

Lemma preserves_updateState s : I s -> preserves I J (updateState s).
Proof. intros Hs svc [_ HJ]. rewrite exec_updateState. split; [exact Hs | exact HJ]. Qed.

Lemma preserves_setSequential q : J q -> preserves I J (setSequential q).
Proof. intros Hq svc [HI _]. rewrite exec_setSequential. split; [exact HI | exact Hq]. Qed.

Lemma preserves_emit e : preserves I J (emit e).
Proof. intros svc Hsvc. rewrite exec_emit. exact Hsvc. Qed.

Lemma preserves_messageNext t m : preserves I J (messageNext t m).
Proof. intros svc Hsvc. rewrite exec_messageNext. exact Hsvc. Qed.

Lemma preserves_isGeneratingFinalNext b : preserves I J (isGeneratingFinalNext b).
Proof. intros svc Hsvc. rewrite exec_isGeneratingFinalNext. exact Hsvc. Qed.

Lemma preserves_getNumberedEditorList : preserves I J getNumberedEditorList.
Proof. intros svc Hsvc. rewrite exec_getNumberedEditorList. exact Hsvc. Qed.

End Preserves.

(** One step of a [preserves] proof, and the whole proof: the side
    conditions are closed by the hypotheses on [I] and [J]. *)
Ltac preserves_step :=
  lazymatch goal with
  | |- preserves _ _ (mret _) => apply preserves_ret
  | |- preserves _ _ (emit _) => apply preserves_emit
  | |- preserves _ _ (messageNext _ _) => apply preserves_messageNext
  | |- preserves _ _ (isGeneratingFinalNext _) => apply preserves_isGeneratingFinalNext
  | |- preserves _ _ getNumberedEditorList => apply preserves_getNumberedEditorList
  | |- preserves _ _ (updateState _) => apply preserves_updateState
  | |- preserves _ _ (setSequential _) => apply preserves_setSequential
  | |- preserves _ _ (mbind _ currentState) => apply preserves_read; intros ? ?
  | |- preserves _ _ (mbind _ getSequential) => apply preserves_readSequential; intros ? ?
  | |- preserves _ _ (mbind _ _) => apply preserves_bind; [| intros ?]
  | |- preserves _ _ (match ?x with _ => _ end) => destruct x eqn:?
  end.

Create HintDb preserves discriminated.

Ltac preserves_known c op lem :=
  let h := head_of c in
  lazymatch h with
  | op => apply lem
  end.

Ltac preserves_auto :=
  repeat first
    [ solve [auto 2 with preserves nocore]
    | preserves_step
    | lazymatch goal with
      | |- preserves _ _ _ => fail
      | |- _ => solve [eauto 8]
      end ].

Section Invariants.
Context `{External}.
Variable I : EditWorkflowState -> Prop.
Variable J : SequentialInfo -> Prop.
Hypothesis I_default : I getDefaultState.
Hypothesis I_editors : I (withStep awaiting_editors getDefaultState).
Hypothesis I_content : forall s, I s -> I (withStep awaiting_content s).
Hypothesis I_processing : forall s, I s -> I (withStep processing s).
Hypothesis I_selected : forall ids s, I s -> I (withSelectedEditors ids s).
Hypothesis I_file :
  forall f s, I s -> step s = awaiting_content -> I (withUploadedFile f s).
Hypothesis I_original : forall v s, I s -> I (withOriginalContent v s).
Hypothesis I_edits : forall v s, I s -> I (withParagraphEdits v s).
Hypothesis J_initial : J (mkSequential None None false false 0 0).
Hypothesis J_last :
  forall q, J q ->
    J (mkSequential (threadId q) (seq_currentEditor q) (isSequentialMode q) true
         (totalEditors q) (totalEditors q)).

Lemma preserves_beginWorkflow : preserves I J beginWorkflow.
Proof. unfold beginWorkflow. preserves_auto. Qed.

Lemma preserves_beginWorkflowWithEditors ids : preserves I J (beginWorkflowWithEditors ids).
Proof.
  unfold beginWorkflowWithEditors.
  destruct ids; [apply preserves_beginWorkflow|].
  destruct (List.filter _ _); [apply preserves_beginWorkflow|].
  preserves_auto.
Qed.

#[local] Hint Extern 0 (preserves _ _ ?c) =>
  preserves_known c beginWorkflow preserves_beginWorkflow : preserves.
#[local] Hint Extern 0 (preserves _ _ ?c) =>
  preserves_known c beginWorkflowWithEditors preserves_beginWorkflowWithEditors : preserves.

Lemma preserves_showInvalidSelectionError : preserves I J (showInvalidSelectionError).
Proof. unfold showInvalidSelectionError. preserves_auto. Qed.
#[local] Hint Extern 0 (preserves _ _ ?c) =>
  preserves_known c showInvalidSelectionError preserves_showInvalidSelectionError : preserves.

Lemma preserves_handleNumericSelection r : preserves I J (handleNumericSelection r).
Proof. unfold handleNumericSelection. preserves_auto. Qed.
#[local] Hint Extern 0 (preserves _ _ ?c) =>
  preserves_known c handleNumericSelection preserves_handleNumericSelection : preserves.

Lemma preserves_handleOptOutAndProceed optedOut sections : preserves I J (handleOptOutAndProceed optedOut sections).
Proof. unfold handleOptOutAndProceed. preserves_auto. Qed.
#[local] Hint Extern 0 (preserves _ _ ?c) =>
  preserves_known c handleOptOutAndProceed preserves_handleOptOutAndProceed : preserves.

Lemma preserves_createNoEditorsErrorMessage o : preserves I J (createNoEditorsErrorMessage o).
Proof. unfold createNoEditorsErrorMessage. preserves_auto. Qed.
#[local] Hint Extern 0 (preserves _ _ ?c) =>
  preserves_known c createNoEditorsErrorMessage preserves_createNoEditorsErrorMessage : preserves.

Lemma preserves_proceedToContentStep : preserves I J (proceedToContentStep).
Proof. unfold proceedToContentStep. preserves_auto. Qed.
#[local] Hint Extern 0 (preserves _ _ ?c) =>
  preserves_known c proceedToContentStep preserves_proceedToContentStep : preserves.

Lemma preserves_completeWorkflow : preserves I J (completeWorkflow).
Proof. unfold completeWorkflow. preserves_auto. Qed.
#[local] Hint Extern 0 (preserves _ _ ?c) =>
  preserves_known c completeWorkflow preserves_completeWorkflow : preserves.

Lemma preserves_cancelWorkflow : preserves I J (cancelWorkflow).
Proof. unfold cancelWorkflow. preserves_auto. Qed.
#[local] Hint Extern 0 (preserves _ _ ?c) =>
  preserves_known c cancelWorkflow preserves_cancelWorkflow : preserves.

Lemma preserves_dispatchResultsToChat names fb rev edits : preserves I J (dispatchResultsToChat names fb rev edits).
Proof. unfold dispatchResultsToChat. preserves_auto. Qed.
#[local] Hint Extern 0 (preserves _ _ ?c) =>
  preserves_known c dispatchResultsToChat preserves_dispatchResultsToChat : preserves.

Lemma preserves_onError : preserves I J (onError).
Proof. unfold onError. preserves_auto. Qed.
#[local] Hint Extern 0 (preserves _ _ ?c) =>
  preserves_known c onError preserves_onError : preserves.

Lemma preserves_onComplete : preserves I J (onComplete).
Proof. unfold onComplete. preserves_auto. Qed.
#[local] Hint Extern 0 (preserves _ _ ?c) =>
  preserves_known c onComplete preserves_onComplete : preserves.

Lemma preserves_processContent text ids names : preserves I J (processContent text ids names).
Proof. unfold processContent. preserves_auto. Qed.
#[local] Hint Extern 0 (preserves _ _ ?c) =>
  preserves_known c processContent preserves_processContent : preserves.

Lemma preserves_processingFailed : preserves I J (processingFailed).
Proof. unfold processingFailed. preserves_auto. Qed.
#[local] Hint Extern 0 (preserves _ _ ?c) =>
  preserves_known c processingFailed preserves_processingFailed : preserves.

Lemma preserves_processWithContent : preserves I J (processWithContent).
Proof. unfold processWithContent. preserves_auto. Qed.
#[local] Hint Extern 0 (preserves _ _ ?c) =>
  preserves_known c processWithContent preserves_processWithContent : preserves.

Lemma preserves_handleFileUpload file : preserves I J (handleFileUpload file).
Proof. unfold handleFileUpload. preserves_auto. Qed.
#[local] Hint Extern 0 (preserves _ _ ?c) =>
  preserves_known c handleFileUpload preserves_handleFileUpload : preserves.

Lemma preserves_handleEditorSelection ids : preserves I J (handleEditorSelection ids).
Proof. unfold handleEditorSelection. preserves_auto. Qed.
#[local] Hint Extern 0 (preserves _ _ ?c) =>
  preserves_known c handleEditorSelection preserves_handleEditorSelection : preserves.

Lemma preserves_emitParagraphUpdateMessage : preserves I J (emitParagraphUpdateMessage).
Proof. unfold emitParagraphUpdateMessage. preserves_auto. Qed.
#[local] Hint Extern 0 (preserves _ _ ?c) =>
  preserves_known c emitParagraphUpdateMessage preserves_emitParagraphUpdateMessage : preserves.

Lemma preserves_decideParagraph v i : preserves I J (decideParagraph v i).
Proof. unfold decideParagraph. preserves_auto. Qed.
#[local] Hint Extern 0 (preserves _ _ ?c) =>
  preserves_known c decideParagraph preserves_decideParagraph : preserves.

Lemma preserves_syncParagraphEditsFromMessage edits : preserves I J (syncParagraphEditsFromMessage edits).
Proof. unfold syncParagraphEditsFromMessage. preserves_auto. Qed.
#[local] Hint Extern 0 (preserves _ _ ?c) =>
  preserves_known c syncParagraphEditsFromMessage preserves_syncParagraphEditsFromMessage : preserves.

Lemma preserves_nextEditorFailed msg : preserves I J (nextEditorFailed msg).
Proof. unfold nextEditorFailed. preserves_auto. Qed.
#[local] Hint Extern 0 (preserves _ _ ?c) =>
  preserves_known c nextEditorFailed preserves_nextEditorFailed : preserves.

Lemma preserves_generationFailed msg : preserves I J (generationFailed msg).
Proof. unfold generationFailed. preserves_auto. Qed.
#[local] Hint Extern 0 (preserves _ _ ?c) =>
  preserves_known c generationFailed preserves_generationFailed : preserves.

Lemma preserves_generateFinalArticle reply : preserves I J (generateFinalArticle reply).
Proof. unfold generateFinalArticle. preserves_auto. Qed.
#[local] Hint Extern 0 (preserves _ _ ?c) =>
  preserves_known c generateFinalArticle preserves_generateFinalArticle : preserves.

Lemma preserves_detectEditIntent input reply : preserves I J (detectEditIntent input reply).
Proof. unfold detectEditIntent. preserves_auto. Qed.
#[local] Hint Extern 0 (preserves _ _ ?c) =>
  preserves_known c detectEditIntent preserves_detectEditIntent : preserves.

Lemma preserves_handleChatInput fuel input file reply : preserves I J (handleChatInput fuel input file reply).
Proof. unfold handleChatInput. preserves_auto. Qed.
#[local] Hint Extern 0 (preserves _ _ ?c) =>
  preserves_known c handleChatInput preserves_handleChatInput : preserves.

Lemma preserves_perform_offline c : readsStream c = false -> preserves I J (perform c).
Proof.
  destruct c; cbn [perform readsStream]; try discriminate; intros _;
    unfold approveParagraph, declineParagraph; preserves_auto.
Qed.

Section Stream.
Hypothesis J_record : forall b data q, J q -> J (recordEditor b data q).

Lemma preserves_onEvent data sess : preserves I J (onEvent data sess).
Proof. unfold onEvent. preserves_auto. Qed.
#[local] Hint Extern 0 (preserves _ _ ?c) =>
  preserves_known c onEvent preserves_onEvent : preserves.

Lemma preserves_onNext item sess : preserves I J (onNext item sess).
Proof. unfold onNext. preserves_auto. Qed.
#[local] Hint Extern 0 (preserves _ _ ?c) =>
  preserves_known c onNext preserves_onNext : preserves.

Lemma preserves_onNextEditorEvent data : preserves I J (onNextEditorEvent data).
Proof. unfold onNextEditorEvent. preserves_auto. Qed.
#[local] Hint Extern 0 (preserves _ _ ?c) =>
  preserves_known c onNextEditorEvent preserves_onNextEditorEvent : preserves.

Lemma preserves_onNextEditorEvents events : preserves I J (onNextEditorEvents events).
Proof. induction events as [|data rest IH]; simpl; preserves_auto. Qed.
#[local] Hint Extern 0 (preserves _ _ ?c) =>
  preserves_known c onNextEditorEvents preserves_onNextEditorEvents : preserves.

Lemma preserves_nextEditor edits reply : preserves I J (nextEditor edits reply).
Proof. unfold nextEditor. preserves_auto. Qed.
#[local] Hint Extern 0 (preserves _ _ ?c) =>
  preserves_known c nextEditor preserves_nextEditor : preserves.

Lemma preserves_perform c : preserves I J (perform c).
Proof.
  destruct (readsStream c) eqn:Hc; [|apply preserves_perform_offline, Hc].
  destruct c; try discriminate; cbn [perform]; preserves_auto.
Qed.

Lemma reachable_holds svc : reachable svc -> holds I J svc.
Proof.
  induction 1 as [|svc c _ IH].
  - split; [exact I_default | exact J_initial].
  - apply preserves_perform, IH.
Qed.

End Stream.

End Invariants.

Section InvariantTheorems.
Context `{External}.

Lemma step_never_awaiting_approval (svc : Service) :
  reachable svc -> step (state svc) <> awaiting_approval.
Proof.
  intros Hreach.
  apply (reachable_holds (fun s => step s <> awaiting_approval) (fun _ => True));
    try exact Hreach; try discriminate; auto.
Qed.

Lemma file_only_while_working (svc : Service) :
  reachable svc ->
  uploadedFile (state svc) <> None ->
  step (state svc) = awaiting_content \/ step (state svc) = processing.
Proof.
  intros Hreach.
  apply (reachable_holds
           (fun s => uploadedFile s <> None ->
                     step s = awaiting_content \/ step s = processing)
           (fun _ => True));
    try exact Hreach; cbn; auto; try congruence.
Qed.

(** X4: no reachable state of the service has the step
    [awaiting_approval]: the step is written only as [idle] (the default
    state), [awaiting_editors], [awaiting_content] or [processing], and only
    the metadata of the paragraph messages name [awaiting_approval].  And a
    reachable state holds an uploaded file only while its step is
    [awaiting_content] or [processing]. *)
Theorem reachable_state_shape (svc : Service) :
  reachable svc ->
  step (state svc) <> awaiting_approval /\
  (uploadedFile (state svc) <> None ->
   step (state svc) = awaiting_content \/ step (state svc) = processing).
Proof.
  intros Hreach. split.
  - apply step_never_awaiting_approval, Hreach.
  - apply file_only_while_working, Hreach.
Qed.

Lemma recordEditor_thread b data q :
  (isSequentialMode q = true -> threadId q <> None) ->
  isSequentialMode (recordEditor b data q) = true -> threadId (recordEditor b data q) <> None.
Proof.
  intros Hq. unfold recordEditor.
  destruct (ev_thread_id data) as [| |t]; [| |destruct (truthy t)];
    (destruct (ev_current_editor data) as [| |e]; [| |destruct (truthy e)]);
    cbn; auto; discriminate.
Qed.

(** X5: in a reachable state, sequential mode comes with a thread
    id: [isSequentialMode] is set only together with [threadId], and both
    are reset together. *)
Theorem sequential_mode_has_thread (svc : Service) :
  reachable svc ->
  isSequentialMode (sequential svc) = true -> threadId (sequential svc) <> None.
Proof.
  intros Hreach.
  apply (reachable_holds (fun _ => True)
           (fun q => isSequentialMode q = true -> threadId q <> None));
    try exact Hreach; cbn; auto; try discriminate.
  intros b data q. apply recordEditor_thread.
Qed.

End InvariantTheorems.

Lemma reachable_state_shape_witness :
  reachable (H := sampleExternal) processingService /\
  uploadedFile (state processingService) <> None /\
  step (state processingService) <> awaiting_approval /\
  (step (state processingService) = awaiting_content \/
   step (state processingService) = processing).
Proof.
  assert (reachable (H := sampleExternal) processingService) as Hreach.
  { unfold processingService. apply reach_call, reach_call, reach_initial. }
  assert (uploadedFile (state processingService) <> None) as Hfile
    by (vm_compute; discriminate).
  destruct (reachable_state_shape (H := sampleExternal) processingService Hreach)
    as [Hstep Hheld].
  split; [exact Hreach|]. split; [exact Hfile|]. split; [exact Hstep | exact (Hheld Hfile)].
Defined.

Lemma sequential_mode_has_thread_witness :
  let svc := exec (perform (H := sampleExternal)
                     (StreamNext (ObjectItem sampleCompleteEvent) sampleSession))
               initialService in
  reachable (H := sampleExternal) svc /\
  isSequentialMode (sequential svc) = true /\
  threadId (sequential svc) <> None.
Proof.
  intros svc.
  assert (reachable (H := sampleExternal) svc) as Hreach.
  { subst svc. apply reach_call, reach_initial. }
  assert (isSequentialMode (sequential svc) = true) as Hmode by (vm_compute; reflexivity).
  split; [exact Hreach|]. split; [exact Hmode|].
  exact (sequential_mode_has_thread (H := sampleExternal) svc Hreach Hmode).
Defined.

Section ThreadId.
Context `{External}.

Lemma nextEditor_no_thread svc edits reply :
  threadId (sequential svc) = None ->
  exec (nextEditor edits reply) svc = svc /\
  trace (nextEditor edits reply) svc = [MessageNext noThreadMessage].
Proof.
  intros Hnone. unfold nextEditor. run. rewrite Hnone. run. auto.
Qed.

Lemma perform_keeps_no_thread c svc :
  deliversEvent c = false ->
  threadId (sequential svc) = None ->
  threadId (sequential (exec (perform c) svc)) = None.
Proof.
  intros Hc Hnone.
  destruct (readsStream c) eqn:Hreads.
  - destruct c; try discriminate.
    cbn [perform]. rewrite (proj1 (nextEditor_no_thread _ _ _ Hnone)). exact Hnone.
  - apply (preserves_perform_offline (fun _ => True) (fun q => threadId q = None));
      auto.
    split; [exact Logic.I | exact Hnone].
Qed.

Lemma performAll_keeps_no_thread calls : forall svc,
  Forall (fun c => deliversEvent c = false) calls ->
  threadId (sequential svc) = None ->
  threadId (sequential (exec (performAll calls) svc)) = None.
Proof.
  induction calls as [|c rest IH]; intros svc Hcalls Hnone; cbn [performAll].
  - rewrite exec_ret. exact Hnone.
  - rewrite exec_bind. inversion Hcalls as [|? ? Hc Hrest]; subst.
    apply IH; [exact Hrest|]. apply perform_keeps_no_thread; assumption.
Qed.

Lemma onNextEditorEvent_thread data tid svc :
  ev_type data = editor_complete -> ev_thread_id data = Val tid -> truthy tid = true ->
  threadId (sequential (exec (onNextEditorEvent data) svc)) = Some tid.
Proof.
  intros Htype Hthread Htid. unfold onNextEditorEvent. rewrite Htype. run.
  destruct (truthyOpt (ev_original_content data)); run;
    unfold recordEditor; rewrite Hthread, Htid;
    (destruct (ev_current_editor data) as [| |e]; [| |destruct (truthy e)]); reflexivity.
Qed.

(** X6: the thread id is written by events only (the [editor_complete]
    events of the stream and of a [nextEditor] reply) and is dropped when
    the stream ends.  After the [complete] or the [error] callback of the
    subscription, and whatever is called then, as long as no item of a
    stream and no event of a [nextEditor] reply that is still being read
    comes in, [nextEditor] sends no request: it emits the prompt that no
    thread id is available and changes nothing.  One [editor_complete]
    event of a reply still being read, when it names a thread, brings the
    thread id back. *)
Theorem nextEditor_after_stream_end (svc0 : Service) (failed : bool) (calls : list Call)
    (edits : list ParagraphEdit) (reply : NextReply) :
  Forall (fun c => deliversEvent c = false) calls ->
  let svc := exec (performAll calls) (exec (if failed then onError else onComplete) svc0) in
  threadId (sequential svc) = None /\
  exec (nextEditor edits reply) svc = svc /\
  trace (nextEditor edits reply) svc = [MessageNext noThreadMessage] /\
  (forall data tid,
     ev_type data = editor_complete -> ev_thread_id data = Val tid -> truthy tid = true ->
     threadId (sequential (exec (perform (NextEditorEvent data)) svc)) = Some tid).
Proof.
  intros Hcalls svc.
  assert (threadId (sequential svc) = None) as Hnone.
  { unfold svc. apply performAll_keeps_no_thread; [exact Hcalls|].
    destruct failed; unfold onError, onComplete, completeWorkflow; run; reflexivity. }
  split; [exact Hnone|].
  split; [apply nextEditor_no_thread, Hnone|].
  split; [apply nextEditor_no_thread, Hnone|].
  intros data tid Htype Hthread Htid. cbn [perform]. rewrite exec_bind, exec_ret.
  apply onNextEditorEvent_thread; assumption.
Qed.

End ThreadId.

Lemma nextEditor_after_stream_end_witness :
  Forall (fun c => deliversEvent c = false)
    [CallSyncParagraphEditsFromMessage (paragraphEdits (state decidedService));
     CallApproveParagraph 1] /\
  trace (nextEditor (H := sampleExternal) (paragraphEdits (state decidedService))
           NextNoBody)
    (exec (performAll (H := sampleExternal)
             [CallSyncParagraphEditsFromMessage (paragraphEdits (state decidedService));
              CallApproveParagraph 1])
       (exec onComplete decidedService))
  = [MessageNext noThreadMessage] /\
  threadId
    (sequential
       (exec (perform (H := sampleExternal) (NextEditorEvent sampleCompleteEvent))
          (exec (performAll (H := sampleExternal)
                   [CallSyncParagraphEditsFromMessage (paragraphEdits (state decidedService));
                    CallApproveParagraph 1])
             (exec onComplete decidedService))))
  = Some (lit "thread-1").
Proof.
  assert (Forall (fun c => deliversEvent c = false)
            [CallSyncParagraphEditsFromMessage (paragraphEdits (state decidedService));
             CallApproveParagraph 1]) as Hcalls.
  { repeat constructor. }
  destruct (nextEditor_after_stream_end (H := sampleExternal) decidedService false _
              (paragraphEdits (state decidedService)) NextNoBody Hcalls)
    as (_ & _ & Htrace & Hback).
  split; [exact Hcalls|]. split; [exact Htrace|].
  exact (Hback sampleCompleteEvent (lit "thread-1") eq_refl eq_refl eq_refl).
Defined.

(** ** The highlight renderer: tags in, tags out *)

Lemma stripTagsFrom_sublist s : forall b, stripTagsFrom b s `sublist_of` s.
Proof.
  induction s as [|c s IH]; intros b; cbn [stripTagsFrom]; [constructor|].
  destruct b.
  - destruct (c =? 62)%N; apply sublist_cons, IH.
  - destruct ((c =? 60)%N && existsb (fun d => (d =? 62)%N) s).
    + apply sublist_cons, IH.
    + apply sublist_skip, IH.
Qed.

Lemma existsb_gt_false s : existsb (fun d => (d =? 62)%N) s = false <-> 62%N ∉ s.
Proof.
  induction s as [|c s IH]; cbn [existsb].
  - split; [intros _ Hin; apply elem_of_nil in Hin; exact Hin | reflexivity].
  - rewrite orb_false_iff, IH, not_elem_of_cons, N.eqb_neq. split; intros [? ?]; split; auto.
Qed.

Lemma stripTagsFrom_no_tag s : forall b pre post,
  stripTagsFrom b s = pre ++ 60%N :: post -> 62%N ∉ post.
Proof.
  induction s as [|c s IH]; intros b pre post; cbn [stripTagsFrom].
  - destruct pre; discriminate.
  - destruct b.
    + destruct (c =? 62)%N; apply IH.
    + destruct (N.eqb_spec c 60) as [->|Hc]; cbn [andb].
      * destruct (existsb _ s) eqn:Hex; [apply IH|].
        destruct pre as [|x pre]; cbn [app].
        -- intros [= <-]. intros Hin.
           apply existsb_gt_false in Hex. apply Hex.
           eapply elem_of_sublist; [exact Hin | apply stripTagsFrom_sublist].
        -- intros [= _ Heq]. exact (IH false pre post Heq).
      * destruct pre as [|x pre]; cbn [app].
        -- intros [= -> _]. contradiction.
        -- intros [= _ Heq]. exact (IH false pre post Heq).
Qed.

Lemma stripTagsFrom_fixed t :
  (forall pre post, t = pre ++ 60%N :: post -> 62%N ∉ post) ->
  stripTagsFrom false t = t.
Proof.
  induction t as [|c t IH]; intros Hgood; cbn [stripTagsFrom]; [reflexivity|].
  assert (stripTagsFrom false t = t) as Ht.
  { apply IH. intros pre post ->. apply (Hgood (c :: pre) post). reflexivity. }
  destruct (N.eqb_spec c 60) as [->|Hc]; cbn [andb].
  - rewrite (proj2 (existsb_gt_false t) (Hgood [] t eq_refl)). rewrite Ht. reflexivity.
  - rewrite Ht. reflexivity.
Qed.

(** X7: [stripHtmlSpans] leaves no tag behind: in its result no [<]
    is followed, anywhere later, by a [>]; so stripping again changes
    nothing; and the result is what is left of the text when some of its
    code units are dropped, in order. *)
Theorem stripHtmlSpans_leaves_no_tag (html : jsstring) :
  (forall pre post, stripHtmlSpans html = pre ++ 60%N :: post -> 62%N ∉ post) /\
  stripHtmlSpans (stripHtmlSpans html) = stripHtmlSpans html /\
  stripHtmlSpans html `sublist_of` html.
Proof.
  unfold stripHtmlSpans. split; [apply stripTagsFrom_no_tag|].
  split; [apply stripTagsFrom_fixed, stripTagsFrom_no_tag | apply stripTagsFrom_sublist].
Qed.

Lemma stripTagsFrom_plain_prefix P R :
  60%N ∉ P -> stripTagsFrom false (P ++ R) = P ++ stripTagsFrom false R.
Proof.
  induction P as [|c P IH]; intros Hno; cbn [app]; [reflexivity|].
  apply not_elem_of_cons in Hno as [Hc HP].
  cbn [stripTagsFrom]. destruct (N.eqb_spec c 60) as [->|_]; [contradiction|].
  cbn [andb]. rewrite (IH HP). reflexivity.
Qed.

Lemma stripTagsFrom_inside_tag P R :
  62%N ∉ P -> stripTagsFrom true (P ++ 62%N :: R) = stripTagsFrom false R.
Proof.
  induction P as [|c P IH]; intros Hno; cbn [app stripTagsFrom]; [reflexivity|].
  apply not_elem_of_cons in Hno as [Hc HP].
  destruct (N.eqb_spec c 62) as [->|_]; [contradiction|]. apply IH, HP.
Qed.

Lemma stripTagsFrom_tag P R :
  62%N ∉ P -> stripTagsFrom false (60%N :: P ++ 62%N :: R) = stripTagsFrom false R.
Proof.
  intros Hno. cbn [stripTagsFrom].
  replace (60 =? 60)%N with true by reflexivity.
  rewrite existsb_app. cbn [existsb]. replace (62 =? 62)%N with true by reflexivity.
  rewrite orb_true_r. cbn [orb andb]. apply stripTagsFrom_inside_tag, Hno.
Qed.

Lemma stripTagsFrom_span classes t R :
  62%N ∉ classes -> 60%N ∉ t ->
  stripTagsFrom false (span classes t ++ R) = t ++ stripTagsFrom false R.
Proof.
  intros Hcls Ht.
  assert (span classes t ++ R
          = 60%N :: (lit "span class=" ++ dquote ++ classes ++ dquote)
              ++ 62%N :: t ++ 60%N :: lit "/span" ++ 62%N :: R) as ->.
  { unfold span.
    replace (lit "<span class=") with (60%N :: lit "span class=") by (vm_compute; reflexivity).
    replace (lit ">") with [62%N] by (vm_compute; reflexivity).
    replace (lit "</span>") with (60%N :: lit "/span" ++ [62%N]) by (vm_compute; reflexivity).
    repeat (progress (rewrite <- ?app_assoc; cbn [app])). reflexivity. }
  rewrite stripTagsFrom_tag.
  - rewrite stripTagsFrom_plain_prefix by exact Ht.
    rewrite stripTagsFrom_tag; [reflexivity|].
    vm_compute. intros Hin. repeat (apply elem_of_cons in Hin as [Hin|Hin]; [discriminate|]).
    apply elem_of_nil in Hin. exact Hin.
  - rewrite !not_elem_of_app. split; [|split; [|split]]; try exact Hcls.
    + vm_compute. intros Hin.
      repeat (apply elem_of_cons in Hin as [Hin|Hin]; [discriminate|]).
      apply elem_of_nil in Hin. exact Hin.
    + vm_compute. intros Hin.
      repeat (apply elem_of_cons in Hin as [Hin|Hin]; [discriminate|]).
      apply elem_of_nil in Hin. exact Hin.
    + vm_compute. intros Hin.
      repeat (apply elem_of_cons in Hin as [Hin|Hin]; [discriminate|]).
      apply elem_of_nil in Hin. exact Hin.
Qed.

Lemma not_elem_of_take_drop {A} (x : A) n m l : x ∉ l -> x ∉ take n (drop m l).
Proof.
  intros Hno Hin. apply Hno.
  eapply elem_of_sublist; [exact Hin|].
  etransitivity; [apply sublist_take | apply sublist_drop].
Qed.

Lemma stripTagsFrom_highlight render item R :
  render = highlightOriginal \/ render = highlightEdited ->
  60%N ∉ item_text item ->
  stripTagsFrom false (render item ++ R) = item_text item ++ stripTagsFrom false R.
Proof.
  intros Hrender Ht.
  assert (forall s, s = lit "strikeout highlight-yellow" \/ s = lit "highlight-green"
                    \/ s = lit "highlight-yellow" -> 62%N ∉ s) as Hcls.
  { intros s [-> | [-> | ->]]; vm_compute; intros Hin;
      repeat (apply elem_of_cons in Hin as [Hin|Hin]; [discriminate|]);
      apply elem_of_nil in Hin; exact Hin. }
  destruct Hrender as [Hr|Hr]; rewrite Hr; unfold highlightOriginal, highlightEdited;
    destruct (item_approved item) as [[|]|]; apply stripTagsFrom_span; auto.
Qed.

Lemma slice_join {A} (l : list A) s e b :
  (s <= e)%nat -> (e <= b)%nat -> (b <= length l)%nat ->
  take (e - s) (drop s l) ++ drop e (take b l) ++ drop b l = drop s l.
Proof.
  intros Hse Heb Hb.
  rewrite <- drop_app_le by (rewrite length_take; lia).
  rewrite take_drop.
  replace (drop e l) with (drop (e - s) (drop s l))
    by (rewrite drop_drop; f_equal; lia).
  apply take_drop.
Qed.

Lemma applyHighlights_strip render text :
  render = highlightOriginal \/ render = highlightEdited ->
  60%N ∉ text ->
  forall items bound R,
    (bound <= length text)%nat ->
    wellPlaced text bound items = true ->
    stripTagsFrom false R = drop bound text ->
    stripTagsFrom false (applyHighlights render items (take bound text ++ R)) = text.
Proof.
  intros Hrender Hno. unfold applyHighlights.
  induction items as [|item items IH]; intros bound R Hbound Hplaced HR; cbn [fold_left].
  - rewrite stripTagsFrom_plain_prefix, HR, take_drop; [reflexivity|].
    intros Hin. apply Hno. eapply elem_of_sublist; [exact Hin | apply sublist_take].
  - cbn [wellPlaced] in Hplaced.
    apply andb_true_iff in Hplaced as [Hplaced Hrest].
    apply andb_true_iff in Hplaced as [Hplaced Htext].
    apply andb_true_iff in Hplaced as [Hse Heb].
    apply Nat.leb_le in Hse, Heb. apply bool_decide_eq_true in Htext.
    set (s := item_start item) in *. set (e := item_end item) in *.
    rewrite take_app_le by (rewrite length_take; lia).
    rewrite take_take, Nat.min_l by lia.
    rewrite drop_app_le by (rewrite length_take; lia).
    apply IH; [lia | exact Hrest |].
    rewrite (stripTagsFrom_highlight render item _ Hrender).
    + rewrite stripTagsFrom_plain_prefix.
      * rewrite HR, Htext. apply slice_join; lia.
      * intros Hin. apply Hno.
        eapply elem_of_sublist; [exact Hin|].
        etransitivity; [apply sublist_drop | apply sublist_take].
    + rewrite Htext. apply not_elem_of_take_drop, Hno.
Qed.

Lemma applyHighlights_strip_all render text items :
  render = highlightOriginal \/ render = highlightEdited ->
  60%N ∉ text ->
  wellPlaced text (length text) items = true ->
  stripHtmlSpans (applyHighlights render items text) = text.
Proof.
  intros Hrender Hno Hplaced.
  pose proof (applyHighlights_strip render text Hrender Hno items (length text) []
                (le_n _) Hplaced) as Hstrip.
  rewrite firstn_all, app_nil_r, drop_all in Hstrip. apply Hstrip. reflexivity.
Qed.

(** X8: when the items collected for a paragraph do not overlap
    (sorted from the end of the text, each ends where or before the
    previous one starts) and the plain texts hold no [<], the highlighting
    only adds spans: stripping the tags from the highlighted original and
    edited texts gives the plain texts back. *)
Theorem highlights_strip_back (p : ParagraphEdit) :
  let originalText := stripHtmlSpans (original p) in
  let editedText := stripHtmlSpans (edited p) in
  let editorial := default [] (editorial_feedback p) in
  60%N ∉ originalText -> 60%N ∉ editedText ->
  wellPlaced originalText (length originalText)
    (sortByStartDescending (collectItems issue originalText editorial)) = true ->
  wellPlaced editedText (length editedText)
    (sortByStartDescending (collectItems fix_ editedText editorial)) = true ->
  stripHtmlSpans (hl_original (highlightAllFeedbacks (Some p))) = originalText /\
  stripHtmlSpans (hl_edited (highlightAllFeedbacks (Some p))) = editedText.
Proof.
  intros originalText editedText editorial Hno Hne Hpo Hpe.
  unfold highlightAllFeedbacks. cbv zeta. cbn [hl_original hl_edited].
  split; apply applyHighlights_strip_all; auto.
Qed.

Lemma highlights_strip_back_witness :
  (60%N ∉ stripHtmlSpans (original flaggedApart)) /\
  (60%N ∉ stripHtmlSpans (edited flaggedApart)) /\
  length (collectItems issue (stripHtmlSpans (original flaggedApart))
            (default [] (editorial_feedback flaggedApart))) = 2%nat /\
  stripHtmlSpans (hl_original (highlightAllFeedbacks (Some flaggedApart)))
  = original flaggedApart /\
  stripHtmlSpans (hl_edited (highlightAllFeedbacks (Some flaggedApart)))
  = edited flaggedApart.
Proof.
  assert (60%N ∉ stripHtmlSpans (original flaggedApart)) as Hno.
  { intros Hin. vm_compute in Hin.
    repeat (apply elem_of_cons in Hin as [Hin|Hin]; [discriminate Hin|]).
    apply elem_of_nil in Hin. exact Hin. }
  assert (60%N ∉ stripHtmlSpans (edited flaggedApart)) as Hne.
  { intros Hin. vm_compute in Hin.
    repeat (apply elem_of_cons in Hin as [Hin|Hin]; [discriminate Hin|]).
    apply elem_of_nil in Hin. exact Hin. }
  split; [exact Hno|]. split; [exact Hne|]. split; [vm_compute; reflexivity|].
  apply (highlights_strip_back flaggedApart Hno Hne); vm_compute; reflexivity.
Defined.

(** ** Requests to the backend *)

Lemma requests_bind {A B} (c : M A) (k : A -> M B) svc :
  requests (c ≫= k) svc = requests c svc ++ requests (k (value c svc)) (exec c svc).
Proof. unfold requests. rewrite trace_bind. apply filter_app. Qed.

Lemma sendsAtMost_ret {A} (a : A) : sendsAtMost 0 (mret a).
Proof. intros svc. unfold requests. rewrite trace_ret. reflexivity. Qed.

Lemma sendsAtMost_bind a b {A B} (c : M A) (k : A -> M B) :
  sendsAtMost a c -> (forall x, sendsAtMost b (k x)) -> sendsAtMost (a + b) (c ≫= k).
Proof.
  intros Hc Hk svc. rewrite requests_bind, length_app.
  specialize (Hc svc). specialize (Hk (value c svc) (exec c svc)). lia.
Qed.

Lemma sendsAtMost_quiet_bind {A B} (c : M A) (k : A -> M B) :
  sendsAtMost 0 c -> (forall x, sendsAtMost 0 (k x)) -> sendsAtMost 0 (c ≫= k).
Proof. apply (sendsAtMost_bind 0 0). Qed.

Lemma sendsAtMost_then {A B} (c : M A) (k : A -> M B) :
  sendsAtMost 0 c -> (forall x, sendsAtMost 1 (k x)) -> sendsAtMost 1 (c ≫= k).
Proof. apply (sendsAtMost_bind 0 1). Qed.

Lemma sendsAtMost_first {A B} (c : M A) (k : A -> M B) :
  sendsAtMost 1 c -> (forall x, sendsAtMost 0 (k x)) -> sendsAtMost 1 (c ≫= k).
Proof. apply (sendsAtMost_bind 1 0). Qed.

Lemma sendsAtMost_more {A} (c : M A) : sendsAtMost 0 c -> sendsAtMost 1 c.
Proof. intros Hc svc. specialize (Hc svc). lia. Qed.

Lemma sendsAtMost_currentState : sendsAtMost 0 currentState.
Proof. intros svc. unfold requests. rewrite trace_currentState. reflexivity. Qed.

Lemma sendsAtMost_getSequential : sendsAtMost 0 getSequential.
Proof. intros svc. unfold requests. rewrite trace_getSequential. reflexivity. Qed.

Lemma sendsAtMost_updateState s : sendsAtMost 0 (updateState s).
Proof. intros svc. unfold requests. rewrite trace_updateState. reflexivity. Qed.

Lemma sendsAtMost_setSequential q : sendsAtMost 0 (setSequential q).
Proof. intros svc. unfold requests. rewrite trace_setSequential. reflexivity. Qed.

Lemma sendsAtMost_messageNext t m : sendsAtMost 0 (messageNext t m).
Proof. intros svc. unfold requests. rewrite trace_messageNext. reflexivity. Qed.

Lemma sendsAtMost_isGeneratingFinalNext b : sendsAtMost 0 (isGeneratingFinalNext b).
Proof. intros svc. unfold requests. rewrite trace_isGeneratingFinalNext. reflexivity. Qed.

Lemma sendsAtMost_getNumberedEditorList : sendsAtMost 0 getNumberedEditorList.
Proof. intros svc. unfold requests. rewrite trace_getNumberedEditorList. reflexivity. Qed.

Lemma sendsAtMost_emit_quiet e : isBackendRequest e = false -> sendsAtMost 0 (emit e).
Proof.
  intros He svc. unfold requests. rewrite trace_emit. cbn [List.filter]. rewrite He.
  reflexivity.
Qed.

Lemma sendsAtMost_emit e : sendsAtMost 1 (emit e).
Proof.
  intros svc. unfold requests. rewrite trace_emit. cbn [List.filter].
  destruct (isBackendRequest e); cbn [length]; lia.
Qed.

Create HintDb quiet discriminated.
Create HintDb single discriminated.

Ltac sends_known c op lem :=
  let h := head_of c in
  lazymatch h with
  | op => apply lem
  end.

(** A computation that sends nothing. *)
Ltac quiet_step :=
  lazymatch goal with
  | |- sendsAtMost 0 (mret _) => apply sendsAtMost_ret
  | |- sendsAtMost 0 (emit _) => apply sendsAtMost_emit_quiet; reflexivity
  | |- sendsAtMost 0 (messageNext _ _) => apply sendsAtMost_messageNext
  | |- sendsAtMost 0 (isGeneratingFinalNext _) => apply sendsAtMost_isGeneratingFinalNext
  | |- sendsAtMost 0 getNumberedEditorList => apply sendsAtMost_getNumberedEditorList
  | |- sendsAtMost 0 (updateState _) => apply sendsAtMost_updateState
  | |- sendsAtMost 0 (setSequential _) => apply sendsAtMost_setSequential
  | |- sendsAtMost 0 currentState => apply sendsAtMost_currentState
  | |- sendsAtMost 0 getSequential => apply sendsAtMost_getSequential
  | |- sendsAtMost 0 (mbind _ _) => apply sendsAtMost_quiet_bind; [| intros ?]
  | |- sendsAtMost 0 (match ?x with _ => _ end) => destruct x
  end.

Ltac quiet := repeat first [ solve [auto 2 with quiet nocore] | quiet_step ].

(** A computation that sends one request at most: of the two sides of a
    bind one is quiet. *)
Ltac single :=
  lazymatch goal with
  | |- sendsAtMost 1 (emit _) => apply sendsAtMost_emit
  | |- sendsAtMost 1 (match ?x with _ => _ end) => destruct x; single
  | |- sendsAtMost 1 (mbind _ _) =>
      first [ apply sendsAtMost_then; [solve [quiet] | intros ?; single]
            | apply sendsAtMost_first; [single | intros ?; solve [quiet]] ]
  | |- sendsAtMost 1 _ =>
      first [ solve [auto 2 with single nocore] | apply sendsAtMost_more; solve [quiet] ]
  end.

Section Requests.
Context `{External}.

Lemma quiet_beginWorkflow : sendsAtMost 0 beginWorkflow.
Proof. unfold beginWorkflow. quiet. Qed.
#[local] Hint Extern 0 (sendsAtMost 0 ?c) =>
  sends_known c beginWorkflow quiet_beginWorkflow : quiet.

Lemma quiet_beginWorkflowWithEditors ids : sendsAtMost 0 (beginWorkflowWithEditors ids).
Proof. unfold beginWorkflowWithEditors. quiet. Qed.
#[local] Hint Extern 0 (sendsAtMost 0 ?c) =>
  sends_known c beginWorkflowWithEditors quiet_beginWorkflowWithEditors : quiet.

Lemma quiet_showInvalidSelectionError : sendsAtMost 0 (showInvalidSelectionError).
Proof. unfold showInvalidSelectionError. quiet. Qed.
#[local] Hint Extern 0 (sendsAtMost 0 ?c) =>
  sends_known c showInvalidSelectionError quiet_showInvalidSelectionError : quiet.

Lemma quiet_handleNumericSelection r : sendsAtMost 0 (handleNumericSelection r).
Proof. unfold handleNumericSelection. quiet. Qed.
#[local] Hint Extern 0 (sendsAtMost 0 ?c) =>
  sends_known c handleNumericSelection quiet_handleNumericSelection : quiet.

Lemma quiet_handleOptOutAndProceed optedOut sections : sendsAtMost 0 (handleOptOutAndProceed optedOut sections).
Proof. unfold handleOptOutAndProceed. quiet. Qed.
#[local] Hint Extern 0 (sendsAtMost 0 ?c) =>
  sends_known c handleOptOutAndProceed quiet_handleOptOutAndProceed : quiet.

Lemma quiet_createNoEditorsErrorMessage o : sendsAtMost 0 (createNoEditorsErrorMessage o).
Proof. unfold createNoEditorsErrorMessage. quiet. Qed.
#[local] Hint Extern 0 (sendsAtMost 0 ?c) =>
  sends_known c createNoEditorsErrorMessage quiet_createNoEditorsErrorMessage : quiet.

Lemma quiet_proceedToContentStep : sendsAtMost 0 (proceedToContentStep).
Proof. unfold proceedToContentStep. quiet. Qed.
#[local] Hint Extern 0 (sendsAtMost 0 ?c) =>
  sends_known c proceedToContentStep quiet_proceedToContentStep : quiet.

Lemma quiet_completeWorkflow : sendsAtMost 0 (completeWorkflow).
Proof. unfold completeWorkflow. quiet. Qed.
#[local] Hint Extern 0 (sendsAtMost 0 ?c) =>
  sends_known c completeWorkflow quiet_completeWorkflow : quiet.

Lemma quiet_cancelWorkflow : sendsAtMost 0 (cancelWorkflow).
Proof. unfold cancelWorkflow. quiet. Qed.
#[local] Hint Extern 0 (sendsAtMost 0 ?c) =>
  sends_known c cancelWorkflow quiet_cancelWorkflow : quiet.

Lemma quiet_dispatchResultsToChat names fb rev edits : sendsAtMost 0 (dispatchResultsToChat names fb rev edits).
Proof. unfold dispatchResultsToChat. quiet. Qed.
#[local] Hint Extern 0 (sendsAtMost 0 ?c) =>
  sends_known c dispatchResultsToChat quiet_dispatchResultsToChat : quiet.

Lemma quiet_onEvent data sess : sendsAtMost 0 (onEvent data sess).
Proof. unfold onEvent. quiet. Qed.
#[local] Hint Extern 0 (sendsAtMost 0 ?c) =>
  sends_known c onEvent quiet_onEvent : quiet.

Lemma quiet_onNext item sess : sendsAtMost 0 (onNext item sess).
Proof. unfold onNext. quiet. Qed.
#[local] Hint Extern 0 (sendsAtMost 0 ?c) =>
  sends_known c onNext quiet_onNext : quiet.

Lemma quiet_onError : sendsAtMost 0 (onError).
Proof. unfold onError. quiet. Qed.
#[local] Hint Extern 0 (sendsAtMost 0 ?c) =>
  sends_known c onError quiet_onError : quiet.

Lemma quiet_onComplete : sendsAtMost 0 (onComplete).
Proof. unfold onComplete. quiet. Qed.
#[local] Hint Extern 0 (sendsAtMost 0 ?c) =>
  sends_known c onComplete quiet_onComplete : quiet.

Lemma quiet_processingFailed : sendsAtMost 0 (processingFailed).
Proof. unfold processingFailed. quiet. Qed.
#[local] Hint Extern 0 (sendsAtMost 0 ?c) =>
  sends_known c processingFailed quiet_processingFailed : quiet.

Lemma quiet_handleEditorSelection ids : sendsAtMost 0 (handleEditorSelection ids).
Proof. unfold handleEditorSelection. quiet. Qed.
#[local] Hint Extern 0 (sendsAtMost 0 ?c) =>
  sends_known c handleEditorSelection quiet_handleEditorSelection : quiet.

Lemma quiet_emitParagraphUpdateMessage : sendsAtMost 0 (emitParagraphUpdateMessage).
Proof. unfold emitParagraphUpdateMessage. quiet. Qed.
#[local] Hint Extern 0 (sendsAtMost 0 ?c) =>
  sends_known c emitParagraphUpdateMessage quiet_emitParagraphUpdateMessage : quiet.

Lemma quiet_decideParagraph v i : sendsAtMost 0 (decideParagraph v i).
Proof. unfold decideParagraph. quiet. Qed.
#[local] Hint Extern 0 (sendsAtMost 0 ?c) =>
  sends_known c decideParagraph quiet_decideParagraph : quiet.

Lemma quiet_syncParagraphEditsFromMessage edits : sendsAtMost 0 (syncParagraphEditsFromMessage edits).
Proof. unfold syncParagraphEditsFromMessage. quiet. Qed.
#[local] Hint Extern 0 (sendsAtMost 0 ?c) =>
  sends_known c syncParagraphEditsFromMessage quiet_syncParagraphEditsFromMessage : quiet.

Lemma quiet_onNextEditorEvent data : sendsAtMost 0 (onNextEditorEvent data).
Proof. unfold onNextEditorEvent. quiet. Qed.
#[local] Hint Extern 0 (sendsAtMost 0 ?c) =>
  sends_known c onNextEditorEvent quiet_onNextEditorEvent : quiet.

Lemma quiet_onNextEditorEvents events : sendsAtMost 0 (onNextEditorEvents events).
Proof. induction events as [|data rest IH]; simpl; quiet. Qed.
#[local] Hint Extern 0 (sendsAtMost 0 ?c) =>
  sends_known c onNextEditorEvents quiet_onNextEditorEvents : quiet.

Lemma quiet_nextEditorFailed msg : sendsAtMost 0 (nextEditorFailed msg).
Proof. unfold nextEditorFailed. quiet. Qed.
#[local] Hint Extern 0 (sendsAtMost 0 ?c) =>
  sends_known c nextEditorFailed quiet_nextEditorFailed : quiet.

Lemma quiet_generationFailed msg : sendsAtMost 0 (generationFailed msg).
Proof. unfold generationFailed. quiet. Qed.
#[local] Hint Extern 0 (sendsAtMost 0 ?c) =>
  sends_known c generationFailed quiet_generationFailed : quiet.

Lemma single_detectEditIntent input reply : sendsAtMost 1 (detectEditIntent input reply).
Proof. unfold detectEditIntent. single. Qed.
#[local] Hint Extern 0 (sendsAtMost 1 ?c) =>
  sends_known c detectEditIntent single_detectEditIntent : single.

Lemma single_processContent text ids names : sendsAtMost 1 (processContent text ids names).
Proof. unfold processContent. single. Qed.
#[local] Hint Extern 0 (sendsAtMost 1 ?c) =>
  sends_known c processContent single_processContent : single.

Lemma single_processWithContent : sendsAtMost 1 (processWithContent).
Proof. unfold processWithContent. single. Qed.
#[local] Hint Extern 0 (sendsAtMost 1 ?c) =>
  sends_known c processWithContent single_processWithContent : single.

Lemma single_handleFileUpload file : sendsAtMost 1 (handleFileUpload file).
Proof. unfold handleFileUpload. single. Qed.
#[local] Hint Extern 0 (sendsAtMost 1 ?c) =>
  sends_known c handleFileUpload single_handleFileUpload : single.

Lemma single_nextEditor edits reply : sendsAtMost 1 (nextEditor edits reply).
Proof. unfold nextEditor. single. Qed.
#[local] Hint Extern 0 (sendsAtMost 1 ?c) =>
  sends_known c nextEditor single_nextEditor : single.

Lemma single_generateFinalArticle reply : sendsAtMost 1 (generateFinalArticle reply).
Proof. unfold generateFinalArticle. single. Qed.
#[local] Hint Extern 0 (sendsAtMost 1 ?c) =>
  sends_known c generateFinalArticle single_generateFinalArticle : single.

Lemma single_handleChatInput fuel input file reply : sendsAtMost 1 (handleChatInput fuel input file reply).
Proof. unfold handleChatInput. single. Qed.
#[local] Hint Extern 0 (sendsAtMost 1 ?c) =>
  sends_known c handleChatInput single_handleChatInput : single.

(** X9: a call sends one request to the backend at most, and only
    [detectEditIntent], [handleFileUpload], [handleChatInput], [nextEditor]
    and [generateFinalArticle] send any: the other public methods, the
    callbacks of the stream, the events of a [nextEditor] reply and the
    writes of the component send none. *)
Theorem one_request_per_call (c : Call) (svc : Service) :
  (length (requests (perform c) svc) <= 1)%nat /\
  (contactsBackend c = false -> requests (perform c) svc = []).
Proof.
  split.
  - revert svc. change (sendsAtMost 1 (perform c)).
    destruct c; cbn [perform]; unfold approveParagraph, declineParagraph; single.
  - intros Hc. apply length_zero_iff_nil, Nat.le_0_r. revert svc.
    change (sendsAtMost 0 (perform c)).
    destruct c; try discriminate; cbn [perform];
      unfold approveParagraph, declineParagraph; quiet.
Qed.

End Requests.

Lemma one_request_per_call_witness :
  contactsBackend (StreamNext (ObjectItem sampleCompleteEvent) sampleSession) = false /\
  requests (perform (H := sampleExternal)
              (StreamNext (ObjectItem sampleCompleteEvent) sampleSession))
    processingService = [] /\
  requests (perform (H := sampleExternal) (CallDetectEditIntent (lit "edit my draft") None))
    processingService = [DetectEditIntent (lit "edit my draft")].
Proof.
  split; [reflexivity|]. split.
  - exact (proj2 (one_request_per_call (H := sampleExternal)
                    (StreamNext (ObjectItem sampleCompleteEvent) sampleSession)
                    processingService) eq_refl).
  - pose proof (proj1 (one_request_per_call (H := sampleExternal)
                         (CallDetectEditIntent (lit "edit my draft") None)
                         processingService)) as Hone.
    destruct (requests _ _) as [|e [|e' rest]] eqn:Hsent in Hone |- *;
      [vm_compute in Hsent; discriminate Hsent
      |vm_compute in Hsent; injection Hsent as <-; reflexivity
      |cbn in Hone; lia].
Defined.

(** ** Trimming *)

Lemma takeWhile_dropWhile {A} (p : A -> bool) l : takeWhile p l ++ dropWhile p l = l.
Proof.
  induction l as [|x l IH]; cbn [takeWhile dropWhile]; [reflexivity|].
  destruct (p x); cbn [app]; [rewrite IH|]; reflexivity.
Qed.

Lemma dropWhile_head {A} (p : A -> bool) l :
  match dropWhile p l with
  | [] => True
  | x :: _ => p x = false
  end.
Proof.
  induction l as [|x l IH]; cbn [dropWhile]; [exact Logic.I|].
  destruct (p x) eqn:Hx; [exact IH | exact Hx].
Qed.

Lemma dropWhile_fixed {A} (p : A -> bool) l :
  match l with [] => True | x :: _ => p x = false end -> dropWhile p l = l.
Proof. destruct l as [|x l]; cbn [dropWhile]; [reflexivity|]. intros ->. reflexivity. Qed.

Lemma dropWhile_idempotent {A} (p : A -> bool) l :
  dropWhile p (dropWhile p l) = dropWhile p l.
Proof. apply dropWhile_fixed, dropWhile_head. Qed.

Lemma trimStart_trimEnd t : trimStart t = t -> trimStart (trimEnd t) = trimEnd t.
Proof.
  unfold trimStart, trimEnd. intros Ht. apply dropWhile_fixed.
  pose proof (takeWhile_dropWhile isWhiteSpace (rev t)) as Hsplit.
  apply (f_equal (@rev N)) in Hsplit. rewrite rev_app_distr, rev_involutive in Hsplit.
  destruct (rev (dropWhile isWhiteSpace (rev t))) as [|x u]; [exact Logic.I|].
  rewrite <- Hsplit in Ht. cbn [app] in Ht.
  pose proof (dropWhile_head isWhiteSpace
                (x :: u ++ rev (takeWhile isWhiteSpace (rev t)))) as Hhead.
  rewrite Ht in Hhead. exact Hhead.
Qed.

Lemma trim_idempotent s : trim (trim s) = trim s.
Proof.
  unfold trim.
  rewrite trimStart_trimEnd by apply dropWhile_idempotent.
  unfold trimEnd. rewrite rev_involutive, dropWhile_idempotent. reflexivity.
Qed.

Lemma trim_blank s : truthy (trim s) = false -> trim s = [].
Proof. destruct (trim s); [reflexivity | discriminate]. Qed.

(** ** Starting from the chat *)

Lemma beginWorkflow_trace svc :
  exists m, trace beginWorkflow svc
            = [WorkflowStartedNext; MessageNext (mkWorkflowMessage msg_prompt m)].
Proof. unfold beginWorkflow. run. eexists. reflexivity. Qed.

Lemma valid_editor_ids : map opt_id editorOptions
  = [lit "development"; lit "content"; lit "line"; lit "copy"; brand_alignment].
Proof. reflexivity. Qed.

(** X10: [beginWorkflowWithEditors] keeps the ids that name an
    editor, in the order given.  With none left it is [beginWorkflow]; with
    some it restarts from the default state in step [awaiting_content] with
    these ids and the brand alignment editor selected, fires
    [workflowStarted] and asks for the document.  Either way no id is stored
    that names no editor, what the state held before is discarded, and the
    sequential fields are kept. *)
Theorem beginWorkflowWithEditors_known_ids (ids : list jsstring) (svc : Service) :
  let known := List.filter (includesStr (map opt_id editorOptions)) ids in
  let after := exec (beginWorkflowWithEditors ids) svc in
  (known = [] ->
   after = exec beginWorkflow svc /\
   trace (beginWorkflowWithEditors ids) svc = trace beginWorkflow svc /\
   state after = withStep awaiting_editors getDefaultState) /\
  (known <> [] ->
   state after = mkState awaiting_content None (ensureBrandAlignment known) [] [] /\
   trace (beginWorkflowWithEditors ids) svc
   = [WorkflowStartedNext;
      MessageNext (mkWorkflowMessage msg_prompt
                     (uploadRequestMessage (getSelectedEditorNames known)))]) /\
  (forall i, i ∈ selectedEditors (state after) -> i ∈ map opt_id editorOptions) /\
  sequential after = sequential svc /\
  isGeneratingFinal after = isGeneratingFinal svc.
Proof.
  intros known after. subst after. unfold beginWorkflowWithEditors.
  assert (forall i, i ∈ ensureBrandAlignment known -> i ∈ map opt_id editorOptions) as Hknown.
  { intros i. unfold ensureBrandAlignment. destruct (includesStr known brand_alignment).
    - unfold known. rewrite list_elem_of_In, filter_In. intros [_ Hi].
      unfold includesStr in Hi. apply bool_decide_eq_true in Hi. exact Hi.
    - rewrite elem_of_app. intros [Hi|Hi].
      + unfold known in Hi. rewrite list_elem_of_In, filter_In in Hi.
        destruct Hi as [_ Hi]. unfold includesStr in Hi.
        apply bool_decide_eq_true in Hi. exact Hi.
      + apply list_elem_of_singleton in Hi as ->. rewrite valid_editor_ids.
        repeat constructor. }
  assert (forall i, i ∈ selectedEditors (state (exec beginWorkflow svc))
                    -> i ∈ map opt_id editorOptions) as Hdefault.
  { intros i. unfold beginWorkflow. run. cbn [getDefaultState].
    intros Hi. apply list_elem_of_singleton in Hi as ->. rewrite valid_editor_ids.
    repeat constructor. }
  destruct ids as [|x xs].
  { cbn in known. subst known.
    split; [intros _; split; [reflexivity|split; [reflexivity|]];
            unfold beginWorkflow; run; reflexivity|].
    split; [intros Hne; contradiction|]. split; [exact Hdefault|].
    unfold beginWorkflow. run. auto. }
  fold known. destruct known as [|k ks] eqn:Hk.
  { split; [intros _; split; [reflexivity|split; [reflexivity|]];
            unfold beginWorkflow; run; reflexivity|].
    split; [intros Hne; contradiction|]. split; [exact Hdefault|].
    unfold beginWorkflow. run. auto. }
  split; [discriminate|]. run.
  split; [intros _; split; reflexivity|].
  split; [exact Hknown|]. auto.
Qed.

Lemma beginWorkflowWithEditors_known_ids_witness :
  List.filter (includesStr (map opt_id editorOptions)) [lit "poetry"; lit "copy"]
  = [lit "copy"] /\
  state (exec (beginWorkflowWithEditors [lit "poetry"; lit "copy"])
           reviewService)
  = mkState awaiting_content None [lit "copy"; brand_alignment] [] [].
Proof.
  assert (List.filter (includesStr (map opt_id editorOptions)) [lit "poetry"; lit "copy"]
          = [lit "copy"]) as Hknown by (vm_compute; reflexivity).
  split; [exact Hknown|].
  destruct (beginWorkflowWithEditors_known_ids
              [lit "poetry"; lit "copy"] reviewService) as (_ & Hsome & _).
  cbv zeta in Hsome. rewrite Hknown in Hsome.
  rewrite (proj1 (Hsome ltac:(discriminate))). vm_compute. reflexivity.
Defined.

Lemma step_after_beginWorkflowWithEditors ids svc :
  step (state (exec (beginWorkflowWithEditors ids) svc)) <> idle.
Proof.
  unfold beginWorkflowWithEditors, beginWorkflow.
  destruct ids; [run; discriminate|].
  destruct (List.filter _ _); run; discriminate.
Qed.

Section ChatInput.
Context `{External}.

(** X11: [handleChatInput] does nothing at all (same service,
    nothing emitted, no request) while the step is [processing] or
    [awaiting_approval], whatever the input and the file; and in every step
    on an input that is blank after trimming, unless a file comes with it
    while the step is [awaiting_content]. *)
Theorem handleChatInput_ignored (fuel : nat) (input : jsstring) (file : option File)
    (reply : option IntentResult) (svc : Service) :
  step (state svc) = processing \/ step (state svc) = awaiting_approval \/
  (truthy (trim input) = false /\ (file = None \/ step (state svc) <> awaiting_content)) ->
  exec (handleChatInput fuel input file reply) svc = svc /\
  trace (handleChatInput fuel input file reply) svc = [] /\
  value (handleChatInput fuel input file reply) svc = ChatReturns None.
Proof.
  intros Hcase. unfold handleChatInput. run.
  case_bool_decide as Hidle; cbn [negb].
  - destruct Hcase as [Hc|[Hc|[Hblank _]]]; [congruence..|].
    unfold detectEditIntent. rewrite trim_idempotent, Hblank. cbn [negb]. run. auto.
  - destruct (decide (step (state svc) = awaiting_editors)) as [Heditors|_].
    { destruct Hcase as [Hc|[Hc|[Hblank _]]]; [congruence..|].
      rewrite Hblank. run. auto. }
    destruct (decide (step (state svc) = awaiting_content)) as [Hcontent|_];
      [|run; auto].
    destruct Hcase as [Hc|[Hc|[Hblank [->|Hne]]]]; [congruence..| |contradiction].
    rewrite Hblank. run. auto.
Qed.

(** X12: the only way for [handleChatInput] to start a stream is
    a file that arrives while the step is [awaiting_content]; the call is
    then [handleFileUpload] of that file, whatever text comes with it. *)
Theorem handleChatInput_streams_only_uploads (fuel : nat) (input : jsstring)
    (file : option File) (reply : option IntentResult) (svc : Service) :
  (forall sess,
     value (handleChatInput fuel input file reply) svc = ChatReturns (Some sess) ->
     step (state svc) = awaiting_content /\ exists f, file = Some f) /\
  (forall f,
     step (state svc) = awaiting_content -> file = Some f ->
     exec (handleChatInput fuel input file reply) svc = exec (handleFileUpload f) svc /\
     trace (handleChatInput fuel input file reply) svc = trace (handleFileUpload f) svc /\
     value (handleChatInput fuel input file reply) svc
     = ChatReturns (value (handleFileUpload f) svc)).
Proof.
  split.
  - intros sess. unfold handleChatInput. run.
    case_bool_decide as Hidle; cbn [negb].
    { run. destruct (value (detectEditIntent _ _) _) as [[|] [eds|]]; run; discriminate. }
    destruct (decide (step (state svc) = awaiting_editors)) as [Heditors|_].
    { destruct (truthy _); [|run; discriminate].
      destruct (_ || _); [run; discriminate|].
      destruct (includes _ _); [run; discriminate|].
      destruct (parseNumericSelection _ _) as [r|]; [|run; discriminate].
      destruct (_ || _); [run; discriminate|].
      destruct (_ <? _)%nat; run; discriminate. }
    destruct (decide (step (state svc) = awaiting_content)) as [Hcontent|_];
      [|run; discriminate].
    destruct file as [f|].
    + intros _. split; [exact Hcontent | exists f; reflexivity].
    + destruct (truthy _); run; discriminate.
  - intros f Hcontent ->. unfold handleChatInput. run.
    case_bool_decide as Hidle; [congruence|]. cbn [negb].
    destruct (decide (step (state svc) = awaiting_editors)); [congruence|].
    destruct (decide (step (state svc) = awaiting_content)); [|contradiction].
    run. rewrite app_nil_r. auto.
Qed.

(** X13: in step [idle] a non-blank input is sent, trimmed, to the
    intent detection.  Unless the reply reports an edit intent with
    confidence 0.7 or more, the service stays as it is: a request that
    fails counts as no intent.  Otherwise the call is
    [beginWorkflowWithEditors] of the editors detected ([beginWorkflow] when
    there are none), and the step is no longer [idle].  The file is not
    looked at. *)
Theorem handleChatInput_idle (fuel : nat) (input : jsstring) (file : option File)
    (reply : option IntentResult) (svc : Service) :
  step (state svc) = idle -> truthy (trim input) = true ->
  let detected :=
    match reply with
    | Some r => is_edit_intent r && confidence_at_least_0_7 r
    | None => false
    end in
  let editors :=
    match reply with
    | Some r => arrOr (detected_editors r)
    | None => []
    end in
  let after := exec (handleChatInput fuel input file reply) svc in
  value (handleChatInput fuel input file reply) svc = ChatReturns None /\
  (detected = false ->
   after = svc /\
   trace (handleChatInput fuel input file reply) svc = [DetectEditIntent (trim input)]) /\
  (detected = true ->
   after = exec (beginWorkflowWithEditors editors) svc /\
   trace (handleChatInput fuel input file reply) svc
   = DetectEditIntent (trim input) :: trace (beginWorkflowWithEditors editors) svc /\
   step (state after) <> idle).
Proof.
  intros Hidle Htext detected editors after. subst after.
  unfold handleChatInput, detectEditIntent. run.
  rewrite Hidle. cbn [bool_decide decide_rel negb].
  case_bool_decide; [|contradiction]. cbn [negb].
  rewrite trim_idempotent, Htext. cbn [negb]. run.
  destruct reply as [r|]; run.
  - subst detected editors. cbn zeta.
    destruct (is_edit_intent r && confidence_at_least_0_7 r).
    + destruct (detected_editors r) as [| |[|e es]]; run; cbn [arrOr];
        (split; [reflexivity|]); (split; [discriminate|]); intros _;
        rewrite ?app_nil_r;
        (split; [reflexivity|]); (split; [reflexivity|]);
        first [ apply step_after_beginWorkflowWithEditors
              | apply (step_after_beginWorkflowWithEditors []) ].
    + run. split; [reflexivity|]. split; [auto | discriminate].
  - subst detected. split; [reflexivity|]. split; [auto | discriminate].
Qed.

End ChatInput.

Lemma handleChatInput_ignored_witness :
  step (state processingService) = processing /\
  exec (handleChatInput (H := sampleExternal) 10 (lit "cancel") (Some draftFile) None)
    processingService = processingService.
Proof.
  assert (step (state processingService) = processing) as Hstep by (vm_compute; reflexivity).
  split; [exact Hstep|].
  apply (handleChatInput_ignored (H := sampleExternal) 10 (lit "cancel") (Some draftFile)
           None processingService).
  left. exact Hstep.
Defined.

Lemma handleChatInput_idle_witness :
  step (state initialService) = idle /\
  truthy (trim (lit " edit my draft ")) = true /\
  step (state (exec (handleChatInput (H := sampleExternal) 10 (lit " edit my draft ") None
                       (Some (mkIntentResult true true (Val [lit "copy"; lit "nobody"]))))
                 initialService)) <> idle /\
  exec (handleChatInput (H := sampleExternal) 10 (lit " edit my draft ") None
          (Some (mkIntentResult true false (Val [lit "copy"]))))
    initialService = initialService.
Proof.
  split; [reflexivity|]. split; [vm_compute; reflexivity|].
  split.
  - apply (handleChatInput_idle (H := sampleExternal) 10 (lit " edit my draft ") None
             (Some (mkIntentResult true true (Val [lit "copy"; lit "nobody"])))
             initialService eq_refl); [vm_compute|]; reflexivity.
  - apply (handleChatInput_idle (H := sampleExternal) 10 (lit " edit my draft ") None
             (Some (mkIntentResult true false (Val [lit "copy"])))
             initialService eq_refl); [vm_compute|]; reflexivity.
Defined.

Lemma handleChatInput_streams_only_uploads_witness :
  step (state awaitingContentService) = awaiting_content /\
  exists sess,
    value (handleChatInput (H := sampleExternal) 0 (lit "here it is") (Some draftFile) None)
      awaitingContentService = ChatReturns (Some sess).
Proof.
  destruct (handleChatInput_streams_only_uploads (H := sampleExternal) 0 (lit "here it is")
              (Some draftFile) None awaitingContentService) as [Honly Hupload].
  destruct (Hupload draftFile eq_refl eq_refl) as (_ & _ & Hvalue).
  destruct (value (handleFileUpload (H := sampleExternal) draftFile) awaitingContentService)
    as [sess|] eqn:Hstarted; [|vm_compute in Hstarted; discriminate Hstarted].
  split; [exact (proj1 (Honly sess Hvalue))|].
  exists sess. exact Hvalue.
Defined.

(** ** The final article: what a call leaves behind *)

Section FinalArticle.
Context `{External}.

(** X14: when all paragraphs are decided but [generateFinalArticle]
    fails (no content to send, the request fails, the server answers with
    an error status or without an article), the state and the sequential
    fields stay as they were, so that the call can be repeated; the
    generating flag is raised and lowered again; a request is sent only if
    there is content; one prompt reports the failure. *)
Theorem generateFinalArticle_failure (reply : FinalReply) (svc : Service) :
  allParagraphsDecided (paragraphEdits (state svc)) = true ->
  truthy (trim (contentToSend (state svc))) = false \/ articleOf reply = None ->
  let after := exec (generateFinalArticle reply) svc in
  state after = state svc /\
  sequential after = sequential svc /\
  isGeneratingFinal after = false /\
  requests (generateFinalArticle reply) svc
  = (if truthy (trim (contentToSend (state svc)))
     then [FetchFinal (finalRequest (state svc))] else []) /\
  exists text,
    trace (generateFinalArticle reply) svc
    = [IsGeneratingFinalNext true]
        ++ requests (generateFinalArticle reply) svc
        ++ [MessageNext
              (mkWorkflowMessage msg_prompt
                 (plainMessage (lit "⚠️ **Failed to generate final article.** " ++ text)));
            IsGeneratingFinalNext false].
Proof.
  intros Hdecided Hfail after. subst after.
  unfold generateFinalArticle, generationFailed, requests, finalRequest, contentToSend in *.
  run. rewrite Hdecided. cbn [negb]. run.
  destruct (truthy (trim (originalContent (state svc)))) eqn:Hstored; cbn [negb] in *.
  - rewrite Hstored in *. cbn [negb].
    destruct Hfail as [Hblank|Hreply]; [congruence|]. run.
    destruct reply as [msg|status_ text|[| |article]];
      cbn [articleOf] in *; run; cbn [strOr truthy negb]; run;
      cbn [List.filter isBackendRequest app];
      try (repeat split; eexists; reflexivity).
    unfold orElse. destruct (truthy article); [discriminate|]. cbn [truthy negb]. run.
    cbn [List.filter isBackendRequest app]. repeat split; eexists; reflexivity.
  - destruct (truthy (trim (reconstructOriginalContent (paragraphEdits (state svc)))))
      eqn:Hrebuilt; cbn [negb]; run.
    + destruct Hfail as [Hblank|Hreply]; [congruence|].
      destruct reply as [msg|status_ text|[| |article]];
        cbn [articleOf] in *; run; cbn [strOr truthy negb]; run;
        cbn [List.filter isBackendRequest app];
        try (repeat split; eexists; reflexivity).
      unfold orElse. destruct (truthy article); [discriminate|]. cbn [truthy negb]. run.
      cbn [List.filter isBackendRequest app]. repeat split; eexists; reflexivity.
    + cbn [List.filter isBackendRequest app]. repeat split; eexists; reflexivity.
Qed.

(** X15: when all paragraphs are decided, there is content to send
    and the server returns an article, [generateFinalArticle] raises the
    flag, sends one request with the content, the edits and the decisions of
    the state, emits the article as an HTML result message, completes the
    workflow and lowers the flag: the service is back in its initial
    state. *)
Theorem generateFinalArticle_success (reply : FinalReply) (article : jsstring)
    (svc : Service) :
  allParagraphsDecided (paragraphEdits (state svc)) = true ->
  truthy (trim (contentToSend (state svc))) = true ->
  articleOf reply = Some article ->
  exec (generateFinalArticle reply) svc = initialService /\
  exists m,
    trace (generateFinalArticle reply) svc
    = [IsGeneratingFinalNext true; FetchFinal (finalRequest (state svc));
       MessageNext (mkWorkflowMessage msg_result m);
       WorkflowCompletedNext; IsGeneratingFinalNext false] /\
    isHtml m = Some true /\
    thoughtLeadership m
    = Some (mkThoughtLeadership (lit "Final Revised Article") article true).
Proof.
  intros Hdecided Hcontent Harticle.
  destruct reply as [msg|status_ text|[| |a]]; try discriminate.
  cbn [articleOf] in Harticle. destruct (truthy a) eqn:Ha; [|discriminate].
  injection Harticle as ->.
  assert (strOr (Val article) [] = article) as Hstr.
  { cbn [strOr]. unfold orElse. rewrite Ha. reflexivity. }
  unfold generateFinalArticle, completeWorkflow, finalRequest, contentToSend in *.
  run. rewrite Hdecided, Hstr, Ha. cbn [negb]. run.
  destruct (truthy (trim (originalContent (state svc)))) eqn:Hstored; cbn [negb] in *.
  - rewrite Hstored. cbn [negb]. run. split; [reflexivity|].
    eexists. split; [reflexivity|]. split; reflexivity.
  - rewrite Hcontent. cbn [negb]. run. split; [reflexivity|].
    eexists. split; [reflexivity|]. split; reflexivity.
Qed.

End FinalArticle.

Lemma generateFinalArticle_failure_witness :
  allParagraphsDecided (External := sampleExternal) (paragraphEdits (state decidedService))
  = true /\
  articleOf (FinalHttpError 500 (lit "unavailable")) = None /\
  state (exec (generateFinalArticle (H := sampleExternal)
                 (FinalHttpError 500 (lit "unavailable"))) decidedService)
  = state decidedService /\
  requests (generateFinalArticle (H := sampleExternal)
              (FinalHttpError 500 (lit "unavailable"))) decidedService
  = [FetchFinal (finalRequest (state decidedService))].
Proof.
  assert (allParagraphsDecided (External := sampleExternal)
            (paragraphEdits (state decidedService)) = true) as Hdecided by reflexivity.
  destruct (generateFinalArticle_failure (H := sampleExternal)
              (FinalHttpError 500 (lit "unavailable")) decidedService Hdecided
              (or_intror eq_refl)) as (Hstate & _ & _ & Hrequests & _).
  split; [exact Hdecided|]. split; [reflexivity|]. split; [exact Hstate|].
  rewrite Hrequests. vm_compute. reflexivity.
Defined.

Lemma generateFinalArticle_success_witness :
  allParagraphsDecided (External := sampleExternal) (paragraphEdits (state decidedService))
  = true /\
  truthy (trim (contentToSend (state decidedService))) = true /\
  articleOf (FinalJson (Val (lit "The article."))) = Some (lit "The article.") /\
  exec (generateFinalArticle (H := sampleExternal) (FinalJson (Val (lit "The article."))))
    decidedService = initialService.
Proof.
  assert (allParagraphsDecided (External := sampleExternal)
            (paragraphEdits (state decidedService)) = true) as Hdecided by reflexivity.
  assert (truthy (trim (contentToSend (state decidedService))) = true) as Hcontent
    by (vm_compute; reflexivity).
  assert (articleOf (FinalJson (Val (lit "The article."))) = Some (lit "The article."))
    as Harticle by (vm_compute; reflexivity).
  split; [exact Hdecided|]. split; [exact Hcontent|]. split; [exact Harticle|].
  exact (proj1 (generateFinalArticle_success (H := sampleExternal) _ _ decidedService
                  Hdecided Hcontent Harticle)).
Defined.

(** ** The next editor: what a call sends and what it hears *)

Section NextEditor.
Context `{External}.

Lemma requests_nil_of_quiet {A} (c : M A) svc : sendsAtMost 0 c -> requests c svc = [].
Proof. intros Hc. apply length_zero_iff_nil, Nat.le_0_r, Hc. Qed.


Lemma onNextEditorEvent_unheard data svc :
  ev_type data <> all_complete -> ev_type data <> editor_complete ->
  exec (onNextEditorEvent data) svc = svc /\
  trace (onNextEditorEvent data) svc = [] /\
  value (onNextEditorEvent data) svc = false.
Proof.
  intros Hall Hcomplete. unfold onNextEditorEvent.
  destruct (ev_type data); try contradiction; run; auto.
Qed.

Lemma onNextEditorEvents_unheard events : forall svc,
  Forall (fun data => ev_type data <> all_complete /\ ev_type data <> editor_complete)
    events ->
  exec (onNextEditorEvents events) svc = svc /\
  trace (onNextEditorEvents events) svc = [] /\
  value (onNextEditorEvents events) svc = false.
Proof.
  induction events as [|data rest IH]; intros svc Hevents; cbn [onNextEditorEvents].
  - run. auto.
  - inversion Hevents as [|? ? [Hall Hcomplete] Hrest]; subst.
    destruct (onNextEditorEvent_unheard data svc Hall Hcomplete) as (He & Ht & Hv).
    run. rewrite He, Ht, Hv. cbn [app]. apply IH, Hrest.
Qed.

(** X17: a reply to [nextEditor] that brings neither an
    [editor_complete] nor an [all_complete] event leaves the service as it
    was.  A failed request, an error status, a missing body and a failed
    read are reported by one prompt; the events themselves, [error] events
    included, are dropped without a message. *)
Theorem nextEditor_unheard (edits : list ParagraphEdit) (reply : NextReply)
    (tid : jsstring) (svc : Service) :
  threadId (sequential svc) = Some tid ->
  allParagraphsDecided (paragraphEdits (state svc)) = true ->
  match reply with
  | NextStream events _ =>
      Forall (fun data => ev_type data <> all_complete /\ ev_type data <> editor_complete)
        events
  | _ => True
  end ->
  exec (nextEditor edits reply) svc = svc /\
  match reply with
  | NextStream _ None =>
      trace (nextEditor edits reply) svc = [FetchNext (nextRequest tid edits)]
  | _ =>
      exists text,
        trace (nextEditor edits reply) svc
        = [FetchNext (nextRequest tid edits);
           MessageNext
             (mkWorkflowMessage msg_prompt
                (plainMessage (lit "⚠️ **Failed to proceed to next editor.** " ++ text)))]
  end.
Proof.
  intros Htid Hdecided Hreply. unfold nextEditor, nextEditorFailed. run.
  rewrite Htid. run. rewrite Hdecided. cbn [negb]. run.
  destruct reply as [msg|status_ text| |events failure]; run;
    try (split; [reflexivity | eexists; reflexivity]).
  destruct (onNextEditorEvents_unheard events svc Hreply) as (He & Ht & Hv).
  rewrite He, Ht, Hv. cbn [app].
  destruct failure as [msg|]; run; split; try reflexivity. eexists; reflexivity.
Qed.

Lemma onNextEditorEvents_all_complete pre ac rest : forall svc,
  ev_type ac = all_complete ->
  exec (onNextEditorEvents (pre ++ ac :: rest)) svc
  = exec (onNextEditorEvents (pre ++ [ac])) svc /\
  trace (onNextEditorEvents (pre ++ ac :: rest)) svc
  = trace (onNextEditorEvents (pre ++ [ac])) svc /\
  value (onNextEditorEvents (pre ++ ac :: rest)) svc = true /\
  value (onNextEditorEvents (pre ++ [ac])) svc = true.
Proof.
  intros svc Hac. revert svc.
  assert (forall svc, value (onNextEditorEvent ac) svc = true) as Hreturns.
  { intros svc. unfold onNextEditorEvent. rewrite Hac. run. reflexivity. }
  induction pre as [|data pre IH]; intros svc; cbn [app onNextEditorEvents].
  - run. rewrite Hreturns. run. rewrite !app_nil_r. auto.
  - run. destruct (value (onNextEditorEvent data) svc); run; [auto|].
    destruct (IH (exec (onNextEditorEvent data) svc)) as (He & Ht & Hv & Hv').
    rewrite He, Ht, Hv, Hv'. auto.
Qed.

(** X18: [nextEditor] stops reading at the first
    [all_complete] event: the events after it, and a failure of the read
    after it, change nothing.  The event itself marks the last editor, sets
    the editor index to the number of editors, keeps the state and emits an
    update message with the paragraph edits of the state. *)
Theorem nextEditor_all_complete (edits : list ParagraphEdit) (pre rest : list EventData)
    (ac : EventData) (failure : option jsstring) (svc : Service) :
  ev_type ac = all_complete ->
  exec (nextEditor edits (NextStream (pre ++ ac :: rest) failure)) svc
  = exec (nextEditor edits (NextStream (pre ++ [ac]) None)) svc /\
  trace (nextEditor edits (NextStream (pre ++ ac :: rest) failure)) svc
  = trace (nextEditor edits (NextStream (pre ++ [ac]) None)) svc /\
  (let after := exec (onNextEditorEvent ac) svc in
   state after = state svc /\
   isLastEditor (sequential after) = true /\
   currentEditorIndex (sequential after) = totalEditors (sequential svc) /\
   totalEditors (sequential after) = totalEditors (sequential svc) /\
   threadId (sequential after) = threadId (sequential svc) /\
   trace (onNextEditorEvent ac) svc
   = [MessageNext (mkWorkflowMessage msg_update
                     (paragraphEditsMessage (paragraphEdits (state svc))
                        (sequential after)))]).
Proof.
  intros Hac. split; [|split].
  - unfold nextEditor. run.
    destruct (threadId (sequential svc)); [|reflexivity]. run.
    destruct (negb _); [reflexivity|]. run.
    destruct (onNextEditorEvents_all_complete pre ac rest svc Hac) as (He & Ht & Hv & Hv').
    rewrite He, Hv, Hv'. run. reflexivity.
  - unfold nextEditor. run.
    destruct (threadId (sequential svc)); [|reflexivity]. run.
    destruct (negb _); [reflexivity|]. run.
    destruct (onNextEditorEvents_all_complete pre ac rest svc Hac) as (He & Ht & Hv & Hv').
    rewrite Ht, Hv, Hv'. run. reflexivity.
  - cbv zeta. unfold onNextEditorEvent. rewrite Hac. run. repeat split.
Qed.

End NextEditor.


Lemma nextEditor_unheard_witness :
  threadId (sequential decidedService) = Some (lit "thread-1") /\
  allParagraphsDecided (External := sampleExternal) (paragraphEdits (state decidedService))
  = true /\
  Forall (fun data => ev_type data <> all_complete /\ ev_type data <> editor_complete)
    [eventOfType error_event] /\
  exec (nextEditor (H := sampleExternal) [] (NextStream [eventOfType error_event] None))
    decidedService = decidedService /\
  trace (nextEditor (H := sampleExternal) [] (NextStream [eventOfType error_event] None))
    decidedService = [FetchNext (nextRequest (lit "thread-1") [])].
Proof.
  assert (Forall (fun data => ev_type data <> all_complete /\ ev_type data <> editor_complete)
            [eventOfType error_event]) as Hevents.
  { repeat constructor; discriminate. }
  split; [reflexivity|]. split; [reflexivity|]. split; [exact Hevents|].
  exact (nextEditor_unheard (H := sampleExternal) []
           (NextStream [eventOfType error_event] None) (lit "thread-1") decidedService
           eq_refl eq_refl Hevents).
Defined.

Lemma nextEditor_all_complete_witness :
  ev_type (eventOfType all_complete) = all_complete /\
  exec (nextEditor (H := sampleExternal) []
          (NextStream ([] ++ eventOfType all_complete :: [sampleCompleteEvent])
             (Some (lit "connection lost"))))
    decidedService
  = exec (nextEditor (H := sampleExternal) []
            (NextStream ([] ++ [eventOfType all_complete]) None))
      decidedService.
Proof.
  split; [reflexivity|].
  exact (proj1 (nextEditor_all_complete (H := sampleExternal) [] [] [sampleCompleteEvent]
                  (eventOfType all_complete) (Some (lit "connection lost")) decidedService
                  eq_refl)).
Defined.

(** ** Selecting editors by number *)

Lemma chosen_editor_ids (b : Z -> bool) :
  ensureBrandAlignment
    (map opt_id
       (List.filter selected
          (imap (fun i editor => setSelected (b (Z.of_nat i + 1)) editor) editorOptions)))
  = (if b 1 then [lit "development"] else []) ++ (if b 2 then [lit "content"] else [])
      ++ (if b 3 then [lit "line"] else []) ++ (if b 4 then [lit "copy"] else [])
      ++ [brand_alignment].
Proof.
  unfold editorOptions. cbn [imap]. unfold compose.
  change (Z.of_nat 0 + 1) with 1. change (Z.of_nat 1 + 1) with 2.
  change (Z.of_nat 2 + 1) with 3. change (Z.of_nat 3 + 1) with 4.
  change (Z.of_nat 4 + 1) with 5.
  cbn [List.filter setSelected selected].
  destruct (b 1), (b 2), (b 3), (b 4), (b 5); vm_compute; reflexivity.
Qed.

Section NumericSelection.
Context `{External}.

(** X19: [handleNumericSelection] stores a selection only when the
    parser found editor numbers and no invalid number: one invalid number
    rejects the whole input, and the service stays as it was.  What it
    stores replaces the previous selection: the editors chosen among the
    first four, in the order of the editor list whatever the order typed,
    then the brand alignment editor, chosen or not.  The editor options of
    the confirmation message do not show the choice:
    [createEditorSelectionMessage] marks the brand alignment editor alone
    as selected. *)
Theorem handleNumericSelection_stores_chosen (r : SelectionResult) (svc : Service) :
  let after := exec (handleNumericSelection r) svc in
  (invalidIndices r <> [] \/ selectedIndices r = [] ->
   after = svc /\
   (invalidIndices r = [] -> hasInput r = false ->
    trace (handleNumericSelection r) svc = []) /\
   (invalidIndices r <> [] \/ hasInput r = true ->
    exists m, trace (handleNumericSelection r) svc
              = [MessageNext (mkWorkflowMessage msg_prompt m)])) /\
  (invalidIndices r = [] -> selectedIndices r <> [] ->
   state after
   = withSelectedEditors
       (chosenEditor r 1 "development" ++ chosenEditor r 2 "content"
          ++ chosenEditor r 3 "line" ++ chosenEditor r 4 "copy" ++ [brand_alignment])
       (state svc) /\
   sequential after = sequential svc /\
   isGeneratingFinal after = isGeneratingFinal svc /\
   exists m options,
     trace (handleNumericSelection r) svc
     = [MessageNext (mkWorkflowMessage msg_prompt m)] /\
     (meta_editorOptions <$> editWorkflow m) = Some (Some options) /\
     map opt_id options = map opt_id editorOptions /\
     map selected options = [false; false; false; false; true]).
Proof.
  intros after. subst after. unfold handleNumericSelection, showInvalidSelectionError.
  split.
  - intros Hcase. destruct (invalidIndices r) as [|n inv] eqn:Hinv.
    + destruct Hcase as [Hc|Hsel]; [contradiction|]. rewrite Hsel.
      destruct (hasInput r); run.
      * split; [reflexivity|]. split; [discriminate|]. intros _. eexists. reflexivity.
      * split; [reflexivity|]. split; [reflexivity|]. intros [Hc|Hc]; [contradiction|discriminate].
    + run. split; [reflexivity|]. split; [discriminate|]. intros _. eexists. reflexivity.
  - intros Hinv Hsel. rewrite Hinv.
    destruct (selectedIndices r) as [|n sel] eqn:Hsels; [contradiction|]. run.
    split; [|split; [reflexivity|split; [reflexivity|]]].
    + f_equal. unfold chosenEditor. rewrite Hsels.
      apply (chosen_editor_ids (fun k => includesNum (n :: sel) (Finite k))).
    + eexists _, _. split; [reflexivity|]. split; [reflexivity|].
      split; reflexivity.
Qed.

End NumericSelection.

Lemma handleNumericSelection_stores_chosen_witness :
  state (exec (handleNumericSelection (H := sampleExternal)
                 (mkSelectionResult [Finite 1; Finite 4] [] true))
           awaitingEditorsService)
  = withSelectedEditors [lit "development"; lit "copy"; brand_alignment]
      (state awaitingEditorsService) /\
  exec (handleNumericSelection (H := sampleExternal)
          (mkSelectionResult [Finite 1; Finite 4] [Finite 9] true))
    awaitingEditorsService = awaitingEditorsService.
Proof.
  split.
  - destruct (handleNumericSelection_stores_chosen (H := sampleExternal)
                (mkSelectionResult [Finite 1; Finite 4] [] true) awaitingEditorsService)
      as [_ Hstored].
    exact (proj1 (Hstored eq_refl ltac:(discriminate))).
  - destruct (handleNumericSelection_stores_chosen (H := sampleExternal)
                (mkSelectionResult [Finite 1; Finite 4] [Finite 9] true)
                awaitingEditorsService) as [Hrejected _].
    cbv zeta in Hrejected.
    assert (invalidIndices (mkSelectionResult [Finite 1; Finite 4] [Finite 9] true) <> [])
      as Hinvalid by (cbn; discriminate).
    destruct (Hrejected (or_introl Hinvalid)) as [Hsame _]. exact Hsame.
Defined.

(** ** Deciding paragraph after paragraph *)

Lemma findParagraph_Some i edits k :
  findParagraph i edits = Some k ->
  exists p, edits !! k = Some p /\ index p = i /\
            forall j q, (j < k)%nat -> edits !! j = Some q -> index q <> i.
Proof.
  unfold findParagraph.
  destruct (list_find _ edits) as [[k' p]|] eqn:Hfind; [|discriminate].
  intros [= <-]. apply list_find_Some in Hfind as (Hk & Hp & Hfirst).
  exists p. split; [exact Hk|]. split; [exact Hp|].
  intros j q Hlt Hj. exact (Hfirst j q Hj Hlt).
Qed.

Lemma decideParagraph_state v i svc :
  state (exec (decideParagraph v i) svc)
  = match findParagraph i (paragraphEdits (state svc)) with
    | Some k => withParagraphEdits (decideParagraphAt k v (paragraphEdits (state svc)))
                  (state svc)
    | None => state svc
    end.
Proof.
  unfold decideParagraph, emitParagraphUpdateMessage. run.
  destruct (findParagraph i (paragraphEdits (state svc))); run; reflexivity.
Qed.

Lemma decideParagraphAt_lookup m v edits x :
  decideParagraphAt m v edits !! x
  = (fun p => if decide (x = m) then withApproved (Some v) p else p) <$> edits !! x.
Proof. unfold decideParagraphAt. apply list_lookup_imap. Qed.

Lemma decideAll_shadowed decisions (k j : nat) : forall svc p q,
  paragraphEdits (state svc) !! k = Some p ->
  paragraphEdits (state svc) !! j = Some q ->
  (j < k)%nat -> index q = index p ->
  paragraphEdits (state (exec (decideAll decisions) svc)) !! k = Some p.
Proof.
  induction decisions as [|[v i] rest IH]; intros svc p q Hk Hj Hlt Hsame;
    cbn [decideAll].
  - rewrite exec_ret. exact Hk.
  - rewrite exec_bind.
    pose proof (decideParagraph_state v i svc) as Hstate.
    destruct (findParagraph i (paragraphEdits (state svc))) as [m|] eqn:Hfind.
    + apply findParagraph_Some in Hfind as (pm & Hm & Hpm & Hfirst).
      assert (m <> k) as Hne.
      { intros ->. apply (Hfirst j q Hlt Hj). congruence. }
      apply (IH _ p (if decide (j = m) then withApproved (Some v) q else q)); auto.
      * rewrite Hstate. cbn [paragraphEdits withParagraphEdits].
        rewrite decideParagraphAt_lookup, Hk. cbn [fmap option_fmap option_map].
        destruct (decide (k = m)); [congruence|reflexivity].
      * rewrite Hstate. cbn [paragraphEdits withParagraphEdits].
        rewrite decideParagraphAt_lookup, Hj. reflexivity.
      * destruct (decide (j = m)); [exact Hsame | exact Hsame].
    + apply (IH _ p q); auto; rewrite Hstate; assumption.
Qed.

(** X20: [approveParagraph] and [declineParagraph] find a paragraph
    by the first edit that has the index.  An edit that comes after another
    edit with the same index is never reached: whatever indices are
    approved or declined, in whatever order, it stays as it is. *)
Theorem shadowed_paragraph_never_decided (decisions : list (bool * Z)) (svc : Service)
    (k j : nat) (p q : ParagraphEdit) :
  paragraphEdits (state svc) !! k = Some p ->
  paragraphEdits (state svc) !! j = Some q ->
  (j < k)%nat -> index q = index p ->
  paragraphEdits (state (exec (decideAll decisions) svc)) !! k = Some p.
Proof. apply decideAll_shadowed. Qed.

Lemma decideAll_prefix v B : forall A svc,
  paragraphEdits (state svc) = map (withApproved (Some v)) A ++ B ->
  NoDup (map index (A ++ B)) ->
  state (exec (decideAll (map (fun i => (v, i)) (map index B))) svc)
  = withParagraphEdits (map (withApproved (Some v)) (A ++ B)) (state svc).
Proof.
  induction B as [|b B IH]; intros A svc Hedits Hnodup; cbn [map decideAll].
  - rewrite exec_ret. rewrite app_nil_r in *. rewrite <- Hedits.
    unfold withParagraphEdits. symmetry. apply state_eta.
  - rewrite exec_bind.
    assert (findParagraph (index b) (paragraphEdits (state svc)) = Some (length A))
      as Hfind.
    { rewrite Hedits. apply (findParagraph_first _ _ _ b).
      - rewrite lookup_app_r by (rewrite length_map; lia).
        rewrite length_map, Nat.sub_diag. reflexivity.
      - reflexivity.
      - intros j q Hlt Hj Hq.
        rewrite lookup_app_l in Hj by (rewrite length_map; lia).
        rewrite list_lookup_fmap in Hj.
        destruct (A !! j) as [a|] eqn:Ha; [|discriminate].
        injection Hj as <-. cbn [withApproved index] in Hq.
        rewrite map_app in Hnodup. apply list.NoDup_app in Hnodup as (_ & Hdisj & _).
        apply (Hdisj (index a)).
        + apply list_elem_of_fmap. exists a. split; [reflexivity|].
          apply list_elem_of_lookup. eauto.
        + rewrite Hq. cbn [map]. apply elem_of_cons. left. reflexivity. }
    pose proof (decideParagraph_state v (index b) svc) as Hstate.
    rewrite Hfind in Hstate.
    assert (decideParagraphAt (length A) v (paragraphEdits (state svc))
            = map (withApproved (Some v)) (A ++ [b]) ++ B) as Hafter.
    { rewrite Hedits.
      rewrite (decideParagraphAt_insert _ _ _ b).
      - rewrite map_app. cbn [map]. rewrite <- app_assoc. cbn [app].
        rewrite insert_app_r_alt by (rewrite length_map; lia).
        rewrite length_map, Nat.sub_diag. reflexivity.
      - rewrite lookup_app_r by (rewrite length_map; lia).
        rewrite length_map, Nat.sub_diag. reflexivity. }
    rewrite (IH (A ++ [b])).
    + rewrite Hstate. cbn [withParagraphEdits step uploadedFile selectedEditors
                            originalContent].
      rewrite <- app_assoc. reflexivity.
    + rewrite Hstate. cbn [paragraphEdits withParagraphEdits]. exact Hafter.
    + rewrite <- app_assoc. exact Hnodup.
Qed.

Lemma shadowed_paragraph_never_decided_witness :
  paragraphEdits (state sameIndexService) !! 1%nat = Some (sampleParagraph 0 None) /\
  paragraphEdits (state sameIndexService) !! 0%nat = Some (sampleParagraph 0 None) /\
  paragraphEdits
    (state (exec (decideAll [(true, 0); (false, 0); (true, 1)]) sameIndexService))
    !! 1%nat
  = Some (sampleParagraph 0 None).
Proof.
  split; [reflexivity|]. split; [reflexivity|].
  apply (shadowed_paragraph_never_decided [(true, 0); (false, 0); (true, 1)]
           sameIndexService 1 0 (sampleParagraph 0 None) (sampleParagraph 0 None));
    [reflexivity | reflexivity | lia | reflexivity].
Defined.

(** X21: when the paragraph edits of the state have distinct
    indices, approving (declining) every index that [onApproveAll]
    ([onDeclineAll]) emits for them, one call after the other, leaves
    exactly these edits, each approved (declined), and the rest of the
    state as it was. *)
Theorem decide_every_paragraph (v : bool) (svc : Service) :
  let edits := paragraphEdits (state svc) in
  NoDup (map index edits) ->
  state (exec (decideAll (map (fun i => (v, i))
                            (if v then onApproveAll edits else onDeclineAll edits)))
           svc)
  = withParagraphEdits (map (withApproved (Some v)) edits) (state svc).
Proof.
  intros edits Hnodup.
  assert ((if v then onApproveAll edits else onDeclineAll edits) = map index edits) as ->.
  { destruct v, edits; reflexivity. }
  apply (decideAll_prefix v edits []); [reflexivity | exact Hnodup].
Qed.

Lemma decide_every_paragraph_witness :
  NoDup (map index (paragraphEdits (state reviewService))) /\
  paragraphEdits
    (state (exec (decideAll (map (fun i => (true, i))
                               (onApproveAll (paragraphEdits (state reviewService)))))
              reviewService))
  = [sampleParagraph 0 (Some true); sampleParagraph 1 (Some true)].
Proof.
  assert (NoDup (map index (paragraphEdits (state reviewService)))) as Hnodup.
  { cbn. repeat constructor.
    - intros Hin. apply list_elem_of_singleton in Hin. discriminate.
    - intros Hin. apply elem_of_nil in Hin. exact Hin. }
  split; [exact Hnodup|].
  rewrite (decide_every_paragraph true reviewService Hnodup). reflexivity.
Defined.

(** ** Bringing the paragraph edits back into the state *)

Lemma orElse_same s : orElse s s = s.
Proof. unfold orElse. destruct (truthy s); reflexivity. Qed.

(** X22: [syncParagraphEditsFromMessage] emits nothing and touches only
    the paragraph edits and the original content.  An empty list is
    ignored, so that the edits of the state cannot be emptied by it; a
    non-empty list replaces them.  Stored content that is not blank is
    kept.  Blank stored content is replaced by the content put together
    from the new edits when that content is not the empty string; when it
    is empty the stored content stays, blank as it is.  Either way
    [generateFinalArticle] afterwards sends the same content as it would
    build from the new edits and the stored content itself. *)
Theorem syncParagraphEditsFromMessage_restores (edits : list ParagraphEdit)
    (svc : Service) :
  let after := exec (syncParagraphEditsFromMessage edits) svc in
  trace (syncParagraphEditsFromMessage edits) svc = [] /\
  step (state after) = step (state svc) /\
  uploadedFile (state after) = uploadedFile (state svc) /\
  selectedEditors (state after) = selectedEditors (state svc) /\
  sequential after = sequential svc /\
  isGeneratingFinal after = isGeneratingFinal svc /\
  (edits = [] -> after = svc) /\
  (edits <> [] ->
   paragraphEdits (state after) = edits /\
   originalContent (state after)
   = (if truthy (trim (originalContent (state svc))) then originalContent (state svc)
      else if truthy (reconstructOriginalContent edits)
           then reconstructOriginalContent edits
           else originalContent (state svc)) /\
   contentToSend (state after) = contentToSend (withParagraphEdits edits (state svc))).
Proof.
  intros after. subst after. unfold syncParagraphEditsFromMessage.
  destruct edits as [|p ps]; run.
  - split; [reflexivity|]. split; [reflexivity|]. split; [reflexivity|].
    split; [reflexivity|]. split; [reflexivity|]. split; [reflexivity|].
    split; [reflexivity|]. intros Hne. contradiction.
  - split; [reflexivity|]. split; [reflexivity|]. split; [reflexivity|].
    split; [reflexivity|]. split; [reflexivity|]. split; [reflexivity|].
    split; [discriminate|]. intros _. split; [reflexivity|]. split.
    + destruct (truthy (trim (originalContent (state svc)))); cbn [negb];
        [apply orElse_same | reflexivity].
    + unfold contentToSend.
      cbn [originalContent paragraphEdits withOriginalContent withParagraphEdits].
      destruct (truthy (trim (originalContent (state svc)))) eqn:Hstored; cbn [negb].
      * rewrite orElse_same, Hstored. reflexivity.
      * unfold orElse.
        destruct (truthy (reconstructOriginalContent (p :: ps))) eqn:Hr.
        -- destruct (truthy (trim (reconstructOriginalContent (p :: ps)))); reflexivity.
        -- rewrite Hstored. reflexivity.
Qed.

Lemma syncParagraphEditsFromMessage_restores_witness :
  originalContent
    (state (exec (syncParagraphEditsFromMessage [sampleParagraph 3 (Some true)])
              initialService))
  = lit "old text" /\
  originalContent
    (state (exec (syncParagraphEditsFromMessage [blankParagraph])
              blankContentService))
  = lit "  ".
Proof.
  split.
  - destruct (syncParagraphEditsFromMessage_restores [sampleParagraph 3 (Some true)]
                initialService) as (_ & _ & _ & _ & _ & _ & _ & Hsome).
    destruct (Hsome ltac:(discriminate)) as (_ & Hcontent & _).
    rewrite Hcontent. vm_compute. reflexivity.
  - destruct (syncParagraphEditsFromMessage_restores [blankParagraph]
                blankContentService) as (_ & _ & _ & _ & _ & _ & _ & Hsome).
    destruct (Hsome ltac:(discriminate)) as (_ & Hcontent & _).
    rewrite Hcontent. vm_compute. reflexivity.
Defined.

Section AfterReset.
Context `{External}.

Lemma generateFinalArticle_requests reply svc :
  allParagraphsDecided (paragraphEdits (state svc)) = true ->
  requests (generateFinalArticle reply) svc
  = if truthy (trim (contentToSend (state svc)))
    then [FetchFinal (finalRequest (state svc))] else [].
Proof.
  intros Hdecided.
  unfold requests, generateFinalArticle, generationFailed, completeWorkflow,
    finalRequest, contentToSend.
  run. rewrite Hdecided. cbn [negb]. run.
  destruct (truthy (trim (originalContent (state svc)))) eqn:Hstored; cbn [negb].
  - rewrite Hstored. cbn [negb]. run.
    destruct reply as [msg|status_ text|article]; run; try reflexivity.
    destruct (negb _); run; reflexivity.
  - destruct (truthy (trim (reconstructOriginalContent (paragraphEdits (state svc)))));
      cbn [negb]; run; [|reflexivity].
    destruct reply as [msg|status_ text|article]; run; try reflexivity.
    destruct (negb _); run; reflexivity.
Qed.

(** X23: once the workflow has been completed the state holds no
    edits and no content, and [generateFinalArticle] sends no request.
    After [syncParagraphEditsFromMessage] has brought decided edits back,
    it sends the content put together from their originals (by index,
    blank ones left out), with the edits and their decisions, when that
    content is not blank; when it is blank (every original is), it still
    sends nothing. *)
Theorem final_article_after_reset (svc0 : Service) (edits : list ParagraphEdit)
    (reply : FinalReply) :
  let reset := exec completeWorkflow svc0 in
  let synced := exec (syncParagraphEditsFromMessage edits) reset in
  requests (generateFinalArticle reply) reset = [] /\
  (edits <> [] -> allParagraphsDecided edits = true ->
   requests (generateFinalArticle reply) synced
   = if truthy (trim (reconstructOriginalContent edits))
     then [FetchFinal
             (mkFinalRequest (reconstructOriginalContent edits)
                (map (fun p => (index p, original p, edited p, tags p)) edits)
                (map (fun p => (index p, bool_decide (approved p = Some true))) edits))]
     else []).
Proof.
  intros reset synced.
  assert (state reset = getDefaultState) as Hreset.
  { unfold reset, completeWorkflow. run. reflexivity. }
  split.
  - unfold requests, generateFinalArticle, generationFailed. run. rewrite Hreset.
    cbn [paragraphEdits originalContent getDefaultState].
    destruct (allParagraphsDecided []); cbn [negb]; run; reflexivity.
  - intros Hne Hdecided.
    assert (state synced
            = withOriginalContent (reconstructOriginalContent edits)
                (withParagraphEdits edits getDefaultState)) as Hsynced.
    { unfold synced, syncParagraphEditsFromMessage.
      destruct edits as [|p ps]; [contradiction|]. run. rewrite Hreset.
      cbn [originalContent getDefaultState trim trimStart trimEnd dropWhile rev app
           truthy negb].
      unfold orElse.
      destruct (truthy (reconstructOriginalContent (p :: ps))) eqn:Hr; [reflexivity|].
      destruct (reconstructOriginalContent (p :: ps)); [reflexivity|discriminate]. }
    rewrite generateFinalArticle_requests by (rewrite Hsynced; exact Hdecided).
    unfold finalRequest, contentToSend. rewrite Hsynced.
    cbn [originalContent paragraphEdits withOriginalContent withParagraphEdits].
    destruct (truthy (trim (reconstructOriginalContent edits))) eqn:Hcontent;
      cbn beta iota; rewrite ?Hcontent; reflexivity.
Qed.

End AfterReset.

Lemma final_article_after_reset_witness :
  allParagraphsDecided (External := sampleExternal)
    [sampleParagraph 1 (Some false); sampleParagraph 0 (Some true)] = true /\
  requests (generateFinalArticle (H := sampleExternal) (FinalNetworkError (lit "offline")))
    (exec (syncParagraphEditsFromMessage
             [sampleParagraph 1 (Some false); sampleParagraph 0 (Some true)])
       (exec completeWorkflow decidedService))
  = [FetchFinal
       (mkFinalRequest (lit "old text" ++ nl ++ nl ++ lit "old text")
          [(1, lit "old text", lit "new text", []); (0, lit "old text", lit "new text", [])]
          [(1, false); (0, true)])] /\
  allParagraphsDecided (External := sampleExternal) [blankParagraph] = true /\
  requests (generateFinalArticle (H := sampleExternal) (FinalNetworkError (lit "offline")))
    (exec (syncParagraphEditsFromMessage [blankParagraph])
       (exec completeWorkflow decidedService))
  = [].
Proof.
  assert (allParagraphsDecided (External := sampleExternal)
            [sampleParagraph 1 (Some false); sampleParagraph 0 (Some true)] = true)
    as Hdecided by reflexivity.
  assert (allParagraphsDecided (External := sampleExternal) [blankParagraph] = true)
    as Hblank by reflexivity.
  split; [exact Hdecided|]. split.
  - destruct (final_article_after_reset (H := sampleExternal) decidedService
                [sampleParagraph 1 (Some false); sampleParagraph 0 (Some true)]
                (FinalNetworkError (lit "offline"))) as [_ Hsynced].
    rewrite (Hsynced ltac:(discriminate) Hdecided). vm_compute. reflexivity.
  - split; [exact Hblank|].
    destruct (final_article_after_reset (H := sampleExternal) decidedService
                [blankParagraph] (FinalNetworkError (lit "offline"))) as [_ Hsynced].
    rewrite (Hsynced ltac:(discriminate) Hblank). vm_compute. reflexivity.
Defined.

(** ** The stream from its first item to its end *)

Section StreamLife.
Context `{External}.

Lemma deliver_frame items sess svc :
  step (state (exec (deliver items sess) svc)) = step (state svc) /\
  uploadedFile (state (exec (deliver items sess) svc)) = uploadedFile (state svc) /\
  selectedEditors (state (exec (deliver items sess) svc)) = selectedEditors (state svc).
Proof.
  apply (keeps_deliver_stable
           (fun s => step s = step (state svc) /\
                     uploadedFile s = uploadedFile (state svc) /\
                     selectedEditors s = selectedEditors (state svc))).
  - split; intros v s Hs; exact Hs.
  - auto.
Qed.

(** X24: the items of the stream never move the step, the file
    or the selection; the [complete] and the [error] callback reset the
    state to the default and the sequential fields to their initial values,
    whatever the stream has stored, the paragraph edits included; so
    [approveParagraph] and [declineParagraph] find nothing afterwards and do
    nothing. *)
Theorem stream_end_resets (items : list StreamItem) (sess : Session) (failed : bool)
    (v : bool) (i : Z) (svc : Service) :
  let received := exec (deliver items sess) svc in
  let ended := exec (if failed then onError else onComplete) received in
  step (state received) = step (state svc) /\
  uploadedFile (state received) = uploadedFile (state svc) /\
  selectedEditors (state received) = selectedEditors (state svc) /\
  state ended = getDefaultState /\
  sequential ended = initialSequential /\
  WorkflowCompletedNext ∈ trace (if failed then onError else onComplete) received /\
  exec (decideParagraph v i) ended = ended /\
  trace (decideParagraph v i) ended = [].
Proof.
  intros received ended.
  destruct (deliver_frame items sess svc) as (Hstep & Hfile & Hsel).
  split; [exact Hstep|]. split; [exact Hfile|]. split; [exact Hsel|].
  assert (state ended = getDefaultState) as Hstate.
  { unfold ended. destruct failed; unfold onError, onComplete, completeWorkflow; run;
      reflexivity. }
  split; [exact Hstate|].
  split. { unfold ended. destruct failed; unfold onError, onComplete, completeWorkflow; run;
             reflexivity. }
  split.
  { destruct failed; unfold onError, onComplete, completeWorkflow; run;
      repeat constructor. }
  unfold decideParagraph. run. rewrite Hstate. cbn [paragraphEdits getDefaultState].
  run. auto.
Qed.

Lemma onNext_response_blind item sess r svc :
  exec (onNext item (withFullResponse r sess)) svc = exec (onNext item sess) svc /\
  trace (onNext item (withFullResponse r sess)) svc = trace (onNext item sess) svc /\
  exists r',
    value (onNext item (withFullResponse r sess)) svc
    = withFullResponse r' (value (onNext item sess) svc).
Proof.
  destruct sess as [ids names resp fb rev prog errs entries].
  destruct item as [data|s]; cbn [onNext withFullResponse selectedIds selectedNames
    fullResponse combinedFeedback finalRevisedContent currentEditorProgress editorErrors
    editorProgressList].
  - unfold onEvent.
    cbn [withProgress withFullResponse selectedIds selectedNames
         fullResponse combinedFeedback finalRevisedContent currentEditorProgress
         editorErrors editorProgressList].
    destruct (ev_type data); run;
      try (split; [reflexivity|]; split; [reflexivity|]; eexists; reflexivity).
  - run. split; [reflexivity|]. split; [reflexivity|]. eexists; reflexivity.
Qed.

Lemma withFullResponse_twice r r' sess :
  withFullResponse r (withFullResponse r' sess) = withFullResponse r sess.
Proof. reflexivity. Qed.

Lemma onNext_unheard item sess svc :
  isHeard item = false ->
  exec (onNext item sess) svc = svc /\
  trace (onNext item sess) svc = [] /\
  exists r, value (onNext item sess) svc = withFullResponse r sess.
Proof.
  intros Hitem.
  assert (sess = withFullResponse (fullResponse sess) sess) as Hsess
    by (destruct sess; reflexivity).
  destruct item as [data|s]; cbn [onNext isHeard] in *.
  - unfold onEvent. destruct (ev_type data); try discriminate; run;
      (split; [reflexivity|]; split; [reflexivity|]);
      first [ eexists; reflexivity | exists (fullResponse sess); exact Hsess ].
  - run. split; [reflexivity|]. split; [reflexivity|]. eexists; reflexivity.
Qed.

Lemma deliver_response_blind items : forall sess r svc,
  exec (deliver items (withFullResponse r sess)) svc = exec (deliver items sess) svc /\
  trace (deliver items (withFullResponse r sess)) svc = trace (deliver items sess) svc /\
  exists r',
    value (deliver items (withFullResponse r sess)) svc
    = withFullResponse r' (value (deliver items sess) svc).
Proof.
  induction items as [|item rest IH]; intros sess r svc; cbn [deliver].
  - run. split; [reflexivity|]. split; [reflexivity|]. eexists; reflexivity.
  - run. destruct (onNext_response_blind item sess r svc) as (He & Ht & r' & Hv).
    rewrite He, Ht, Hv.
    destruct (IH (value (onNext item sess) svc) r' (exec (onNext item sess) svc))
      as (He' & Ht' & r'' & Hv').
    rewrite He', Ht', Hv'. split; [reflexivity|]. split; [reflexivity|].
    eexists; reflexivity.
Qed.

(** X25: of the items of the stream only [editor_progress],
    [editor_complete], [editor_error] and [final_complete] events have an
    effect.  Text chunks ([editor_content], [content], bare strings) are
    added to a variable that nothing reads; [error] events and events of
    other types are dropped.  Leaving all of them out of a stream changes
    neither the service nor what is emitted. *)
Theorem stream_drops_unheard_items (items : list StreamItem) : forall sess svc,
  exec (deliver items sess) svc = exec (deliver (List.filter isHeard items) sess) svc /\
  trace (deliver items sess) svc = trace (deliver (List.filter isHeard items) sess) svc /\
  exists r,
    value (deliver items sess) svc
    = withFullResponse r (value (deliver (List.filter isHeard items) sess) svc).
Proof.
  induction items as [|item rest IH]; intros sess svc; cbn [deliver List.filter].
  - run. split; [reflexivity|]. split; [reflexivity|].
    exists (fullResponse sess). destruct sess; reflexivity.
  - destruct (isHeard item) eqn:Hitem; cbn [deliver]; run.
    + destruct (IH (value (onNext item sess) svc) (exec (onNext item sess) svc))
        as (He & Ht & r & Hv).
      rewrite He, Ht, Hv. split; [reflexivity|]. split; [reflexivity|].
      eexists; reflexivity.
    + destruct (onNext_unheard item sess svc Hitem) as (He & Ht & r & Hv).
      rewrite He, Ht, Hv. cbn [app].
      destruct (deliver_response_blind rest sess r svc) as (He' & Ht' & r' & Hv').
      destruct (IH sess svc) as (He'' & Ht'' & r'' & Hv'').
      rewrite He', Ht', Hv', He'', Ht'', Hv''.
      split; [reflexivity|]. split; [reflexivity|]. eexists; reflexivity.
Qed.

End StreamLife.


(** ** What the paragraph component is told *)

Ltac mirror_case :=
  let Hin := fresh "Hin" in
  let Hcarried := fresh "Hcarried" in
  intros Hin;
  repeat (apply elem_of_cons in Hin as [->|Hin]);
  try (apply elem_of_nil in Hin; contradiction);
  (split; intros ? Hcarried);
  cbn in Hcarried; try discriminate;
  injection Hcarried as <-; reflexivity.

Section Mirror.
Context `{External}.

Lemma mirrorsState_decideParagraph v i : mirrorsState (decideParagraph v i).
Proof.
  intros svc e. unfold decideParagraph, emitParagraphUpdateMessage. run.
  destruct (findParagraph i (paragraphEdits (state svc))); run; mirror_case.
Qed.

Lemma mirrorsState_onNextEditorEvent data : mirrorsState (onNextEditorEvent data).
Proof.
  intros svc e. unfold onNextEditorEvent.
  destruct (ev_type data); run; try mirror_case.
  destruct (truthyOpt (ev_original_content data)); run; mirror_case.
Qed.

Lemma mirrorsState_onNext item sess : mirrorsState (onNext item sess).
Proof.
  intros svc e. destruct item as [data|s]; cbn [onNext]; [|run; mirror_case].
  unfold onEvent. destruct (ev_type data); run; try mirror_case.
  - destruct (ev_paragraph_edits data) as [| |edits]; run;
      destruct (truthyOpt (ev_original_content data)); run; mirror_case.
  - unfold dispatchResultsToChat. run.
    match goal with
    | |- context [if truthy ?x then messageNext _ _ else mret tt] => destruct (truthy x)
    end; run;
    match goal with
    | |- context [withParagraphEdits ?l _] => destruct l
    end; run; mirror_case.
Qed.

(** X26: whenever the [next] callback of the stream, one event of
    [nextEditor], [approveParagraph] or [declineParagraph] emits a message
    that carries paragraph edits, these are the paragraph edits of the state
    when the step is done, and the sequential fields it carries are those of
    the service. *)
Theorem paragraph_messages_mirror_state :
  (forall item sess, mirrorsState (onNext item sess)) /\
  (forall data, mirrorsState (onNextEditorEvent data)) /\
  (forall i, mirrorsState (approveParagraph i)) /\
  (forall i, mirrorsState (declineParagraph i)).
Proof.
  split; [apply mirrorsState_onNext|]. split; [apply mirrorsState_onNextEditorEvent|].
  split; intros i; apply mirrorsState_decideParagraph.
Qed.

(** X27: when a [final_complete] event leaves no paragraph edits in
    the state, no message carries paragraph edits and the last message
    shown says that no revised article was returned, whatever
    [final_revised] holds: the branch that would show the revised article
    asks for a missing list and always gets a list.  The revised text is in
    the metadata of that message only. *)
Theorem final_complete_without_edits (data : EventData) (sess : Session) (svc : Service) :
  ev_type data = final_complete ->
  paragraphEdits (state (exec (onNext (ObjectItem data) sess) svc)) = [] ->
  (forall e, e ∈ trace (onNext (ObjectItem data) sess) svc -> carriedEdits e = None) /\
  exists before m,
    trace (onNext (ObjectItem data) sess) svc
    = before ++ [MessageNext (mkWorkflowMessage msg_result m)] /\
    content m = convertMarkdownToHtml noArticleText /\
    (fullContent <$> thoughtLeadership m)
    = Some (stripCodeFences
              (orElse (trim (strOr (ev_final_revised data) []))
                 (lit "No revised article returned."))).
Proof.
  intros Htype. cbn [onNext]. unfold onEvent, dispatchResultsToChat. rewrite Htype. run.
  match goal with
  | |- context [withParagraphEdits ?l _] => generalize l
  end.
  intros stored.
  match goal with
  | |- context [if truthy ?x then messageNext _ _ else mret tt] => destruct (truthy x)
  end; run; (destruct stored as [|p ps]; run; [intros _ | intros Hc; discriminate Hc]).
  - split.
    + intros e Hin. repeat (apply elem_of_cons in Hin as [->|Hin]); try reflexivity.
      apply elem_of_nil in Hin. contradiction.
    + eexists [_; _], _. split; [reflexivity|]. unfold noArticleText.
      cbn [content thoughtLeadership fmap option_fmap option_map fullContent].
      split; reflexivity.
  - split.
    + intros e Hin. repeat (apply elem_of_cons in Hin as [->|Hin]); try reflexivity.
      apply elem_of_nil in Hin. contradiction.
    + eexists [_], _. split; [reflexivity|]. unfold noArticleText.
      cbn [content thoughtLeadership fmap option_fmap option_map fullContent].
      split; reflexivity.
Qed.

End Mirror.

Lemma final_complete_without_edits_witness :
  ev_type revisedOnlyEvent = final_complete /\
  strOr (ev_final_revised revisedOnlyEvent) [] = lit "A revised text." /\
  paragraphEdits
    (state (exec (onNext (H := sampleExternal) (ObjectItem revisedOnlyEvent) sampleSession)
              initialService)) = [] /\
  exists before m,
    trace (onNext (H := sampleExternal) (ObjectItem revisedOnlyEvent) sampleSession)
      initialService
    = before ++ [MessageNext (mkWorkflowMessage msg_result m)] /\
    content m = convertMarkdownToHtml (External := sampleExternal) noArticleText.
Proof.
  assert (paragraphEdits
            (state (exec (onNext (H := sampleExternal) (ObjectItem revisedOnlyEvent)
                            sampleSession) initialService)) = []) as Hnone
    by (vm_compute; reflexivity).
  split; [reflexivity|]. split; [vm_compute; reflexivity|]. split; [exact Hnone|].
  destruct (final_complete_without_edits (H := sampleExternal) revisedOnlyEvent
              sampleSession initialService eq_refl Hnone)
    as (_ & before & m & Htrace & Hcontent & _).
  exists before, m. split; [exact Htrace | exact Hcontent].
Defined.


(** ** The error mark of an editor *)

Lemma setStatusOfFirst_lookup p st entries : forall k e0,
  entries !! k = Some e0 -> p e0 = true ->
  (forall j e, (j < k)%nat -> entries !! j = Some e -> p e = false) ->
  setStatusOfFirst p st entries !! k = Some (withStatus st e0).
Proof.
  induction entries as [|x entries IH]; intros k e0 Hk Hp Hfirst; [discriminate|].
  cbn [setStatusOfFirst]. destruct k as [|k].
  - injection Hk as ->. rewrite Hp. reflexivity.
  - rewrite (Hfirst 0%nat x) by (reflexivity || lia).
    cbn [lookup list_lookup]. apply IH; [exact Hk | exact Hp |].
    intros j e Hlt Hj. apply (Hfirst (S j) e); [lia | exact Hj].
Qed.

Section ErrorMark.
Context `{External}.

Lemma onEvent_progress_entries data sess svc :
  ev_type data = editor_progress ->
  editorProgressList (value (onEvent data sess) svc)
  = markProgress (numOr (ev_current data) 0)
      (numOr (ev_total data) (Z.of_nat (length (selectedIds sess))))
      (editorProgressList sess) /\
  editorErrors (value (onEvent data sess) svc) = editorErrors sess.
Proof. intros Htype. unfold onEvent. rewrite Htype. run. split; reflexivity. Qed.

Lemma onEvent_final_entries data sess svc :
  ev_type data = final_complete ->
  editorProgressList (value (onEvent data sess) svc)
  = map (fun editor =>
           if decide (status editor = st_error) then editor
           else withStatus st_completed editor)
        (editorProgressList sess).
Proof. intros Htype. unfold onEvent. rewrite Htype. run. reflexivity. Qed.

(** X28: an [editor_error] event marks the first entry of the
    failed editor as [error], records the error and leaves the service as
    it was.  The mark lasts until the next [editor_progress] event, which
    marks every entry by its position alone: a [final_complete] event right
    after the error keeps the mark, one after a progress event shows the
    failed editor as completed.  The recorded error is kept either way. *)
Theorem error_mark_until_next_progress (sess : Session) (svc : Service)
    (failed progress done_ : EventData) (k : nat) (e0 : EditorProgressEntry)
    (failedId : jsstring) :
  ev_type failed = editor_error -> ev_editor failed = Val failedId ->
  editorProgressList sess !! k = Some e0 -> editorId e0 = failedId ->
  (forall j e, (j < k)%nat -> editorProgressList sess !! j = Some e ->
               editorId e <> failedId) ->
  ev_type progress = editor_progress -> ev_type done_ = final_complete ->
  let sess1 := value (onNext (ObjectItem failed) sess) svc in
  let svc1 := exec (onNext (ObjectItem failed) sess) svc in
  let sess2 := value (onNext (ObjectItem progress) sess1) svc1 in
  let svc2 := exec (onNext (ObjectItem progress) sess1) svc1 in
  svc1 = svc /\
  (status <$> editorProgressList sess1 !! k) = Some st_error /\
  editorErrors sess1
  = editorErrors sess
      ++ [(strOr (ev_editor failed) (lit "Unknown"),
           strOr (ev_error failed) (lit "Unknown error"))] /\
  (status <$> editorProgressList (value (onNext (ObjectItem done_) sess1) svc1) !! k)
  = Some st_error /\
  (exists st, (status <$> editorProgressList sess2 !! k) = Some st /\ st <> st_error) /\
  (status <$> editorProgressList (value (onNext (ObjectItem done_) sess2) svc2) !! k)
  = Some st_completed /\
  editorErrors sess2 = editorErrors sess1.
Proof.
  intros Hfailed Hid Hk He0 Hfirst Hprogress Hdone sess1 svc1 sess2 svc2.
  assert (svc1 = svc /\
          editorProgressList sess1
          = setStatusOfFirst (fun e => strictEq (editorId e) (ev_editor failed)) st_error
              (editorProgressList sess) /\
          editorErrors sess1
          = editorErrors sess
              ++ [(strOr (ev_editor failed) (lit "Unknown"),
                   strOr (ev_error failed) (lit "Unknown error"))])
    as (Hsvc1 & Hentries1 & Herrors1).
  { unfold sess1, svc1. cbn [onNext]. unfold onEvent. rewrite Hfailed. run.
    split; [reflexivity|]. split; reflexivity. }
  assert (editorProgressList sess1 !! k = Some (withStatus st_error e0)) as Hk1.
  { rewrite Hentries1. apply setStatusOfFirst_lookup; [exact Hk | |].
    - rewrite Hid. cbn [strictEq]. unfold jsstring_eqb.
      apply bool_decide_eq_true. exact He0.
    - intros j e Hlt Hj. rewrite Hid. cbn [strictEq]. unfold jsstring_eqb.
      apply bool_decide_eq_false. exact (Hfirst j e Hlt Hj). }
  split; [exact Hsvc1|]. split; [rewrite Hk1; reflexivity|].
  split; [exact Herrors1|].
  split.
  { cbn [onNext]. rewrite (onEvent_final_entries _ _ _ Hdone).
    rewrite list_lookup_fmap, Hk1. reflexivity. }
  destruct (onEvent_progress_entries progress sess1 svc1 Hprogress) as [Hentries2 Herrors2].
  destruct (markProgress_lookup (numOr (ev_current progress) 0)
              (numOr (ev_total progress) (Z.of_nat (length (selectedIds sess1))))
              _ k _ Hk1) as (e2 & Hk2 & _ & _ & Hlt & Heq & Hgt).
  assert (editorProgressList sess2 !! k = Some e2) as Hk2'.
  { unfold sess2. cbn [onNext]. rewrite Hentries2. exact Hk2. }
  assert (status e2 <> st_error) as Hstatus.
  { destruct (Z.lt_trichotomy (Z.of_nat k + 1) (numOr (ev_current progress) 0))
      as [Hc|[Hc|Hc]].
    - rewrite (Hlt Hc). discriminate.
    - rewrite (Heq Hc). discriminate.
    - rewrite (Hgt Hc). discriminate. }
  split. { exists (status e2). rewrite Hk2'. split; [reflexivity | exact Hstatus]. }
  split.
  { cbn [onNext]. rewrite (onEvent_final_entries _ _ _ Hdone).
    rewrite list_lookup_fmap. fold sess2. rewrite Hk2'.
    cbn [fmap option_fmap option_map].
    destruct (decide (status e2 = st_error)); [contradiction|reflexivity]. }
  unfold sess2. cbn [onNext]. exact Herrors2.
Qed.

End ErrorMark.

Lemma error_mark_until_next_progress_witness :
  ev_type failedEvent = editor_error /\
  (editorId <$> editorProgressList sampleSession !! 1%nat) = Some (lit "line") /\
  (status <$>
     editorProgressList
       (value (onNext (H := sampleExternal) (ObjectItem failedEvent) sampleSession)
          initialService) !! 1%nat) = Some st_error /\
  (status <$>
     editorProgressList
       (value (onNext (H := sampleExternal) (ObjectItem (eventOfType final_complete))
                 (value (onNext (H := sampleExternal) (ObjectItem (progressEvent 3))
                           (value (onNext (H := sampleExternal) (ObjectItem failedEvent)
                                     sampleSession) initialService))
                    initialService))
          initialService) !! 1%nat) = Some st_completed.
Proof.
  split; [reflexivity|]. split; [vm_compute; reflexivity|].
  destruct (editorProgressList sampleSession !! 1%nat) as [e0|] eqn:Hk;
    [|vm_compute in Hk; discriminate Hk].
  assert (editorId e0 = lit "line") as He0.
  { vm_compute in Hk. injection Hk as <-. vm_compute. reflexivity. }
  assert (forall j e, (j < 1)%nat -> editorProgressList sampleSession !! j = Some e ->
                      editorId e <> lit "line") as Hfirst.
  { intros j e Hlt Hj. destruct j as [|j]; [|lia].
    vm_compute in Hj. injection Hj as <-. vm_compute. discriminate. }
  destruct (error_mark_until_next_progress (H := sampleExternal) sampleSession
              initialService failedEvent (progressEvent 3) (eventOfType final_complete)
              1 e0 (lit "line") eq_refl eq_refl Hk He0 Hfirst eq_refl eq_refl)
    as (Hsvc & Hmark & _ & _ & _ & Hdone & _).
  split; [exact Hmark|].
  rewrite Hsvc in Hdone.
  replace (exec (onNext (H := sampleExternal) (ObjectItem (progressEvent 3))
                   (value (onNext (H := sampleExternal) (ObjectItem failedEvent)
                             sampleSession) initialService)) initialService)
    with initialService in Hdone by (vm_compute; reflexivity).
  exact Hdone.
Defined.


(** ** Starting the stream *)

Lemma processingFailed_outcome `{External} svc :
  state (exec processingFailed svc) = getDefaultState /\
  sequential (exec processingFailed svc) = initialSequential /\
  isGeneratingFinal (exec processingFailed svc) = isGeneratingFinal svc /\
  trace processingFailed svc = [MessageNext processingFailedMessage; WorkflowCompletedNext].
Proof. unfold processingFailed, completeWorkflow. run. repeat split. Qed.

Ltac failed_case :=
  run;
  match goal with
  | |- context [exec processingFailed ?s] =>
      let Hs := fresh in let Hq := fresh in let Ht := fresh in
      destruct (processingFailed_outcome s) as (Hs & Hq & _ & Ht);
      rewrite Hs, Hq, Ht; repeat split
  end.

Section Starting.
Context `{External}.

Lemma processContent_outcome text ids names svc :
  exec (processContent text ids names) svc = svc /\
  trace (processContent text ids names) svc
  = [StreamEditContent text (normalizeEditorOrder ids)] /\
  selectedIds (value (processContent text ids names) svc) = ids /\
  map editorId (editorProgressList (value (processContent text ids names) svc))
  = normalizeEditorOrder ids /\
  Forall (fun e => status e = st_pending)
    (editorProgressList (value (processContent text ids names) svc)) /\
  editorErrors (value (processContent text ids names) svc) = [].
Proof.
  unfold processContent. run. cbn [selectedIds editorProgressList editorErrors].
  split; [reflexivity|]. split; [reflexivity|]. split; [reflexivity|].
  split; [|split; [|reflexivity]].
  - apply list_eq. intros k. rewrite list_lookup_fmap, list_lookup_imap.
    destruct (normalizeEditorOrder ids !! k); reflexivity.
  - apply list.Forall_forall. intros e He. apply elem_of_lookup_imap in He as (k & x & -> & _).
    reflexivity.
Qed.

(** X29: [processWithContent] ends in one of two ways.  With text to
    work on (the stored content, or the normalised text of the file when
    nothing is stored) it stores the text, sets the step to [processing],
    emits one prompt and sends one request with the text and the selected
    editors, the brand alignment editor among them, in normalised order;
    the run starts with one pending entry per editor sent.  Without text
    (the extraction fails, or the text is blank) it sends nothing, emits
    the error message, and resets the state and the sequential fields. *)
Theorem processWithContent_outcomes (svc : Service) :
  let ids := ensureBrandAlignment (selectedEditors (state svc)) in
  let after := exec processWithContent svc in
  (forall text,
     availableContent (state svc) = Some text -> truthy (trim text) = true ->
     exists sess m,
       value processWithContent svc = Some sess /\
       trace processWithContent svc
       = [MessageNext (mkWorkflowMessage msg_prompt m);
          StreamEditContent text (normalizeEditorOrder ids)] /\
       selectedIds sess = ids /\
       map editorId (editorProgressList sess) = normalizeEditorOrder ids /\
       Forall (fun e => status e = st_pending) (editorProgressList sess) /\
       state after = withStep processing (withOriginalContent text (state svc)) /\
       sequential after = sequential svc) /\
  (availableContent (state svc) = None \/
   (exists text, availableContent (state svc) = Some text /\ truthy (trim text) = false) ->
   value processWithContent svc = None /\
   state after = getDefaultState /\
   sequential after = initialSequential /\
   trace processWithContent svc
   = [MessageNext processingFailedMessage; WorkflowCompletedNext]).
Proof.
  intros ids after. subst after.
  assert (forall text svc',
            state svc' = withOriginalContent text (state svc) ->
            sequential svc' = sequential svc -> truthy (trim text) = true ->
            let c :=
              (if negb (truthy (trim text)) then processingFailed;; mret None
               else
                 s2 ← currentState;
                 updateState (withStep processing s2);;
                 messageNext msg_prompt
                   (mkMessage
                      (lit "Processing your content with: **"
                         ++ getSelectedEditorNames ids ++ lit "**"
                         ++ nl ++ nl
                         ++ lit "Please wait while I analyze and edit your content...")
                      None
                      (Some (mkMetadata processing None None (Some false) None None None
                               None None None))
                      None);;
                 sess ← processContent text ids (getSelectedEditorNames ids);
                 mret (Some sess)) in
            exists sess m,
              value c svc' = Some sess /\
              trace c svc'
              = [MessageNext (mkWorkflowMessage msg_prompt m);
                 StreamEditContent text (normalizeEditorOrder ids)] /\
              selectedIds sess = ids /\
              map editorId (editorProgressList sess) = normalizeEditorOrder ids /\
              Forall (fun e => status e = st_pending) (editorProgressList sess) /\
              state (exec c svc')
              = withStep processing (withOriginalContent text (state svc)) /\
              sequential (exec c svc') = sequential svc) as Hstart.
  { intros text svc' Hstate Hseq Htext c. subst c. rewrite Htext. cbn [negb]. run.
    match goal with
    | |- context [processContent ?t ?i ?n] =>
        match goal with
        | |- context [exec (processContent t i n) ?s] =>
            destruct (processContent_outcome t i n s) as (He & Ht & Hids & Hmap & Hall & _)
        end
    end.
    rewrite He, Ht. eexists _, _. split; [reflexivity|]. split; [reflexivity|].
    split; [exact Hids|]. split; [exact Hmap|]. split; [exact Hall|].
    cbn [state sequential]. rewrite Hstate, Hseq. split; reflexivity. }
  unfold processWithContent, availableContent. fold ids. run.
  destruct (uploadedFile (state svc)) as [f|].
  - destruct (truthy (originalContent (state svc))) eqn:Hstored;
      cbn [negb fmap option_fmap option_map].
    + run. split.
      * intros text [= <-] Htext.
        destruct (Hstart (originalContent (state svc)) svc) as (sess & m & Hs);
          [destruct svc as [[]]; reflexivity | reflexivity | exact Htext |].
        cbv zeta in Hs. exists sess, m. exact Hs.
      * intros [Hnone|(text & [= <-] & Htext)]; [discriminate|].
        rewrite Htext. cbn [negb]. failed_case.
    + destruct (extractFileText f) as [raw|]; cbn [fmap option_fmap option_map]; run.
      * split.
        -- intros text [= <-] Htext.
           match goal with
           | |- context [value _ ?s] =>
               destruct (Hstart (normalizeContent raw) s) as (sess & m & Hs);
                 [reflexivity | reflexivity | exact Htext |]
           end.
           cbv zeta in Hs. exists sess, m. exact Hs.
        -- intros [Hnone|(text & [= <-] & Htext)]; [discriminate|].
           rewrite Htext. cbn [negb]. failed_case.
      * split; [intros text Hnone; discriminate|].
        intros _. failed_case.
  - run. split.
    + intros text [= <-] Htext.
      destruct (Hstart (originalContent (state svc)) svc) as (sess & m & Hs);
        [destruct svc as [[]]; reflexivity | reflexivity | exact Htext |].
      cbv zeta in Hs. exists sess, m. exact Hs.
    + intros [Hnone|(text & [= <-] & Htext)]; [discriminate|].
      rewrite Htext. cbn [negb]. failed_case.
Qed.

End Starting.

Lemma processWithContent_outcomes_witness :
  (availableContent (H := sampleExternal) (state processingService)
   = Some (lit "draft.txt") /\
   step (state (exec (processWithContent (H := sampleExternal)) processingService))
   = processing) /\
  (availableContent (H := sampleExternal) (state blankUploadService) = Some [] /\
   state (exec (processWithContent (H := sampleExternal)) blankUploadService)
   = getDefaultState).
Proof.
  assert (availableContent (H := sampleExternal) (state processingService)
          = Some (lit "draft.txt")) as Hdraft by (vm_compute; reflexivity).
  assert (availableContent (H := sampleExternal) (state blankUploadService)
          = Some []) as Hblank by (vm_compute; reflexivity).
  split.
  - split; [exact Hdraft|].
    destruct (processWithContent_outcomes (H := sampleExternal) processingService)
      as [Hstarts _].
    destruct (Hstarts (lit "draft.txt") Hdraft ltac:(vm_compute; reflexivity))
      as (sess & m & _ & _ & _ & _ & _ & Hstate & _).
    rewrite Hstate. reflexivity.
  - split; [exact Hblank|].
    destruct (processWithContent_outcomes (H := sampleExternal) blankUploadService)
      as [_ Hfails].
    destruct (Hfails (or_intror (ex_intro _ [] (conj Hblank eq_refl))))
      as (_ & Hstate & _).
    exact Hstate.
Defined.

(** ** The selection parser, where it returns *)

(** X30: whenever [parseNumericSelection] returns, its result is well
    formed: both lists are ascending and without duplicates, every selected
    number is an integer from 1 to 5, no invalid number is one, and when the
    cleaned input holds no digit both lists are empty and [hasInput] tells
    whether the cleaned input is non-empty.  (Nothing is said here about
    when it returns, nor that every number of the input is found in one of
    the lists.) *)
Theorem numeric_selection_parser (fuel : nat) (input : jsstring) (r : SelectionResult) :
  parseNumericSelection fuel input = Some r ->
  (NoDup (selectedIndices r) /\ ascending (selectedIndices r) /\
   forall n, n ∈ selectedIndices r -> exists z, n = Finite z /\ 1 <= z <= 5) /\
  (NoDup (invalidIndices r) /\ ascending (invalidIndices r) /\
   forall n, n ∈ invalidIndices r -> ~ exists z, n = Finite z /\ 1 <= z <= 5) /\
  (existsb isDigit (cleanInput input) = false ->
   selectedIndices r = [] /\ invalidIndices r = [] /\
   hasInput r = (0 <? length (cleanInput input))%nat).
Proof. apply parseNumericSelection_sound. Qed.

Lemma numeric_selection_parser_witness :
  parseNumericSelection 10 (lit "use editors 4, 1-2 and 9")
  = Some (mkSelectionResult [Finite 1; Finite 2; Finite 4] [Finite 9] true) /\
  NoDup [Finite 1; Finite 2; Finite 4] /\ ascending [Finite 1; Finite 2; Finite 4].
Proof.
  assert (parseNumericSelection 10 (lit "use editors 4, 1-2 and 9")
          = Some (mkSelectionResult [Finite 1; Finite 2; Finite 4] [Finite 9] true))
    as Hparsed by (vm_compute; reflexivity).
  split; [exact Hparsed|].
  destruct (numeric_selection_parser 10 (lit "use editors 4, 1-2 and 9") _ Hparsed)
    as ((Hnodup & Hasc & _) & _).
  split; assumption.
Defined.

(** ** The steps of the workflow, taken together *)

Section WorkflowOrder.
Context `{External}.

Lemma processWithContent_no_text svc :
  availableContent (state svc) = None \/
  (exists text, availableContent (state svc) = Some text /\ truthy (trim text) = false) ->
  state (exec processWithContent svc) = getDefaultState /\
  sequential (exec processWithContent svc) = initialSequential /\
  trace processWithContent svc = [MessageNext processingFailedMessage; WorkflowCompletedNext].
Proof.
  unfold processWithContent, availableContent. run.
  destruct (uploadedFile (state svc)) as [f|].
  - destruct (truthy (originalContent (state svc))) eqn:Hstored;
      cbn [negb fmap option_fmap option_map].
    + run. intros [Hnone|(text & [= <-] & Htext)]; [discriminate|].
      rewrite Htext. cbn [negb]. failed_case.
    + destruct (extractFileText f) as [raw|]; cbn [fmap option_fmap option_map]; run.
      * intros [Hnone|(text & [= <-] & Htext)]; [discriminate|].
        rewrite Htext. cbn [negb]. failed_case.
      * intros _. failed_case.
  - run. intros [Hnone|(text & [= <-] & Htext)]; [discriminate|].
    rewrite Htext. cbn [negb]. failed_case.
Qed.

Lemma keeps_onNextEditorEvent_stable I data :
  reducerStable I -> keeps I (onNextEditorEvent data).
Proof.
  intros [Hcontent Hedits]. unfold onNextEditorEvent.
  repeat first [ keeps_step | apply keeps_updateState; auto ].
Qed.

Lemma keeps_onNextEditorEvents_stable I events :
  reducerStable I -> keeps I (onNextEditorEvents events).
Proof.
  intros HI. induction events as [|data rest IH]; cbn [onNextEditorEvents].
  - apply keeps_ret.
  - apply keeps_bind; [apply keeps_onNextEditorEvent_stable, HI|].
    intros [|]; [apply keeps_ret | exact IH].
Qed.

Lemma perform_keeps_step c svc :
  writesStep c = false -> step (state (exec (perform c) svc)) = step (state svc).
Proof.
  intros Hc.
  assert (keeps (fun s => step s = step (state svc)) (perform c)) as Hkeeps;
    [|apply Hkeeps; reflexivity].
  destruct c; try discriminate; cbn [perform];
    unfold detectEditIntent, handleOptOutAndProceed, approveParagraph, declineParagraph,
      decideParagraph, emitParagraphUpdateMessage, syncParagraphEditsFromMessage,
      nextEditor, nextEditorFailed, onNextEditorEvent;
    repeat first
      [ apply keeps_onNext_stable; split; intros ? ? Hs; exact Hs
      | apply keeps_onNextEditorEvents_stable; split; intros ? ? Hs; exact Hs
      | keeps_step
      | apply keeps_updateState; cbn; congruence ].
Qed.


End WorkflowOrder.


